(** * Puppet Engine: agent event and scheduling runtime

  A shallow embedding of the scheduling, event-queue, reaction-pipeline,
  back-off and relationship code of the Puppet Engine, together with the
  properties its specification states about them, and further properties
  of the listeners, memory, posting, polling and event handling code.

  Conventions of the embedding:
  - a JavaScript number is a rational ([Q]) or, where the code only
    ever holds integers (millisecond clocks, counters), a [Z]; the post
    interval, whose last millisecond depends on it, is computed with
    the rounding of IEEE doubles (module [Double]); elsewhere the
    arithmetic is exact; [NaN] and the infinities are not modelled;
  - a plain object used as a dictionary is a [gmap] keyed by strings;
    a [Set] is the list of its elements in insertion order;
  - [null] and [undefined] are [None];
  - the outside world (the Twitter client, the language model, the
    clock and [Math.random]) answers every call as a function of all
    calls made so far, so theorems quantified over the world hold for
    every behaviour of the collaborators. *)

From Stdlib Require Import ZArith QArith Qround Qminmax Qpower Qreduction.
From Stdlib Require Import Qabs Lia Lqa.
From Stdlib Require Import String Ascii List Bool Sorted Permutation.
From stdpp Require Import base option list gmap strings pretty.

Import ListNotations.

(** ** src/core/types.js *)

Module Types.

(** [agent.behavior.postFrequency] *)
Record PostFrequency := mkPostFrequency {
  minHoursBetweenPosts : Q;
  maxHoursBetweenPosts : Q;
  peakPostingHours : list Z
}.

(** [agent.behavior.interactionPatterns] *)
Record InteractionPatterns := mkInteractionPatterns {
  replyProbability : Q;
  quoteTweetProbability : Q;
  likeProbability : Q
}.

Record Behavior := mkBehavior {
  postFrequency : PostFrequency;
  interactionPatterns : InteractionPatterns
}.

(** class [Agent], restricted to the fields the runtime reads or
    writes. *)
Record Agent := mkAgent {
  agent_id : string;
  agent_name : string;
  customSystemPrompt : option string;
  rotatingSystemPrompts : list string;
  behavior : Behavior;
  lastPostTime : option Z
}.

(** The defaults of the [behavior] field of class [Agent]. *)
Definition defaultBehavior : Behavior :=
  mkBehavior (mkPostFrequency 3 12 [])
             (mkInteractionPatterns (5 # 10) (3 # 10) (7 # 10)).

(** [priority] of class [Event]: 'low', 'normal', 'high', 'critical'. *)
Inductive Priority := low | normal | high | critical.

(** class [Event]; [data] and [timestamp] play no part in queueing. *)
Record Event := mkEvent {
  event_id : string;
  event_type : string;
  targetAgentIds : list string;
  priority : Priority
}.

End Types.

(** ** Double-precision arithmetic

    A JavaScript number is an IEEE 754 binary64 value.  Where a result
    depends on the last bit (the post interval is floored to a whole
    millisecond), a finite double is the rational it denotes and every
    arithmetic operation of the code is the exact operation followed by
    [fl], rounding to the nearest double, ties to the even significand:
    53 significant bits, least exponent [-1074] (so subnormal numbers
    round as they do in hardware).  Overflow to an infinity and [NaN]
    are not modelled: [fl] agrees with the code's arithmetic as long as
    the result stays below [2^1024] in absolute value. *)

Module Double.
Local Open Scope Q_scope.

Definition pow2 (e : Z) : Q := 2 ^ e.

(** The exponent of the binade of a positive rational:
    [2^k <= x < 2^(k+1)]. *)
Definition log2Floor (x : Q) : Z :=
  let k := (Z.log2 (Qnum x) - Z.log2 (Zpos (Qden x)))%Z in
  if Qle_bool (pow2 k) x then k else (k - 1)%Z.

(** Nearest integer, ties to even. *)
Definition roundHalfEven (x : Q) : Z :=
  let f := Qfloor x in
  match Qcompare (x - inject_Z f) (1 # 2) with
  | Lt => f
  | Gt => (f + 1)%Z
  | Eq => if Z.even f then f else (f + 1)%Z
  end.

(** The exponent of the unit in the last place of the double nearest to
    a positive [x]. *)
Definition exponent (x : Q) : Z := Z.max (-1074) (log2Floor x - 52).

Definition roundPositive (x : Q) : Q :=
  let e := exponent x in
  inject_Z (roundHalfEven (x / pow2 e)) * pow2 e.

(** The double nearest to [x]. *)
Definition fl (x : Q) : Q :=
  Qred match Qcompare x 0 with
       | Eq => 0
       | Gt => roundPositive x
       | Lt => - roundPositive (- x)
       end.

End Double.

(** ** The behavior randomizer (agents/behavior-randomizer) *)

Module BehaviorRandomizer.
Import Types Double.
Local Open Scope Q_scope.

(** [minHoursBetweenPosts * 60 * 60 * 1000], each product rounded. *)
Definition hoursToMs (hours : Q) : Q :=
  fl (fl (fl (hours * 60) * 60) * 1000).

Definition minMs (pf : PostFrequency) : Q :=
  hoursToMs (minHoursBetweenPosts pf).

Definition maxMs (pf : PostFrequency) : Q :=
  hoursToMs (maxHoursBetweenPosts pf).

Definition isPeakHour (pf : PostFrequency) (currentHour : Z) : bool :=
  existsb (Z.eqb currentHour) (peakPostingHours pf).

(** [getNextPostInterval(agent)].  [currentHour] is
    [new Date().getHours()]; [r1], [r2], [r3], [r4] are the values the
    successive calls of [Math.random()] return ([r4] is only drawn when
    [r3 > 0.5]).  Every product, sum and difference of the code is
    rounded to a double, and so are the literals [0.7], [1.1] and
    [0.2]; [Math.min], [Math.floor] and the comparison with [0.5] are
    exact. *)
Definition getNextPostInterval (agent : Agent) (currentHour : Z)
    (r1 r2 r3 r4 : Q) : Z :=
  let pf := postFrequency (behavior agent) in
  let interval := fl (minMs pf + fl (r1 * fl (maxMs pf - minMs pf))) in
  let interval :=
    if isPeakHour pf currentHour
    then fl (interval * fl (fl (7 # 10) + fl (r2 * fl (2 # 10))))
    else fl (interval * fl (fl (11 # 10) + fl (r2 * fl (2 # 10)))) in
  let interval :=
    if Qlt_le_dec (5 # 10) r3
    then fl (interval + fl (fl (fl (r4 * 5) * 60) * 1000))
    else interval in
  let interval := Qmin interval (maxMs pf) in
  Qfloor interval.

(** The hours for which no intermediate result of
    [getNextPostInterval] overflows, so that the rounding of module
    [Double] is the code's arithmetic. *)
Definition finiteHours (pf : PostFrequency) : Prop :=
  Qabs (minHoursBetweenPosts pf) <= inject_Z (2 ^ 900) /\
  Qabs (maxHoursBetweenPosts pf) <= inject_Z (2 ^ 900).

(** A draw of [Math.random()] lies in [[0, 1)]. *)
Definition isDraw (r : Q) : Prop := 0 <= r /\ r < 1.

End BehaviorRandomizer.

(** ** The event engine (class [EventEngine]) *)

Module EventEngine.
Import Types.
Local Open Scope Z_scope.

(** The table [priorityValues] of [sortEventQueue]. *)
Definition priorityValues (p : Priority) : Z :=
  match p with
  | critical => 3
  | high => 2
  | normal => 1
  | low => 0
  end.

(** An entry of [scheduledEvents]. *)
Record ScheduledEvent := mkScheduledEvent {
  sched_event : Event;
  scheduledTime : Z
}.

(** The fields of class [EventEngine] that queueing and draining use.
    [processEvents] is an [async] function: it runs until its
    [await this.dispatchEvent(event)] and is resumed later.  While it
    is suspended, [awaiting] holds the event of its frame (the local
    [event]).  [dispatched] is a history variable: the arguments of
    the calls of [dispatchEvent], oldest first. *)
Record Engine := mkEngine {
  eventQueue : list Event;
  scheduledEvents : list ScheduledEvent;
  isProcessing : bool;
  eventHistory : list Event;
  awaiting : option Event;
  dispatched : list Event
}.

(** The engine the constructor builds. *)
Definition newEngine : Engine := mkEngine [] [] false [] None [].

(** [Array.prototype.sort] is stable (ECMAScript 2019): with the
    comparator [priorityValues[b] - priorityValues[a]] it yields the
    events by descending priority, equal priorities in their previous
    order.  Insertion from the right computes exactly that list. *)
Fixpoint insertByPriority (e : Event) (q : list Event) : list Event :=
  match q with
  | [] => [e]
  | x :: q' =>
      if priorityValues (priority x) <=? priorityValues (priority e)
      then e :: x :: q'
      else x :: insertByPriority e q'
  end.

Definition sortEventQueue (q : list Event) : list Event :=
  fold_right insertByPriority [] q.

(** The first two statements of [queueEvent]: push, then sort. *)
Definition pushSorted (e : Event) (eng : Engine) : Engine :=
  mkEngine (sortEventQueue (eventQueue eng ++ [e])) (scheduledEvents eng)
    (isProcessing eng) (eventHistory eng) (awaiting eng) (dispatched eng).

(** [queueEvent], with the method it calls when the engine is idle as a
    parameter. *)
Definition queueEventWith (start : Engine -> Engine) (e : Event)
    (eng : Engine) : Engine :=
  let eng1 := pushSorted e eng in
  if isProcessing eng1 then eng1 else start eng1.

(** [checkScheduledEvents]; [now] is [Date.now()]. *)
Definition checkScheduledEventsWith (start : Engine -> Engine) (now : Z)
    (eng : Engine) : Engine :=
  let dueEvents :=
    map sched_event
      (List.filter (fun s => scheduledTime s <=? now)
         (scheduledEvents eng)) in
  let futureEvents :=
    List.filter (fun s => negb (scheduledTime s <=? now))
      (scheduledEvents eng) in
  fold_left (fun g e => queueEventWith start e g) dueEvents
    (mkEngine (eventQueue eng) futureEvents (isProcessing eng)
       (eventHistory eng) (awaiting eng) (dispatched eng)).

(** The head of the [while] loop of [processEvents]: with an empty
    queue the loop ends and [finally] clears the flag; otherwise the
    first event is shifted off the queue, [dispatchEvent] is called
    with it and the function suspends at the [await]. *)
Definition processLoop (eng : Engine) : Engine :=
  match eventQueue eng with
  | [] =>
      mkEngine [] (scheduledEvents eng) false (eventHistory eng) None
        (dispatched eng)
  | event :: rest =>
      mkEngine rest (scheduledEvents eng) (isProcessing eng)
        (eventHistory eng) (Some event) (dispatched eng ++ [event])
  end.

(** [processEvents], up to its first suspension.  It calls
    [checkScheduledEvents] with the flag set, so a [processEvents]
    started from there returns at its guard: the identity. *)
Definition processEvents (now : Z) (eng : Engine) : Engine :=
  if isProcessing eng then eng
  else
    processLoop
      (checkScheduledEventsWith (fun g => g) now
         (mkEngine (eventQueue eng) (scheduledEvents eng) true
            (eventHistory eng) (awaiting eng) (dispatched eng))).

Definition queueEvent (now : Z) (e : Event) (eng : Engine) : Engine :=
  queueEventWith (processEvents now) e eng.

Definition checkScheduledEvents (now : Z) (eng : Engine) : Engine :=
  checkScheduledEventsWith (processEvents now) now eng.

(** [this.scheduledEvents.sort((a, b) => a.scheduledTime - b.scheduledTime)]:
    [Array.prototype.sort] is stable, events scheduled for the same
    time keep their previous order.  Insertion from the right computes
    exactly that list. *)
Fixpoint insertByTime (s : ScheduledEvent) (l : list ScheduledEvent)
    : list ScheduledEvent :=
  match l with
  | [] => [s]
  | x :: l' =>
      if scheduledTime s <=? scheduledTime x
      then s :: x :: l'
      else x :: insertByTime s l'
  end.

Definition sortScheduledEvents (l : list ScheduledEvent)
    : list ScheduledEvent :=
  fold_right insertByTime [] l.

(** [scheduleEvent]: the event goes to the future list. *)
Definition scheduleEvent (now : Z) (e : Event) (delayMs : Z)
    (eng : Engine) : Engine :=
  mkEngine (eventQueue eng)
    (sortScheduledEvents
       (scheduledEvents eng ++ [mkScheduledEvent e (now + delayMs)]))
    (isProcessing eng) (eventHistory eng) (awaiting eng) (dispatched eng).

(** The rest of an iteration of the loop, run when the awaited
    dispatch has settled: the event enters the history (at most 100
    entries), then the loop head runs again. *)
Definition resume (eng : Engine) : Engine :=
  match awaiting eng with
  | None => eng
  | Some event =>
      let history := eventHistory eng ++ [event] in
      let history :=
        if (100 <? Z.of_nat (length history)) then tl history
        else history in
      processLoop
        (mkEngine (eventQueue eng) (scheduledEvents eng) (isProcessing eng)
           history None (dispatched eng))
  end.

(** What can happen to an engine: a caller enqueues or schedules an
    event, or the suspended drain is resumed. *)
Inductive Op :=
| OpQueue (now : Z) (e : Event)
| OpSchedule (now : Z) (e : Event) (delayMs : Z)
| OpResume.

Definition step (eng : Engine) (op : Op) : Engine :=
  match op with
  | OpQueue now e => queueEvent now e eng
  | OpSchedule now e delayMs => scheduleEvent now e delayMs eng
  | OpResume => resume eng
  end.

Definition run (ops : list Op) (eng : Engine) : Engine :=
  fold_left step ops eng.

(** Resume the drain until it has run to completion. *)
Fixpoint drain (fuel : nat) (eng : Engine) : Engine :=
  match fuel with
  | O => eng
  | S fuel' => if isProcessing eng then drain fuel' (resume eng) else eng
  end.

Definition drainAll (eng : Engine) : Engine :=
  drain (S (length (eventQueue eng))) eng.

(** The queue is in dispatch order: priorities never increase. *)
Definition byPriority (a b : Event) : Prop :=
  priorityValues (priority b) <= priorityValues (priority a).

(** What every reachable engine satisfies. *)
Definition wellFormed (eng : Engine) : Prop :=
  StronglySorted byPriority (eventQueue eng) /\
  (isProcessing eng = true <-> awaiting eng <> None) /\
  (isProcessing eng = false -> eventQueue eng = []).

End EventEngine.

(** ** The memory manager (memory/memory-manager) *)

Module MemoryManager.
Local Open Scope Q_scope.

(** class [Relationship] of types.js; its comments give the ranges
    -1.0 to 1.0 for [sentiment] and 0.0 to 1.0 for [familiarity] and
    [trust]. *)
Record Relationship := mkRelationship {
  targetAgentId : string;
  sentiment : Q;
  familiarity : Q;
  trust : Q;
  lastInteractionDate : option Z;
  recentInteractions : list string;
  sharedExperiences : list string;
  notes : list string
}.

(** [new Relationship(targetAgentId)] *)
Definition newRelationship (target : string) : Relationship :=
  mkRelationship target 0 0 0 None [] [] [].

(** class [AgentMemory], restricted to the relationships. *)
Record AgentMemory := mkAgentMemory {
  relationships : gmap string Relationship
}.

(** [memory.getRelationship(targetAgentId)]: created on first use. *)
Definition getRelationship (memory : AgentMemory) (target : string)
    : AgentMemory * Relationship :=
  match relationships memory !! target with
  | Some relationship => (memory, relationship)
  | None =>
      (mkAgentMemory (insert target (newRelationship target)
                        (relationships memory)),
       newRelationship target)
  end.

(** An entry of the object [changes], by its key: a number for the
    three scores, an array for the three lists, and the two remaining
    fields of the class, which the last branch assigns as they come. *)
Inductive Change :=
| ChangeSentiment (value : Q)
| ChangeFamiliarity (value : Q)
| ChangeTrust (value : Q)
| ChangeRecentInteractions (items : list string)
| ChangeNotes (items : list string)
| ChangeSharedExperiences (items : list string)
| ChangeTargetAgentId (value : string)
| ChangeLastInteractionDate (value : option Z).

(** [Math.max(-1, Math.min(1, value))] *)
Definition withinBounds (value : Q) : Q := Qmax (-1) (Qmin 1 value).

(** The body of the loop over [Object.keys(changes)]. *)
Definition applyChange (r : Relationship) (c : Change) : Relationship :=
  match c with
  | ChangeSentiment v =>
      mkRelationship (targetAgentId r) (withinBounds v) (familiarity r)
        (trust r) (lastInteractionDate r) (recentInteractions r)
        (sharedExperiences r) (notes r)
  | ChangeFamiliarity v =>
      mkRelationship (targetAgentId r) (sentiment r) (withinBounds v)
        (trust r) (lastInteractionDate r) (recentInteractions r)
        (sharedExperiences r) (notes r)
  | ChangeTrust v =>
      mkRelationship (targetAgentId r) (sentiment r) (familiarity r)
        (withinBounds v) (lastInteractionDate r) (recentInteractions r)
        (sharedExperiences r) (notes r)
  | ChangeRecentInteractions items =>
      mkRelationship (targetAgentId r) (sentiment r) (familiarity r)
        (trust r) (lastInteractionDate r)
        (firstn 10 (items ++ recentInteractions r))
        (sharedExperiences r) (notes r)
  | ChangeNotes items =>
      mkRelationship (targetAgentId r) (sentiment r) (familiarity r)
        (trust r) (lastInteractionDate r) (recentInteractions r)
        (sharedExperiences r) (items ++ notes r)
  | ChangeSharedExperiences items =>
      mkRelationship (targetAgentId r) (sentiment r) (familiarity r)
        (trust r) (lastInteractionDate r) (recentInteractions r)
        (items ++ sharedExperiences r) (notes r)
  | ChangeTargetAgentId v =>
      mkRelationship v (sentiment r) (familiarity r)
        (trust r) (lastInteractionDate r) (recentInteractions r)
        (sharedExperiences r) (notes r)
  | ChangeLastInteractionDate v =>
      mkRelationship (targetAgentId r) (sentiment r) (familiarity r)
        (trust r) v (recentInteractions r)
        (sharedExperiences r) (notes r)
  end.

Definition touch (now : Z) (r : Relationship) : Relationship :=
  mkRelationship (targetAgentId r) (sentiment r) (familiarity r) (trust r)
    (Some now) (recentInteractions r) (sharedExperiences r) (notes r).

(** [updateRelationship(agentId, targetAgentId, changes)] on the memory
    of the agent; [now] is [new Date()].  The memory is written back
    and the relationship returned. *)
Definition updateRelationship (now : Z) (memory : AgentMemory)
    (target : string) (changes : list Change) : AgentMemory * Relationship :=
  let '(memory, relationship) := getRelationship memory target in
  let relationship := touch now (fold_left applyChange changes relationship) in
  (mkAgentMemory (insert target relationship (relationships memory)),
   relationship).

(** The ranges the data model gives a relationship. *)
Definition inRange (r : Relationship) : Prop :=
  -1 <= sentiment r /\ sentiment r <= 1 /\
  0 <= familiarity r /\ familiarity r <= 1 /\
  0 <= trust r /\ trust r <= 1 /\
  (length (recentInteractions r) <= 10)%nat.

(** The ranges [updateRelationship] keeps. *)
Definition inCodeRange (r : Relationship) : Prop :=
  -1 <= sentiment r /\ sentiment r <= 1 /\
  -1 <= familiarity r /\ familiarity r <= 1 /\
  -1 <= trust r /\ trust r <= 1 /\
  (length (recentInteractions r) <= 10)%nat.

(** The memory of an agent that has not interacted with anyone. *)
Definition emptyMemory : AgentMemory := mkAgentMemory ∅.

End MemoryManager.

(** ** JavaScript strings *)

Module JsString.

(** A string is the sequence of its UTF-16 code units; the model has
    the strings whose code units lie below 256 (Latin-1), one [ascii]
    per code unit. *)

(** The code units with a lower-case counterpart: A to Z, and the
    accented capitals U+00C0 to U+00DE without the multiplication sign
    U+00D7. *)
Definition isUpper (c : ascii) : bool :=
  let n := Ascii.nat_of_ascii c in
  ((65 <=? n) && (n <=? 90) ||
   (192 <=? n) && (n <=? 222) && negb (n =? 215))%nat.

Definition lowerChar (c : ascii) : ascii :=
  if isUpper c then Ascii.ascii_of_nat (Ascii.nat_of_ascii c + 32) else c.

(** [s.toLowerCase()] *)
Fixpoint toLowerCase (s : string) : string :=
  match s with
  | EmptyString => EmptyString
  | String c s' => String (lowerChar c) (toLowerCase s')
  end.

Fixpoint startsWith (p s : string) : bool :=
  match p, s with
  | EmptyString, _ => true
  | String a p', String b s' => Ascii.eqb a b && startsWith p' s'
  | String _ _, EmptyString => false
  end.

(** [s.includes(p)] *)
Fixpoint includes (s p : string) : bool :=
  startsWith p s ||
  match s with
  | EmptyString => false
  | String _ s' => includes s' p
  end.

(** The class [\w] of a regular expression. *)
Definition isWordChar (c : ascii) : bool :=
  let n := Ascii.nat_of_ascii c in
  ((48 <=? n) && (n <=? 57) || (65 <=? n) && (n <=? 90) ||
   (97 <=? n) && (n <=? 122) || (n =? 95))%nat.

(** The class [\s]: space, tab to carriage return, and the no-break
    space U+00A0. *)
Definition isSpaceChar (c : ascii) : bool :=
  let n := Ascii.nat_of_ascii c in
  ((n =? 32) || (9 <=? n) && (n <=? 13) || (n =? 160))%nat.

(** [content.replace(/@\w+\s?/g, '')]: [inMention] holds while the
    word characters of a match are being consumed. *)
Fixpoint stripMentions (inMention : bool) (s : string) : string :=
  match s with
  | EmptyString => EmptyString
  | String c s' =>
      if inMention && isWordChar c then stripMentions true s'
      else if inMention && isSpaceChar c then stripMentions false s'
      else
        let startsMention :=
          Ascii.eqb c "@" &&
          match s' with
          | String d _ => isWordChar d
          | EmptyString => false
          end in
        if startsMention then stripMentions true s'
        else String c (stripMentions false s')
  end.

(** A string as a condition: the empty string is falsy. *)
Definition truthy (o : option string) : option string :=
  match o with
  | Some s => if String.eqb s "" then None else Some s
  | None => None
  end.

End JsString.

(** ** The agent manager (agents/agent-manager.js) *)

Module AgentManager.
Import Types JsString.
Local Open Scope Z_scope.

(** *** Values *)

Inductive Role := RoleAgent | RoleUser.

(** An entry of a conversation history. *)
Record HistoryEntry := mkHistoryEntry {
  role : Role;
  entry_content : string;
  timestamp : Z
}.

(** class [Tweet] with the fields the manager adds to it.  [createdAt]
    is the [getTime()] of the date, [None] when the field is missing.
    Of [originalTweet] the manager only tests whether it is set. *)
Record Tweet := mkTweet {
  tweet_id : string;
  content : string;
  authorId : string;
  authorUsername : option string;
  createdAt : option Z;
  replyToId : option string;
  isDirectMention : bool;
  hasOriginalTweet : bool;
  conversationHistory : option (list HistoryEntry)
}.

(** An exception: [code] and the codes of the entries of [errors] are
    what [_handleApiError] inspects. *)
Record JsError := mkJsError {
  err_code : option Z;
  err_errors : list Z;
  err_message : string
}.

Inductive Result (A : Type) :=
| Ok (a : A)
| Err (e : JsError).
Arguments Ok {A} a.
Arguments Err {A} e.

(** The [action] of the object [generateReaction] resolves to. *)
Inductive Action := ActReply | ActQuote | ActLike | ActIgnore | ActOther.

Inductive Task := TaskReply | TaskQuoteTweet.

(** The [options] of [createAgentPost]. *)
Record PostOptions := mkPostOptions {
  task : option Task;
  replyTo : option Tweet;
  quoteTweet : option Tweet;
  avoidContextQuestions : bool;
  ignoreTimeConstraint : bool
}.

Definition noOptions : PostOptions :=
  mkPostOptions None None None false false.

(** What [createAgentPost] and [processAgentReaction] resolve to. *)
Inductive Reaction :=
| Posted (postContent : string) (agentId : string) (tweetId : option string)
| Liked (tweetId : string).

(** *** The outside world *)

(** A call that leaves the manager. *)
Inductive Call :=
| CMe (agentId : string)
| CGetTweet (tweetId : string)
| CGetAgentMentions (agentId : string) (sinceId : option string)
| CGenerateReaction (agentId : string) (tweet : Tweet)
| CGenerateContent (agentId : string) (replyTo : Tweet)
    (avoidContextQuestions : bool)
| CGenerateTweet (agentId : string) (userPrompt : option string)
| CPostTweet (agentId : string) (postContent : string)
    (replyToTweetId : option string)
    (* [twitterClient.postTweet(agentId, content, tweetOptions)]: the
       manager builds [tweetOptions] as [{}] and sets no key but
       [replyToTweetId]; [None] is the call with [{}], an ordinary
       tweet.  The keys [quoteTweetId] and [mediaIds], which
       [postTweet] of twitter-client.js reads too, are never passed. *)
| CLikeTweet (agentId : string) (tweetId : string)
| CAddTweetToAgentMemory (agentId : string) (postContent : string)
    (tweetId : option string) (isReply : bool)
| CLoadProcessedTweets
| CSaveProcessedTweets (ids : list string)
| CDateNow
| CGetHours
| CMathRandom.

(** A call as it is observed: together with the content of
    [processedTweetIds] at the moment it is made. *)
Record Observed := mkObserved {
  call : Call;
  processedThen : list string
}.

(** The collaborators.  Each answers as a function of everything
    observed so far, so an answer may change from call to call.
    [username] is the screen name of the Twitter account of an agent. *)
Record World := mkWorld {
  username : string -> string;
  meFails : list Observed -> string -> option JsError;
  getTweet : list Observed -> string -> Result Tweet;
  getAgentMentions :
    list Observed -> string -> option string -> Result (list Tweet);
  generateReaction : list Observed -> Agent -> Tweet -> Result Action;
  generateContent : list Observed -> Agent -> Tweet -> bool -> Result string;
  generateTweet : list Observed -> Agent -> option string -> Result string;
  postTweet :
    list Observed -> string -> string -> option string -> Result string;
  likeTweet : list Observed -> string -> string -> Result unit;
  loadProcessedTweetsFile : list Observed -> Result (option (list string));
  dateNow : list Observed -> Z;
  getHours : list Observed -> Z;
  mathRandom : list Observed -> Q
}.

(** [twitterClient.getClientForAgent(agentId).v2.me()]: the call
    fails, or it gives the screen name of the account the agent posts
    from. *)
Definition me (w : World) (t : list Observed) (agentId : string)
    : Result string :=
  match meFails w t agentId with
  | Some e => Err e
  | None => Ok (username w agentId)
  end.

(** *** The manager *)

(** The fields of class [AgentManager], and the two variables
    [lastMentionId] and [agentUsername] that the polling callback of
    each agent closes over (here keyed by the agent). *)
Record Manager := mkManager {
  agents : gmap string Agent;
  nextPostTimes : gmap string Z;
  processedTweetIds : list string;
  apiErrorCounts : gmap string Z;
  apiCooldowns : gmap string Z;
  lastMentionId : gmap string string;
  agentUsername : gmap string string;
  trace : list Observed
}.

(** The manager the constructor builds. *)
Definition newManager : Manager := mkManager ∅ ∅ [] ∅ ∅ ∅ ∅ [].

Definition withAgents (f : gmap string Agent -> gmap string Agent)
    (m : Manager) : Manager :=
  mkManager (f (agents m)) (nextPostTimes m) (processedTweetIds m)
    (apiErrorCounts m) (apiCooldowns m) (lastMentionId m)
    (agentUsername m) (trace m).

Definition withNextPostTimes (f : gmap string Z -> gmap string Z)
    (m : Manager) : Manager :=
  mkManager (agents m) (f (nextPostTimes m)) (processedTweetIds m)
    (apiErrorCounts m) (apiCooldowns m) (lastMentionId m)
    (agentUsername m) (trace m).

Definition withProcessedTweetIds (f : list string -> list string)
    (m : Manager) : Manager :=
  mkManager (agents m) (nextPostTimes m) (f (processedTweetIds m))
    (apiErrorCounts m) (apiCooldowns m) (lastMentionId m)
    (agentUsername m) (trace m).

Definition withApiErrorCounts (f : gmap string Z -> gmap string Z)
    (m : Manager) : Manager :=
  mkManager (agents m) (nextPostTimes m) (processedTweetIds m)
    (f (apiErrorCounts m)) (apiCooldowns m) (lastMentionId m)
    (agentUsername m) (trace m).

Definition withApiCooldowns (f : gmap string Z -> gmap string Z)
    (m : Manager) : Manager :=
  mkManager (agents m) (nextPostTimes m) (processedTweetIds m)
    (apiErrorCounts m) (f (apiCooldowns m)) (lastMentionId m)
    (agentUsername m) (trace m).

Definition withLastMentionId (f : gmap string string -> gmap string string)
    (m : Manager) : Manager :=
  mkManager (agents m) (nextPostTimes m) (processedTweetIds m)
    (apiErrorCounts m) (apiCooldowns m) (f (lastMentionId m))
    (agentUsername m) (trace m).

Definition withAgentUsername (f : gmap string string -> gmap string string)
    (m : Manager) : Manager :=
  mkManager (agents m) (nextPostTimes m) (processedTweetIds m)
    (apiErrorCounts m) (apiCooldowns m) (lastMentionId m)
    (f (agentUsername m)) (trace m).

Definition withTrace (f : list Observed -> list Observed)
    (m : Manager) : Manager :=
  mkManager (agents m) (nextPostTimes m) (processedTweetIds m)
    (apiErrorCounts m) (apiCooldowns m) (lastMentionId m)
    (agentUsername m) (f (trace m)).

(** *** Computations of the manager

    A method is a function of the world and the manager that returns
    or throws, and leaves a manager. *)
Inductive Outcome (A : Type) :=
| Returned (a : A)
| Thrown (e : JsError).
Arguments Returned {A} a.
Arguments Thrown {A} e.

Definition M (A : Type) : Type := World -> Manager -> Outcome A * Manager.

Definition ret {A} (a : A) : M A := fun _ m => (Returned a, m).

Definition throw {A} (e : JsError) : M A := fun _ m => (Thrown e, m).

Definition bind {A B} (c : M A) (k : A -> M B) : M B :=
  fun w m =>
    match c w m with
    | (Returned a, m') => k a w m'
    | (Thrown e, m') => (Thrown e, m')
    end.

(** [try { c } catch (error) { handler(error) }] *)
Definition tryCatch {A} (c : M A) (handler : JsError -> M A) : M A :=
  fun w m =>
    match c w m with
    | (Returned a, m') => (Returned a, m')
    | (Thrown e, m') => handler e w m'
    end.

Definition getManager : M Manager := fun _ m => (Returned m, m).

Definition modify (f : Manager -> Manager) : M unit :=
  fun _ m => (Returned tt, f m).

(** A call of a collaborator that may throw. *)
Definition extern {A} (c : Call)
    (answer : World -> list Observed -> Result A) : M A :=
  fun w m =>
    let m' := withTrace (fun t => t ++ [mkObserved c (processedTweetIds m)]) m in
    match answer w (trace m) with
    | Ok a => (Returned a, m')
    | Err e => (Thrown e, m')
    end.

(** A call of the clock or of [Math.random]. *)
Definition ask {A} (c : Call) (answer : World -> list Observed -> A) : M A :=
  extern c (fun w t => Ok (answer w t)).

Declare Scope manager_scope.
Delimit Scope manager_scope with manager.
Notation "'let!' x ':=' c 'in' k" := (bind c (fun x => k))
  (at level 10, x name, c at level 200, k at level 200) : manager_scope.
Notation "'do!' c 'in' k" := (bind c (fun _ => k))
  (at level 10, c at level 200, k at level 200) : manager_scope.
Local Open Scope manager_scope.

(** A promise that is not awaited: what it does before its first
    suspension happens, its result or rejection is not seen. *)
Definition detached {A} (c : M A) : M unit :=
  tryCatch (do! c in ret tt) (fun _ => ret tt).

(** *** Methods *)

Definition getAgent (agentId : string) : M Agent :=
  let! m := getManager in
  match agents m !! agentId with
  | Some agent => ret agent
  | None => throw (mkJsError None [] ("Agent not found: " ++ agentId))
  end.

(** [behaviorRandomizer.getNextPostInterval(agent)] with its draws
    taken from the world, in the order of the source. *)
Definition drawNextPostInterval (agent : Agent) : M Z :=
  let! r1 := ask CMathRandom mathRandom in
  let! currentHour := ask CGetHours getHours in
  let! r2 := ask CMathRandom mathRandom in
  let! r3 := ask CMathRandom mathRandom in
  let! r4 := (if Qlt_le_dec (5 # 10) r3 then ask CMathRandom mathRandom
         else ret 0%Q) in
  ret (BehaviorRandomizer.getNextPostInterval agent currentHour r1 r2 r3 r4).

Definition scheduleNextPost (agentId : string) : M unit :=
  let! agent := getAgent agentId in
  let! nextPostInterval := drawNextPostInterval agent in
  let! now := ask CDateNow dateNow in
  modify (withNextPostTimes (insert agentId (now + nextPostInterval))).

Definition setLastPostTime (now : Z) (agent : Agent) : Agent :=
  mkAgent (agent_id agent) (agent_name agent) (customSystemPrompt agent)
    (rotatingSystemPrompts agent) (behavior agent) (Some now).

(** The condition of the early return of [createAgentPost]. *)
Definition tooSoon (agent : Agent) (now : Z) (options : PostOptions) : bool :=
  match lastPostTime agent with
  | Some last =>
      negb (last =? 0) &&
      (if Qlt_le_dec (inject_Z (now - last))
            (minHoursBetweenPosts (postFrequency (behavior agent))
             * 60 * 60 * 1000)%Q
       then true else false) &&
      negb (ignoreTimeConstraint options)
  | None => false
  end.

(** [options.task === 'reply' && options.replyTo] *)
Definition replyTarget (options : PostOptions) : option Tweet :=
  match task options with
  | Some TaskReply => replyTo options
  | _ => None
  end.

(** [createAgentPost].  [getLLMProviderForAgent] falls back on the
    default provider, which the constructor always sets, so the test
    of the provider never throws.  A post is generated and published
    whatever [options.quoteTweet] is: the method does not read it. *)
Definition createAgentPost (agentId : string) (options : PostOptions)
    : M (option Reaction) :=
  tryCatch
    (let! agent := getAgent agentId in
     let! now := ask CDateNow dateNow in
     if tooSoon agent now options then ret None
     else
       let! generated :=
         match replyTarget options with
         | Some target =>
             let! generated :=
               extern
                 (CGenerateContent agentId target
                    (avoidContextQuestions options))
                 (fun w t =>
                    generateContent w t agent target
                      (avoidContextQuestions options)) in
             ret (stripMentions false generated)
         | None =>
             if String.eqb agentId "coby-agent"
             then extern (CGenerateTweet agentId (customSystemPrompt agent))
                    (fun w t => generateTweet w t agent
                                  (customSystemPrompt agent))
             else extern (CGenerateTweet agentId None)
                    (fun w t => generateTweet w t agent None)
         end in
       let postContent :=
         if String.eqb agentId "coby-agent" then toLowerCase generated
         else generated in
       let! tweetId :=
         tryCatch
           (let replyToTweetId :=
              match replyTarget options with
              | Some target => truthy (Some (tweet_id target))
              | None => None
              end in
            let! posted :=
              extern (CPostTweet agentId postContent replyToTweetId)
                (fun w t => postTweet w t agentId postContent replyToTweetId) in
            ret (Some posted))
           (fun _ => ret None) in
       do! modify (withAgents (insert agentId (setLastPostTime now agent))) in
       do! ask (CAddTweetToAgentMemory agentId postContent tweetId
              (match task options with Some TaskReply => true | _ => false end))
           (fun _ _ => tt) in
       do! scheduleNextPost agentId in
       ret (Some (Posted postContent agentId tweetId)))
    (fun error => throw error).

(** [tweet.createdAt.getTime()]; a missing date is a [TypeError]. *)
Definition getTime (createdAt : option Z) : M Z :=
  match createdAt with
  | Some t => ret t
  | None =>
      throw (mkJsError None []
               "Cannot read properties of undefined (reading 'getTime')")
  end.

(** [fetchConversationThread], by the number [maxDepth - depth] of
    levels it may still descend.  The array is only pushed to after
    everything that can throw in the [try] block has been evaluated,
    so the [catch] block finds it as it was on entry. *)
Fixpoint fetchThread (remaining : nat) (tweetId : string)
    (conversationHistory : list HistoryEntry) (agentId : string)
    : M (list HistoryEntry) :=
  match remaining with
  | O => ret conversationHistory
  | S remaining' =>
      tryCatch
        (let! tweet := extern (CGetTweet tweetId)
                    (fun w t => getTweet w t tweetId) in
         let! time := getTime (createdAt tweet) in
         let conversationHistory' :=
           conversationHistory ++
           [mkHistoryEntry
              (if String.eqb (authorId tweet) agentId then RoleAgent
               else RoleUser)
              (content tweet) time] in
         match truthy (replyToId tweet) with
         | Some parent =>
             fetchThread remaining' parent conversationHistory' agentId
         | None => ret conversationHistory'
         end)
        (fun _ => ret conversationHistory)
  end.

Definition fetchConversationThread (tweetId : string)
    (conversationHistory : list HistoryEntry) (agentId : string)
    (depth maxDepth : nat) : M (list HistoryEntry) :=
  fetchThread (maxDepth - depth) tweetId conversationHistory agentId.

(** The comparator of the sorts of a conversation history: by
    timestamp, 0 when one of the two timestamps is falsy.
    [historyBefore a b] holds when it is negative. *)
Definition historyBefore (a b : HistoryEntry) : bool :=
  negb (timestamp a =? 0) && negb (timestamp b =? 0) &&
  (timestamp a <? timestamp b).

(** [conversationHistory.sort(...)] is stable: an entry moves behind a
    later one only when the comparator puts the later one first, and
    entries it does not tell apart keep their order.  Insertion from
    the right computes that list when no timestamp is 0; with a
    timestamp of 0 the comparator is not an order and the language
    leaves the result of the sort to the implementation. *)
Fixpoint insertHistory (e : HistoryEntry) (l : list HistoryEntry)
    : list HistoryEntry :=
  match l with
  | [] => [e]
  | x :: l' =>
      if historyBefore x e then x :: insertHistory e l' else e :: x :: l'
  end.

Definition sortHistory (l : list HistoryEntry) : list HistoryEntry :=
  fold_right insertHistory [] l.

(** [updateAgentRelationship]: the constructor assigns
    [defaultLLMProvider] and [llmProviders] but no [llmProvider], so
    evaluating [this.llmProvider.generateRelationshipUpdate] throws;
    the [catch] block throws the error again. *)
Definition updateAgentRelationship (agentId targetAgentId : string)
    : M unit :=
  tryCatch
    (do! getAgent agentId in
     throw (mkJsError None []
              "Cannot read properties of undefined (reading 'generateRelationshipUpdate')"))
    (fun error => throw error).

Definition withContext (tweet : Tweet) (history : list HistoryEntry) : Tweet :=
  mkTweet (tweet_id tweet) (content tweet) (authorId tweet)
    (authorUsername tweet) (createdAt tweet) (replyToId tweet)
    (isDirectMention tweet) true (Some history).

Definition asDirectMention (tweet : Tweet) : Tweet :=
  mkTweet (tweet_id tweet) (content tweet) (authorId tweet)
    (authorUsername tweet) (createdAt tweet) (replyToId tweet)
    true (hasOriginalTweet tweet) (conversationHistory tweet).

(** [tweet.createdAt ? tweet.createdAt.getTime() : Date.now()] *)
Definition createdAtOrNow (tweet : Tweet) : M Z :=
  match createdAt tweet with
  | Some t => ret t
  | None => ask CDateNow dateNow
  end.

(** The self-mention test of [processAgentReaction]; [username] is the
    lower-cased name [v2.me()] gave, [None] when that call failed. *)
Definition isSelfMention (agentId : string) (username : option string)
    (tweet : Tweet) : bool :=
  String.eqb (authorId tweet) agentId ||
  match truthy username, truthy (authorUsername tweet) with
  | Some u, Some a => String.eqb (toLowerCase a) u
  | _, _ => false
  end.

Definition isMention (agent : Agent) (agentId : string) (tweet : Tweet)
    : bool :=
  isDirectMention tweet ||
  includes (toLowerCase (content tweet))
    ("@" ++ toLowerCase (agent_name agent)) ||
  includes (toLowerCase (content tweet)) ("@" ++ toLowerCase agentId) ||
  match truthy (replyToId tweet) with
  | Some parent => includes parent agentId
  | None => false
  end.

(** The test "is the user asking about context". *)
Definition asksAboutContext (tweet : Tweet) : bool :=
  let tweetContent := toLowerCase (content tweet) in
  includes tweetContent "what" &&
  (includes tweetContent "tweet" || includes tweetContent "context" ||
   includes tweetContent "talking about").

Definition replyOptions (tweet : Tweet) (avoid : bool) : PostOptions :=
  mkPostOptions (Some TaskReply) (Some tweet) None avoid true.

(** The options of a quote tweet:
    [{ task: 'quote_tweet', quoteTweet: tweet, ignoreTimeConstraint: true }] *)
Definition quoteOptions (tweet : Tweet) : PostOptions :=
  mkPostOptions (Some TaskQuoteTweet) None (Some tweet) false true.

(** [{ ignoreTimeConstraint: true }]: the options of a tweet of the
    agent's own that is not bound to the posting schedule. *)
Definition unscheduledOptions : PostOptions :=
  mkPostOptions None None None false true.

(** The branch of [processAgentReaction] for mentions and replies. *)
Definition mentionPath (agentId : string) (tweet : Tweet)
    : M (option Reaction) :=
  let! resolved :=
    match truthy (replyToId tweet) with
    | Some parent =>
        tryCatch
          (do! extern (CGetTweet parent) (fun w t => getTweet w t parent) in
           match conversationHistory tweet with
           | None =>
               let! fetched := fetchConversationThread parent [] agentId 0 5 in
               let! time := createdAtOrNow tweet in
               ret (true,
                    withContext tweet
                      (sortHistory fetched ++
                       [mkHistoryEntry RoleUser (content tweet) time]))
           | Some _ => ret (true, tweet)
           end)
          (fun _ => ret (false, tweet))
    | None => ret (false, tweet)
    end in
  let '(hasMeaningfulContext, tweet') := resolved in
  if negb hasMeaningfulContext && asksAboutContext tweet'
  then createAgentPost agentId (replyOptions tweet' true)
  else createAgentPost agentId (replyOptions tweet' false).

(** The context a reply of the reaction branch is given. *)
Definition ensureReplyContext (agentId : string) (tweet : Tweet) : M Tweet :=
  if negb (hasOriginalTweet tweet) && negb (String.eqb (tweet_id tweet) "")
  then
    tryCatch
      (let! time := createdAtOrNow tweet in
       let own := [mkHistoryEntry RoleUser (content tweet) time] in
       let! history :=
         match truthy (replyToId tweet) with
         | Some parent =>
             let! fetched := fetchConversationThread parent own agentId 0 5 in
             ret (sortHistory fetched)
         | None => ret own
         end in
       ret (withContext tweet history))
      (fun _ => ret tweet)
  else ret tweet.

(** The branch of [processAgentReaction] for every other tweet. *)
Definition reactionPath (agent : Agent) (agentId : string) (tweet : Tweet)
    : M (option Reaction) :=
  let! suggested := extern (CGenerateReaction agentId tweet)
                 (fun w t => generateReaction w t agent tweet) in
  let patterns := interactionPatterns (behavior agent) in
  let! action :=
    match suggested with
    | ActQuote =>
        let! r := ask CMathRandom mathRandom in
        if Qlt_le_dec (quoteTweetProbability patterns * (5 # 10)) r
        then ret ActIgnore else ret ActQuote
    | other => ret other
    end in
  match action with
  | ActReply =>
      let! r := ask CMathRandom mathRandom in
      if Qlt_le_dec (replyProbability patterns) r
      then ret None
      else
        let! tweet' := ensureReplyContext agentId tweet in
        createAgentPost agentId (replyOptions tweet' false)
  | ActQuote =>
      createAgentPost agentId (quoteOptions tweet)
  | ActLike =>
      let! r := ask CMathRandom mathRandom in
      if Qlt_le_dec (likeProbability patterns) r
      then ret None
      else
        do! extern (CLikeTweet agentId (tweet_id tweet))
              (fun w t => likeTweet w t agentId (tweet_id tweet)) in
        do! detached (updateAgentRelationship agentId (authorId tweet)) in
        ret (Some (Liked (tweet_id tweet)))
  | ActIgnore | ActOther => ret None
  end.

(** [processAgentReaction]: the agent is looked up, its screen name
    asked for, then come the self-mention test, the duplicate test with
    the insertion into [processedTweetIds], and one of the two
    branches. *)
Definition processAgentReaction (agentId : string) (tweet : Tweet)
    : M (option Reaction) :=
  tryCatch
    (let! agent := getAgent agentId in
     let! username :=
       tryCatch
         (let! u := extern (CMe agentId) (fun w t => me w t agentId) in
          ret (Some (toLowerCase u)))
         (fun _ => ret None) in
     if isSelfMention agentId username tweet then ret None
     else
       let! m := getManager in
       if existsb (String.eqb (tweet_id tweet)) (processedTweetIds m)
       then ret None
       else
         do! modify (withProcessedTweetIds
                       (fun ids => ids ++ [tweet_id tweet])) in
         if isMention agent agentId tweet then mentionPath agentId tweet
         else reactionPath agent agentId tweet)
    (fun error => throw error).

(** *** API error back-off and mention polling *)

(** [error.code === 429 ||
     (error.errors && error.errors.some(e => e.code === 88))] *)
Definition isRateLimit (error : JsError) : bool :=
  match err_code error with
  | Some c => c =? 429
  | None => false
  end || existsb (Z.eqb 88) (err_errors error).

(** The ladder of [_handleApiError], in minutes. *)
Definition backoffMinutes (errorCount : Z) : Z :=
  if errorCount >=? 5 then 60
  else if errorCount >=? 4 then 30
  else if errorCount >=? 3 then 15
  else if errorCount >=? 2 then 5
  else 1.

Definition _handleApiError (agentId : string) (error : JsError) : M unit :=
  let! m := getManager in
  let errorCount := default 0 (apiErrorCounts m !! agentId) + 1 in
  do! modify (withApiErrorCounts (insert agentId errorCount)) in
  let minutes := backoffMinutes errorCount in
  let minutes := if isRateLimit error then Z.max minutes 15 else minutes in
  let cooldownMs := minutes * 60 * 1000 in
  let! now := ask CDateNow dateNow in
  modify (withApiCooldowns (insert agentId (now + cooldownMs))).

(** [Set.prototype.add] *)
Definition setAdd (id : string) (ids : list string) : list string :=
  if existsb (String.eqb id) ids then ids else ids ++ [id].

Definition loadProcessedTweets : M unit :=
  tryCatch
    (let! stored := extern CLoadProcessedTweets loadProcessedTweetsFile in
     match stored with
     | Some processedTweets =>
         modify (withProcessedTweetIds
                   (fun ids => fold_left (fun acc id => setAdd id acc)
                                 processedTweets ids))
     | None => ret tt
     end)
    (fun _ => modify (withProcessedTweetIds (fun _ => []))).

(** [saveProcessedTweets]: the last 1000 identifiers are written; a
    failure of the write is caught inside. *)
Definition saveProcessedTweets : M unit :=
  let! m := getManager in
  let processedTweets := processedTweetIds m in
  let recentTweets :=
    skipn (length processedTweets - 1000) processedTweets in
  ask (CSaveProcessedTweets recentTweets) (fun _ _ => tt).

(** [_startPollingMentionsForAgent], up to the [setInterval]. *)
Definition _startPollingMentionsForAgent (agentId : string) : M unit :=
  do! loadProcessedTweets in
  do! modify (withLastMentionId (delete agentId)) in
  do! modify (withAgentUsername (delete agentId)) in
  let! m := getManager in
  match apiErrorCounts m !! agentId with
  | Some n => if n =? 0 then modify (withApiErrorCounts (insert agentId 0))
              else ret tt
  | None => modify (withApiErrorCounts (insert agentId 0))
  end.

(** [this.apiCooldowns[agentId] && now < this.apiCooldowns[agentId]] *)
Definition inCooldown (m : Manager) (agentId : string) (now : Z) : bool :=
  match apiCooldowns m !! agentId with
  | Some cooldownEnd => negb (cooldownEnd =? 0) && (now <? cooldownEnd)
  | None => false
  end.

(** The filter the polling callback applies to the mentions. *)
Definition keepMention (m : Manager) (agentId : string) (mention : Tweet)
    : bool :=
  let selfMention :=
    match truthy (authorUsername mention),
          truthy (agentUsername m !! agentId) with
    | Some a, Some u => String.eqb (toLowerCase a) u
    | _, _ => false
    end in
  negb selfMention &&
  negb (existsb (String.eqb (tweet_id mention)) (processedTweetIds m)).

(** The body of the loop over the filtered mentions. *)
Definition handleMention (agentId : string) (mention : Tweet) : M unit :=
  let mention := asDirectMention mention in
  let! mention' :=
    match truthy (replyToId mention) with
    | Some parent =>
        tryCatch
          (do! extern (CGetTweet parent) (fun w t => getTweet w t parent) in
           let! fetched := fetchConversationThread parent [] agentId 0 5 in
           let! time := getTime (createdAt mention) in
           ret (withContext mention
                  (sortHistory fetched ++
                   [mkHistoryEntry RoleUser (content mention) time])))
          (fun _ => ret mention)
    | None => ret mention
    end in
  do! processAgentReaction agentId mention' in
  ret tt.

Fixpoint forEach {A} (l : list A) (body : A -> M unit) : M unit :=
  match l with
  | [] => ret tt
  | x :: l' => do! body x in forEach l' body
  end.

(** The polling callback from its call of [getAgentMentions] on. *)
Definition pollMentions (agentId : string) : M unit :=
  let! m := getManager in
  let! mentions :=
    extern (CGetAgentMentions agentId (lastMentionId m !! agentId))
      (fun w t => getAgentMentions w t agentId (lastMentionId m !! agentId)) in
  do! modify (withApiErrorCounts (insert agentId 0)) in
  match mentions with
  | [] => ret tt
  | newest :: _ =>
      do! modify (withLastMentionId (insert agentId (tweet_id newest))) in
      let! m := getManager in
      let filteredMentions := List.filter (keepMention m agentId) mentions in
      do! forEach filteredMentions (handleMention agentId) in
      saveProcessedTweets
  end.

(** The [try] block of the polling callback. *)
Definition pollBody (agentId : string) : M unit :=
  let! now := ask CDateNow dateNow in
  let! m := getManager in
  if inCooldown m agentId now then ret tt
  else
    let! haveUsername :=
      match truthy (agentUsername m !! agentId) with
      | Some _ => ret true
      | None =>
          tryCatch
            (let! u := extern (CMe agentId) (fun w t => me w t agentId) in
             do! modify (withAgentUsername (insert agentId (toLowerCase u))) in
             ret true)
            (fun error => do! _handleApiError agentId error in ret false)
      end in
    if negb haveUsername then ret tt else pollMentions agentId.

(** The callback [_startPollingMentionsForAgent] hands to
    [setInterval]: one polling tick. *)
Definition pollTick (agentId : string) : M unit :=
  tryCatch (pollBody agentId) (fun error => _handleApiError agentId error).

(** *** Observations *)

(** A call that is a reaction to a tweet: a post, a like. *)
Definition isReactionCall (c : Call) : bool :=
  match c with
  | CPostTweet _ _ _ | CLikeTweet _ _ => true
  | _ => false
  end.

(** A call of the Twitter API. *)
Definition isApiCall (c : Call) : bool :=
  match c with
  | CMe _ | CGetTweet _ | CGetAgentMentions _ _ | CPostTweet _ _ _
  | CLikeTweet _ _ => true
  | _ => false
  end.

(** What a computation observes: the calls it adds to the trace. *)
Definition callsOf {A} (c : M A) (w : World) (m : Manager) : list Observed :=
  skipn (length (trace m)) (trace (snd (c w m))).

Definition reactionsOf {A} (c : M A) (w : World) (m : Manager)
    : list Observed :=
  List.filter (fun o => isReactionCall (call o)) (callsOf c w m).

(** The manager after the call of [v2.me()] by [processAgentReaction]. *)
Definition afterMe (agentId : string) (m : Manager) : Manager :=
  withTrace
    (fun t => t ++ [mkObserved (CMe agentId) (processedTweetIds m)]) m.

(** *** Vocabulary of the properties *)

(** The name the self-mention test of [processAgentReaction] works
    with when it starts from manager [m]. *)
Definition usernameSeen (w : World) (m : Manager) (agentId : string)
    : option string :=
  match me w (trace m) agentId with
  | Ok u => Some (toLowerCase u)
  | Err _ => None
  end.

(** The de-duplication store and the back-off and polling state are
    the same in [m'] as in [m]. *)
Definition sameBookkeeping (m m' : Manager) : Prop :=
  processedTweetIds m' = processedTweetIds m /\
  apiErrorCounts m' = apiErrorCounts m /\
  apiCooldowns m' = apiCooldowns m /\
  lastMentionId m' = lastMentionId m /\
  agentUsername m' = agentUsername m.

(** A computation that only adds calls to the trace, at most [n] of
    them reactions, and leaves the bookkeeping alone. *)
Definition tame {A} (n : nat) (c : M A) : Prop :=
  forall w m, exists new,
    trace (snd (c w m)) = trace m ++ new /\
    sameBookkeeping m (snd (c w m)) /\
    Forall (fun o => processedThen o = processedTweetIds m) new /\
    (length (List.filter (fun o => isReactionCall (call o)) new) <= n)%nat.

(** The bound the draw of a suggested quote is compared with. *)
Definition quoteThreshold (agent : Agent) : Q :=
  (quoteTweetProbability (interactionPatterns (behavior agent)) * (5 # 10))%Q.

(** The manager when [generateReaction] is called for a tweet that has
    passed the self-mention and duplicate tests, when [Math.random] is
    called for a suggested quote, and after that draw. *)
Definition atReaction (agentId : string) (tweet : Tweet) (m : Manager)
    : Manager :=
  withProcessedTweetIds (fun ids => ids ++ [tweet_id tweet])
    (afterMe agentId m).

Definition atQuoteDraw (agentId : string) (tweet : Tweet) (m : Manager)
    : Manager :=
  withTrace
    (fun t => t ++ [mkObserved (CGenerateReaction agentId tweet)
                      (processedTweetIds (atReaction agentId tweet m))])
    (atReaction agentId tweet m).

Definition afterQuoteDraw (agentId : string) (tweet : Tweet) (m : Manager)
    : Manager :=
  withTrace
    (fun t => t ++ [mkObserved CMathRandom
                      (processedTweetIds (atReaction agentId tweet m))])
    (atQuoteDraw agentId tweet m).

(** A computation that leaves the error counters and the cooldowns as
    they are. *)
Definition keepsBackoff {A} (c : M A) : Prop :=
  forall w m,
    apiErrorCounts (snd (c w m)) = apiErrorCounts m /\
    apiCooldowns (snd (c w m)) = apiCooldowns m.

(** The manager [_handleApiError] leaves. *)
Definition afterApiError (agentId : string) (error : JsError) (now : Z)
    (m : Manager) : Manager :=
  let errorCount := default 0 (apiErrorCounts m !! agentId) + 1 in
  let minutes := backoffMinutes errorCount in
  let minutes := if isRateLimit error then Z.max minutes 15 else minutes in
  withApiCooldowns (insert agentId (now + minutes * 60 * 1000))
    (withTrace (fun t => t ++ [mkObserved CDateNow (processedTweetIds m)])
       (withApiErrorCounts (insert agentId errorCount) m)).

(** Deliveries of tweets to agents, one after the other; a delivery
    that throws does not stop the following ones. *)
Definition deliverAll (deliveries : list (string * Tweet)) : M unit :=
  forEach deliveries
    (fun d => detached (processAgentReaction (fst d) (snd d))).

(** Consecutive API errors of an agent. *)
Definition feedErrors (agentId : string) (errors : list JsError) : M unit :=
  forEach errors (_handleApiError agentId).

(** The cooldown [_handleApiError] has just set, in milliseconds from
    the reading of the clock [now] it was computed from. *)
Definition cooldownDuration (m : Manager) (agentId : string) (now : Z)
    : option Z :=
  match apiCooldowns m !! agentId with
  | Some cooldownEnd => Some (cooldownEnd - now)
  | None => None
  end.

Definition minutes (n : Z) : Z := n * 60 * 1000.

End AgentManager.

(** ** Scenarios

  Concrete agents, tweets and worlds on which the properties are
  exercised. *)

Module Scenario.
Import Types AgentManager.
Local Open Scope Z_scope.

(** The agent [bot1], with the defaults of class [Agent]. *)
Definition bot1 : Agent :=
  mkAgent "bot1" "bot1" None [] defaultBehavior None.

Definition oneAgent : Manager :=
  withAgents (insert "bot1" bot1) newManager.

Definition networkError : JsError := mkJsError None [] "ECONNRESET".

Definition rateLimitError : JsError :=
  mkJsError (Some 429) [] "Too Many Requests".

(** A world in which every collaborator answers, with the answers
    [reaction] of [generateReaction] and [draw] of [Math.random];
    no tweet can be fetched. *)
Definition calmWorld (reaction : Action) (draw : Q) : World :=
  mkWorld
    (fun _ => "Bot1")
    (fun _ _ => None)
    (fun _ _ => Err (mkJsError (Some 404) [] "Not Found"))
    (fun _ _ _ => Ok [])
    (fun _ _ _ => Ok reaction)
    (fun _ _ _ _ => Ok "hello there")
    (fun _ _ _ => Ok "gm")
    (fun _ _ _ _ => Ok "p1")
    (fun _ _ _ => Ok tt)
    (fun _ => Ok None)
    (fun _ => 1000000)
    (fun _ => 12)
    (fun _ => draw).

(** The same world, but [v2.me()] fails. *)
Definition worldWithoutMe : World :=
  mkWorld
    (username (calmWorld ActIgnore 0))
    (fun _ _ => Some rateLimitError)
    (getTweet (calmWorld ActIgnore 0))
    (getAgentMentions (calmWorld ActIgnore 0))
    (generateReaction (calmWorld ActIgnore 0))
    (generateContent (calmWorld ActIgnore 0))
    (generateTweet (calmWorld ActIgnore 0))
    (postTweet (calmWorld ActIgnore 0))
    (likeTweet (calmWorld ActIgnore 0))
    (loadProcessedTweetsFile (calmWorld ActIgnore 0))
    (dateNow (calmWorld ActIgnore 0))
    (getHours (calmWorld ActIgnore 0))
    (mathRandom (calmWorld ActIgnore 0)).

(** [bot1] in a cooldown that ends at 2 000 000; the clock of
    [calmWorld] reads 1 000 000. *)
Definition coolingDown : Manager :=
  withApiCooldowns (insert "bot1" 2000000) oneAgent.

(** [bot1] after three consecutive errors, its cooldown over and its
    screen name known to the polling callback. *)
Definition afterThreeErrors : Manager :=
  withAgentUsername (insert "bot1" "bot1")
    (withApiErrorCounts (insert "bot1" 3) oneAgent).

(** A direct mention of [bot1] by another user. *)
Definition mentionOfBot1 : Tweet :=
  mkTweet "t1" "@bot1 hello" "user7" (Some "user7") (Some 900000) None
    true false None.

(** A tweet [bot1]'s own account wrote: the author identifier is the
    numeric one of the network, the screen name is the agent's. *)
Definition ownTweet : Tweet :=
  mkTweet "t2" "@bot1 as I was saying" "1234567890" (Some "Bot1")
    (Some 900000) None true false None.

(** A tweet whose [authorId] is the identifier of the agent. *)
Definition selfAuthoredTweet : Tweet :=
  mkTweet "t3" "gm" "bot1" None (Some 900000) None false false None.

(** A tweet of another agent that does not address [bot1]. *)
Definition passiveTweet : Tweet :=
  mkTweet "t4" "markets are wild today" "user9" (Some "user9")
    (Some 900000) None false false None.

(** A chain with a cycle: every tweet fetched is a reply to ["B"] when
    it was asked for as ["A"], and to ["A"] otherwise. *)
Definition cyclicWorld : World :=
  mkWorld
    (username (calmWorld ActIgnore 0))
    (meFails (calmWorld ActIgnore 0))
    (fun _ id =>
       Ok (mkTweet id "again" "user7" None (Some 5)
             (Some (if String.eqb id "A" then "B" else "A"))
             false false None))
    (getAgentMentions (calmWorld ActIgnore 0))
    (generateReaction (calmWorld ActIgnore 0))
    (generateContent (calmWorld ActIgnore 0))
    (generateTweet (calmWorld ActIgnore 0))
    (postTweet (calmWorld ActIgnore 0))
    (likeTweet (calmWorld ActIgnore 0))
    (loadProcessedTweetsFile (calmWorld ActIgnore 0))
    (dateNow (calmWorld ActIgnore 0))
    (getHours (calmWorld ActIgnore 0))
    (mathRandom (calmWorld ActIgnore 0)).

End Scenario.


(** ** The behavior randomizer: interaction patterns and content
    preferences *)

Module Randomization.
Local Open Scope Q_scope.




(** [agent.behavior.contentPreferences]; a missing field is [None]. *)
Record ContentPreferences := mkContentPreferences {
  maxThreadLength : option Q;
  typicalPostLength : option Q;
  linkSharingFrequency : option Q
}.

(** A number as a condition: missing and 0 are falsy. *)
Definition truthyNumber (o : option Q) : option Q :=
  match o with
  | Some v => if Qeq_bool v 0 then None else Some v
  | None => None
  end.

(** [randomizeContentPreferences(contentPreferences)].  [r1] is drawn
    when [maxThreadLength] is truthy, [r2] when moreover [r1 > 0.6],
    [r3] when [typicalPostLength] is truthy. *)
Definition randomizeContentPreferences (prefs : ContentPreferences)
    (r1 r2 r3 : Q) : ContentPreferences :=
  let newMaxThreadLength :=
    match truthyNumber (maxThreadLength prefs) with
    | Some len =>
        if Qlt_le_dec (6 # 10) r1
        then
          let variation := if Qlt_le_dec (5 # 10) r2 then 1 else -1 in
          Some (Qmax 1 (len + variation))
        else maxThreadLength prefs
    | None => maxThreadLength prefs
    end in
  let newTypicalPostLength :=
    match truthyNumber (typicalPostLength prefs) with
    | Some len =>
        let variationPercent := r3 * (4 # 10) - (2 # 10) in
        Some (Qmax 20
                (Qmin 280 (inject_Z (Qfloor (len * (1 + variationPercent))))))
    | None => typicalPostLength prefs
    end in
  mkContentPreferences newMaxThreadLength newTypicalPostLength
    (linkSharingFrequency prefs).

End Randomization.

(** ** types.js: the mood of an agent *)

Module AgentMood.
Local Open Scope Q_scope.




End AgentMood.

(** ** The event engine: listeners *)

Module EventListeners.
Import Types.
Local Open Scope string_scope.
Local Open Scope list_scope.

(** [this.eventListeners = {}]: the own properties of the object; for
    an event type, the callbacks registered for it, oldest first.  A
    callback is a function object, compared by identity: here a
    number. *)
Definition Registry : Type := gmap string (list nat).

(** The object literal inherits from [Object.prototype]: under these
    keys a property read finds a function of the prototype, or for
    [__proto__] the prototype itself, when the object has no property
    of its own. *)
Definition objectPrototypeKeys : list string :=
  ["constructor"; "__defineGetter__"; "__defineSetter__"; "hasOwnProperty";
   "__lookupGetter__"; "__lookupSetter__"; "isPrototypeOf";
   "propertyIsEnumerable"; "toString"; "valueOf"; "__proto__";
   "toLocaleString"].

Definition inherited (key : string) : bool :=
  existsb (String.eqb key) objectPrototypeKeys.

(** What [this.eventListeners[key]] evaluates to. *)
Inductive Slot :=
| Own (callbacks : list nat)
| Inherited
| Missing.

Definition slot (listeners : Registry) (key : string) : Slot :=
  match listeners !! key with
  | Some callbacks => Own callbacks
  | None => if inherited key then Inherited else Missing
  end.

(** [addEventListener(eventType, callback)].  An inherited value is
    truthy and has no [push]: the call throws a [TypeError], here
    [None]. *)
Definition addEventListener (eventType : string) (callback : nat)
    (listeners : Registry) : option Registry :=
  match slot listeners eventType with
  | Own callbacks => Some (<[eventType := callbacks ++ [callback]]> listeners)
  | Missing => Some (<[eventType := [callback]]> listeners)
  | Inherited => None
  end.

(** [removeEventListener(eventType, callback)].  An inherited value
    has no [filter]: the call throws. *)
Definition removeEventListener (eventType : string) (callback : nat)
    (listeners : Registry) : option Registry :=
  match slot listeners eventType with
  | Own callbacks =>
      Some (<[eventType :=
                List.filter (fun l => negb (Nat.eqb l callback)) callbacks]>
              listeners)
  | Missing => Some listeners
  | Inherited => None
  end.

(** [x || []] followed by the spread [...x]: an inherited value is not
    iterable. *)
Definition spread (s : Slot) : option (list nat) :=
  match s with
  | Own callbacks => Some callbacks
  | Missing => Some []
  | Inherited => None
  end.

(** [combinedListeners] of [dispatchEvent]: the callbacks an event is
    handed to, in the order in which they are called; [None] when the
    array literal throws, which rejects the promise [dispatchEvent]
    returns. *)
Definition combinedListeners (listeners : Registry) (event : Event)
    : option (list nat) :=
  match spread (slot listeners (event_type event)),
        spread (slot listeners "all") with
  | Some typed, Some wildcard => Some (typed ++ wildcard)
  | _, _ => None
  end.

(** The registry after a sequence of registrations, as long as none
    throws. *)
Fixpoint register (registrations : list (string * nat))
    (listeners : Registry) : option Registry :=
  match registrations with
  | [] => Some listeners
  | (eventType, callback) :: rest =>
      match addEventListener eventType callback listeners with
      | Some listeners' => register rest listeners'
      | None => None
      end
  end.

(** The callbacks registered for a type, in the order of the
    registrations. *)
Definition registeredFor (eventType : string)
    (registrations : list (string * nat)) : list nat :=
  map snd (List.filter (fun r => String.eqb (fst r) eventType) registrations).

End EventListeners.


(** ** The event engine: accounting of events *)

Module EventAccounting.
Import Types EventEngine.
Local Open Scope Z_scope.

(** The events the operations hand to the engine, in their order. *)
Definition eventsOf (ops : list Op) : list Event :=
  flat_map (fun op =>
              match op with
              | OpQueue _ e => [e]
              | OpSchedule _ e _ => [e]
              | OpResume => []
              end) ops.

(** Where an event handed to the engine can be: dispatched, waiting in
    the queue, or scheduled for later. *)
Definition contents (eng : Engine) : list Event :=
  dispatched eng ++ eventQueue eng ++ map sched_event (scheduledEvents eng).

(** An operation that is no [queueEvent]. *)
Definition notQueue (op : Op) : Prop :=
  match op with
  | OpQueue _ _ => False
  | _ => True
  end.

(** The scheduled events are in the order of their times. *)
Definition byTime (a b : ScheduledEvent) : Prop :=
  scheduledTime a <= scheduledTime b.

(** The scheduled events that are due at [now], and the others. *)
Definition dueAt (now : Z) (l : list ScheduledEvent) : list ScheduledEvent :=
  List.filter (fun s => scheduledTime s <=? now) l.

Definition notDueAt (now : Z) (l : list ScheduledEvent) : list ScheduledEvent :=
  List.filter (fun s => negb (scheduledTime s <=? now)) l.

End EventAccounting.

(** ** The event engine: a dispatch that fails *)

Module DispatchFailure.
Import Types EventEngine.

(** The [catch] and [finally] of [processEvents], run when the awaited
    dispatch is rejected: the error is logged, the loop is left and
    the flag is cleared.  The event is not entered in the history and
    the queue is left as it is. *)
Definition fail (eng : Engine) : Engine :=
  match awaiting eng with
  | None => eng
  | Some _ =>
      mkEngine (eventQueue eng) (scheduledEvents eng) false
        (eventHistory eng) None (dispatched eng)
  end.

(** What can happen to an engine, the rejection of the awaited
    dispatch included. *)
Inductive Act :=
| Do (op : Op)
| Reject.

Definition act (eng : Engine) (a : Act) : Engine :=
  match a with
  | Do op => step eng op
  | Reject => fail eng
  end.

Definition runActs (acts : list Act) (eng : Engine) : Engine :=
  fold_left act acts eng.

(** The operations among the acts. *)
Definition opsOf (acts : list Act) : list Op :=
  flat_map (fun a => match a with Do op => [op] | Reject => [] end) acts.

(** An act that enqueues no event. *)
Definition quiet (a : Act) : Prop :=
  match a with
  | Do (OpQueue _ _) => False
  | _ => True
  end.

End DispatchFailure.


(** ** The memory manager: memory items and the tweet history *)

Module MemoryItems.
Local Open Scope Z_scope.

(** class [MemoryItem] of types.js; [importance] is 0.5 unless it is
    set. *)
Record MemoryItem := mkMemoryItem {
  item_id : string;
  content : string;
  item_type : string;
  importance : Q
}.

(** An entry of [tweetHistory]: the memory item [recordPost] makes, or
    the tweet object handed to [addTweetToAgentMemory]. *)
Inductive HistoryItem :=
| PostMemory (post : MemoryItem)
| PlainTweet (tweetContent : string).

(** class [AgentMemory], without the relationships.  The class
    declares no [tweetHistory]: the property is missing until it is
    assigned. *)
Record Memories := mkMemories {
  coreMemories : list MemoryItem;
  recentEvents : list MemoryItem;
  recentPosts : list MemoryItem;
  longTermMemories : list MemoryItem;
  tweetHistory : option (list HistoryItem)
}.

(** [new AgentMemory()] *)
Definition newMemories : Memories := mkMemories [] [] [] [] None.

(** [array.slice(0, stop)], for the integer [stop] that [slice] makes
    of its argument: a negative one counts from the end. *)
Definition slice0 {A} (stop : Z) (l : list A) : list A :=
  if 0 <=? stop then firstn (Z.to_nat stop) l
  else firstn (length l - Z.to_nat (- stop)) l.

(** [items.sort((a, b) => b.importance - a.importance)]: the sort is
    stable, items of higher importance come first, items of equal
    importance keep their order. *)
Fixpoint insertByImportance (x : MemoryItem) (l : list MemoryItem)
    : list MemoryItem :=
  match l with
  | [] => [x]
  | y :: l' =>
      if Qle_bool (importance y) (importance x)
      then x :: y :: l'
      else y :: insertByImportance x l'
  end.

Definition sortByImportance (l : list MemoryItem) : list MemoryItem :=
  fold_right insertByImportance [] l.

(** The order of the sorted items. *)
Definition moreImportant (a b : MemoryItem) : Prop :=
  (importance b <= importance a)%Q.

(** [addMemory(agentId, content, type, options)] on the memory of the
    agent.  [memoryLimit] is an integer; the events are compared with
    [memoryLimit / 2] and cut at the integer part of it.  [id] is the
    identifier [uuidv4()] returns, [importanceOption] is
    [options.importance]. *)
Definition addMemory (memoryLimit : Z) (id content type : string)
    (importanceOption : option Q) (memory : Memories)
    : Memories * MemoryItem :=
  let memoryItem :=
    mkMemoryItem id content type (default (1 # 2)%Q importanceOption) in
  if String.eqb type "core" then
    (mkMemories (coreMemories memory ++ [memoryItem]) (recentEvents memory)
       (recentPosts memory) (longTermMemories memory) (tweetHistory memory),
     memoryItem)
  else if String.eqb type "event" then
    let events := recentEvents memory ++ [memoryItem] in
    let events :=
      if memoryLimit <? 2 * Z.of_nat (length events)
      then slice0 (Z.quot memoryLimit 2) (sortByImportance events)
      else events in
    (mkMemories (coreMemories memory) events (recentPosts memory)
       (longTermMemories memory) (tweetHistory memory),
     memoryItem)
  else
    let memories := longTermMemories memory ++ [memoryItem] in
    let memories :=
      if memoryLimit <? Z.of_nat (length memories)
      then slice0 memoryLimit (sortByImportance memories)
      else memories in
    (mkMemories (coreMemories memory) (recentEvents memory)
       (recentPosts memory) memories (tweetHistory memory),
     memoryItem).

(** The collection [addMemory] stores an item of a type in. *)
Definition collection (type : string) (memory : Memories) : list MemoryItem :=
  if String.eqb type "core" then coreMemories memory
  else if String.eqb type "event" then recentEvents memory
  else longTermMemories memory.

(** [history.unshift(entry)] and the cut of [tweetHistory] to
    [maxTweetHistory] entries, as [recordPost] and
    [addTweetToAgentMemory] do it. *)
Definition unshiftCapped (maxTweetHistory : Z) (entry : HistoryItem)
    (history : option (list HistoryItem)) : list HistoryItem :=
  let history := entry :: default [] history in
  if maxTweetHistory <? Z.of_nat (length history)
  then slice0 maxTweetHistory history
  else history.

(** The text of the memory of a post: the tweet between quotation
    marks. *)
Definition postContent (tweetContent : string) : string :=
  ("I posted: " ++
   String "034"%char (tweetContent ++ String "034"%char EmptyString))%string.

(** [recordPost(agentId, tweetContent, tweetId, metadata)] on the
    memory of the agent, as far as the memory goes. *)
Definition recordPost (maxTweetHistory : Z) (id tweetContent : string)
    (memory : Memories) : Memories * MemoryItem :=
  let postMemory := mkMemoryItem id (postContent tweetContent) "post" (1 # 2)%Q in
  let posts := recentPosts memory ++ [postMemory] in
  let posts := if (20 <? Z.of_nat (length posts)) then tl posts else posts in
  (mkMemories (coreMemories memory) (recentEvents memory) posts
     (longTermMemories memory)
     (Some (unshiftCapped maxTweetHistory (PostMemory postMemory)
              (tweetHistory memory))),
   postMemory).

(** [addTweetToAgentMemory(agentId, tweet)] on the memory of the
    agent. *)
Definition addTweetToAgentMemory (maxTweetHistory : Z) (tweetContent : string)
    (memory : Memories) : Memories :=
  mkMemories (coreMemories memory) (recentEvents memory) (recentPosts memory)
    (longTermMemories memory)
    (Some (unshiftCapped maxTweetHistory (PlainTweet tweetContent)
             (tweetHistory memory))).

(** [getRecentTweets(agentId, limit)] when the database has no tweets
    of the agent: the answer comes from the memory. *)
Definition getRecentTweets (limit : Z) (memory : Memories)
    : list HistoryItem :=
  match tweetHistory memory with
  | None => []
  | Some history => slice0 limit history
  end.

(** What is written to the tweet history of an agent. *)
Inductive HistoryWrite :=
| Post (id tweetContent : string)
| Tweeted (tweetContent : string).

Definition write (maxTweetHistory : Z) (memory : Memories) (w : HistoryWrite)
    : Memories :=
  match w with
  | Post id tweetContent => fst (recordPost maxTweetHistory id tweetContent memory)
  | Tweeted tweetContent => addTweetToAgentMemory maxTweetHistory tweetContent memory
  end.

Definition entryOf (w : HistoryWrite) : HistoryItem :=
  match w with
  | Post id tweetContent =>
      PostMemory (mkMemoryItem id (postContent tweetContent) "post" (1 # 2)%Q)
  | Tweeted tweetContent => PlainTweet tweetContent
  end.

(** An entry of [initialMemory.recentEvents]: [event.content || event]
    and [event.importance]. *)
Record InitialEvent := mkInitialEvent {
  initialContent : string;
  initialImportance : option Q
}.

(** The argument [initialMemory] of [initializeAgentMemory], without
    the relationships; a field is [None] when it is missing or no
    array. *)
Record InitialMemory := mkInitialMemory {
  initialCoreMemories : option (list string);
  initialRecentEvents : option (list InitialEvent);
  initialTweetHistory : option (list string)
}.

(** [x || 0.7] on a number: zero is falsy. *)
Definition orDefault (fallback : Q) (x : option Q) : Q :=
  match x with
  | Some q => if Qeq_bool q 0 then fallback else q
  | None => fallback
  end.

(** [initializeAgentMemory(agentId, initialMemory)]: the memory it
    builds and stores, or [None] when it throws.  [uuid n] is the
    identifier the call of [uuidv4()] for the item number [n]
    returns.  The loop over [initialMemory.tweetHistory] pushes to
    [memory.tweetHistory], which a new [AgentMemory] does not have: its
    first round throws a [TypeError]. *)
Definition initializeAgentMemory (uuid : nat -> string)
    (initialMemory : InitialMemory) : option Memories :=
  let core := default [] (initialCoreMemories initialMemory) in
  let events := default [] (initialRecentEvents initialMemory) in
  let coreItems :=
    imap (fun i c => mkMemoryItem (uuid i) c "core" 1%Q) core in
  let eventItems :=
    imap (fun i e =>
            mkMemoryItem (uuid (length core + i)%nat) (initialContent e)
              "event" (orDefault (7 # 10)%Q (initialImportance e)))
      events in
  match initialTweetHistory initialMemory with
  | Some (_ :: _) => None
  | _ => Some (mkMemories coreItems eventItems [] [] None)
  end.

End MemoryItems.


(** ** Further scenarios *)

Module Situations.
Import Types JsString AgentManager Scenario.
Local Open Scope Z_scope.

(** The world of [calmWorld] with the network down for posting: every
    [postTweet] fails. *)
Definition offlineWorld : World :=
  mkWorld
    (username (calmWorld ActIgnore 0))
    (meFails (calmWorld ActIgnore 0))
    (getTweet (calmWorld ActIgnore 0))
    (getAgentMentions (calmWorld ActIgnore 0))
    (generateReaction (calmWorld ActIgnore 0))
    (generateContent (calmWorld ActIgnore 0))
    (generateTweet (calmWorld ActIgnore 0))
    (fun _ _ _ _ => Err networkError)
    (likeTweet (calmWorld ActIgnore 0))
    (loadProcessedTweetsFile (calmWorld ActIgnore 0))
    (dateNow (calmWorld ActIgnore 0))
    (getHours (calmWorld ActIgnore 0))
    (mathRandom (calmWorld ActIgnore 0)).

(** The world of [calmWorld] with a language model that fails. *)
Definition muteWorld : World :=
  mkWorld
    (username (calmWorld ActIgnore 0))
    (meFails (calmWorld ActIgnore 0))
    (getTweet (calmWorld ActIgnore 0))
    (getAgentMentions (calmWorld ActIgnore 0))
    (generateReaction (calmWorld ActIgnore 0))
    (fun _ _ _ _ => Err networkError)
    (fun _ _ _ => Err networkError)
    (postTweet (calmWorld ActIgnore 0))
    (likeTweet (calmWorld ActIgnore 0))
    (loadProcessedTweetsFile (calmWorld ActIgnore 0))
    (dateNow (calmWorld ActIgnore 0))
    (getHours (calmWorld ActIgnore 0))
    (mathRandom (calmWorld ActIgnore 0)).

(** The world of [calmWorld] with the file of processed tweets
    holding [stored], or unreadable. *)
Definition worldWithFile (stored : Result (option (list string))) : World :=
  mkWorld
    (username (calmWorld ActIgnore 0))
    (meFails (calmWorld ActIgnore 0))
    (getTweet (calmWorld ActIgnore 0))
    (getAgentMentions (calmWorld ActIgnore 0))
    (generateReaction (calmWorld ActIgnore 0))
    (generateContent (calmWorld ActIgnore 0))
    (generateTweet (calmWorld ActIgnore 0))
    (postTweet (calmWorld ActIgnore 0))
    (likeTweet (calmWorld ActIgnore 0))
    (fun _ => stored)
    (dateNow (calmWorld ActIgnore 0))
    (getHours (calmWorld ActIgnore 0))
    (mathRandom (calmWorld ActIgnore 0)).

(** The world of [calmWorld] in which the mentions of every agent are
    [mentions]. *)
Definition worldWithMentions (mentions : list Tweet) : World :=
  mkWorld
    (username (calmWorld ActIgnore 0))
    (meFails (calmWorld ActIgnore 0))
    (getTweet (calmWorld ActIgnore 0))
    (fun _ _ _ => Ok mentions)
    (generateReaction (calmWorld ActIgnore 0))
    (generateContent (calmWorld ActIgnore 0))
    (generateTweet (calmWorld ActIgnore 0))
    (postTweet (calmWorld ActIgnore 0))
    (likeTweet (calmWorld ActIgnore 0))
    (loadProcessedTweetsFile (calmWorld ActIgnore 0))
    (dateNow (calmWorld ActIgnore 0))
    (getHours (calmWorld ActIgnore 0))
    (mathRandom (calmWorld ActIgnore 0)).

(** The clock reading of [createAgentPost] and the manager after it. *)
Definition atClock (m : Manager) : Manager :=
  withTrace (fun t => t ++ [mkObserved CDateNow (processedTweetIds m)]) m.

(** [options.task === 'reply'] *)
Definition isReply (options : PostOptions) : bool :=
  match task options with
  | Some TaskReply => true
  | _ => false
  end.

(** A computation that leaves the two variables the polling callback
    closes over as they are. *)
Definition keepsPollingState {A} (c : M A) : Prop :=
  forall w m,
    lastMentionId (snd (c w m)) = lastMentionId m /\
    agentUsername (snd (c w m)) = agentUsername m.

(** The identifiers [saveProcessedTweets] writes:
    [processedTweets.slice(-1000)]. *)
Definition lastThousand (ids : list string) : list string :=
  skipn (length ids - 1000) ids.

(** The [replyToTweetId] [createAgentPost] hands to [postTweet]. *)
Definition replyIdOf (options : PostOptions) : option string :=
  match replyTarget options with
  | Some target => truthy (Some (tweet_id target))
  | None => None
  end.


End Situations.


(** ** The agent manager: events *)

Module AgentEvents.
Import Types JsString AgentManager.
Local Open Scope Q_scope.

(** The fields of [event.data] that [processAgentEvent] reads. *)
Record EventData := mkEventData {
  description : string;
  valenceShift : Q;
  arousalShift : Q;
  dominanceShift : Q;
  initiatorId : string;
  targetId : string;
  topic : string
}.

(** What [processAgentEvent] does to the memory and the mood of an
    agent, and what it asks the network, before it returns. *)
Inductive Step :=
| AddMemory (agentId memoryContent type : string) (importance : Q)
| UpdateMood (agentId : string) (valence arousal dominance : Q)
| GetUserTimeline (agentId userId : string).

(** How [processAgentEvent] ends: it returns nothing, it throws, or it
    returns the promise of [createAgentPost] or of
    [processAgentReaction]. *)
Inductive Tail :=
| Returns
| Throws (message : string)
| CreatesPost (agentId : string)
| ReactsTo (agentId : string) (tweet : Tweet).

(** The post made up when the timeline gives nothing; [now] is
    [Date.now()], [created] the time of [new Date()]. *)
Definition fakePost (data : EventData) (now created : Z) : Tweet :=
  mkTweet ("fake-" ++ pretty now)
    ("This is a post about " ++ topic data) (targetId data) None
    (Some created) None false false None.

(** [event.targetAgentIds && event.targetAgentIds.length > 0 &&
     !event.targetAgentIds.includes(agentId)] *)
Definition notTargeted (agentId : string) (event : Event) : bool :=
  match targetAgentIds event with
  | [] => false
  | targets => negb (existsb (String.eqb agentId) targets)
  end.

(** [processAgentEvent(agentId, event)].  [draw] is what
    [Math.random()] returns if it is called, [timeline] the outcome of
    [getUserTimeline].  The manager has no [llmProvider], so the
    first statement of the case 'news' throws a [TypeError]. *)
Definition processAgentEvent (agents : gmap string Agent) (agentId : string)
    (event : Event) (data : EventData) (draw : Q)
    (timeline : Result (list Tweet)) (now created : Z)
    : list Step * Tail :=
  match agents !! agentId with
  | None => ([], Throws ("Agent not found: " ++ agentId))
  | Some _ =>
      if notTargeted agentId event then ([], Returns)
      else if String.eqb (event_type event) "news" then
        ([], Throws
               "Cannot read properties of undefined (reading 'generateMemoryUpdate')")
      else if String.eqb (event_type event) "mood_shift" then
        ([AddMemory agentId (description data) "event" (6 # 10);
          UpdateMood agentId (valenceShift data) (arousalShift data)
            (dominanceShift data)],
         if Qlt_le_dec (3 # 10) (arousalShift data) then CreatesPost agentId
         else if Qlt_le_dec draw (2 # 10) then CreatesPost agentId
         else Returns)
      else if String.eqb (event_type event) "interaction_prompt" then
        if String.eqb (initiatorId data) agentId then
          ([GetUserTimeline agentId (targetId data)],
           match timeline with
           | Ok (first :: others) =>
               let recentTweets := first :: others in
               let randomIndex :=
                 Z.to_nat
                   (Qfloor (draw * inject_Z (Z.of_nat (length recentTweets)))) in
               ReactsTo agentId (nth randomIndex recentTweets first)
           | _ => ReactsTo agentId (fakePost data now created)
           end)
        else ([], Returns)
      else ([], Returns)
  end.

(** The answers of the world to the call for one agent. *)
Record Answers := mkAnswers {
  draw : string -> Q;
  timeline : string -> Result (list Tweet);
  clock : string -> Z;
  settles : Tail -> bool
}.

(** The listener [setupEventListeners] registers for all events: the
    agents are handed the event one after the other, each call
    awaited; [settles] tells whether the promise of a post or a
    reaction is fulfilled.  The result is what was done, how the calls
    ended, and whether the listener ran to its end. *)
Fixpoint notifyAgents (agents : gmap string Agent) (answers : Answers)
    (event : Event) (data : EventData) (agentIds : list string)
    : list Step * list Tail * bool :=
  match agentIds with
  | [] => ([], [], true)
  | agentId :: rest =>
      let '(steps, tail) :=
        processAgentEvent agents agentId event data (draw answers agentId)
          (timeline answers agentId) (clock answers agentId)
          (clock answers agentId) in
      let fulfilled :=
        match tail with
        | Returns => true
        | Throws _ => false
        | handed => settles answers handed
        end in
      if fulfilled then
        let '(steps', tails, completed) :=
          notifyAgents agents answers event data rest in
        (steps ++ steps', tail :: tails, completed)
      else (steps, [tail], false)
  end.

(** The agent a step or an end concerns. *)
Definition stepAgent (s : Step) : string :=
  match s with
  | AddMemory agentId _ _ _ => agentId
  | UpdateMood agentId _ _ _ => agentId
  | GetUserTimeline agentId _ => agentId
  end.

Definition handsOver (t : Tail) : option string :=
  match t with
  | CreatesPost agentId => Some agentId
  | ReactsTo agentId _ => Some agentId
  | _ => None
  end.

End AgentEvents.


(** * Properties *)

(** ** Double-precision rounding *)

Section DoubleFacts.
Import Double.
Local Open Scope Q_scope.

Lemma pow2_pos (e : Z) : 0 < pow2 e.
Proof. apply Qpower_0_lt. reflexivity. Qed.

Lemma pow2_add (a b : Z) : pow2 (a + b) == pow2 a * pow2 b.
Proof. apply Qpower_plus. discriminate. Qed.

Lemma pow2_le (a b : Z) : (a <= b)%Z -> pow2 a <= pow2 b.
Proof. intros H. apply Qpower_le_compat_l; [exact H|discriminate]. Qed.

Lemma pow2_lt_inv (a b : Z) : pow2 a < pow2 b -> (a < b)%Z.
Proof. intros H. apply (Qpower_lt_compat_l_inv 2); [exact H|reflexivity]. Qed.

Lemma pow2_nonneg_Z (e : Z) : (0 <= e)%Z -> pow2 e == inject_Z (2 ^ e).
Proof. intros H. unfold pow2. now rewrite Zpower_Qpower. Qed.

(** [log2Floor] is the integer part of the binary logarithm. *)
Lemma log2Floor_spec (x : Q) :
  0 < x -> pow2 (log2Floor x) <= x /\ x < pow2 (log2Floor x + 1).
Proof.
  intros Hx. destruct x as [n d]. unfold log2Floor. simpl Qnum. simpl Qden.
  assert (Hn : (0 < n)%Z).
  { unfold Qlt in Hx. simpl in Hx. lia. }
  set (a := Z.log2 n). set (b := Z.log2 (Zpos d)).
  destruct (Z.log2_spec n Hn) as [Ha1 Ha2]. fold a in Ha1, Ha2.
  destruct (Z.log2_spec (Zpos d) eq_refl) as [Hb1 Hb2]. fold b in Hb1, Hb2.
  assert (Ha0 : (0 <= a)%Z) by apply Z.log2_nonneg.
  assert (Hb0 : (0 <= b)%Z) by apply Z.log2_nonneg.
  assert (Hx' : n # d == inject_Z n / inject_Z (Zpos d)) by apply Qmake_Qdiv.
  assert (Hd : 0 < inject_Z (Zpos d)) by reflexivity.
  assert (Hpa : pow2 a == inject_Z (2 ^ a)) by now apply pow2_nonneg_Z.
  assert (Hpb : pow2 b == inject_Z (2 ^ b)) by now apply pow2_nonneg_Z.
  assert (Hpa1 : pow2 (a + 1) == inject_Z (2 ^ (a + 1)))
    by (apply pow2_nonneg_Z; lia).
  assert (Hpb1 : pow2 (b + 1) == inject_Z (2 ^ (b + 1)))
    by (apply pow2_nonneg_Z; lia).
  assert (Hlow : pow2 (a - b - 1) < n # d).
  { rewrite Hx'. apply Qlt_shift_div_l; [exact Hd|].
    apply Qlt_le_trans with (pow2 (a - b - 1) * pow2 (b + 1)).
    - apply Qmult_lt_l; [apply pow2_pos|]. rewrite Hpb1. rewrite <- Zlt_Qlt.
      exact Hb2.
    - rewrite <- pow2_add. replace (a - b - 1 + (b + 1))%Z with a by lia.
      rewrite Hpa. rewrite <- Zle_Qle. exact Ha1. }
  assert (Hhigh : n # d < pow2 (a - b + 1)).
  { rewrite Hx'. apply Qlt_shift_div_r; [exact Hd|].
    apply Qlt_le_trans with (pow2 (a + 1)).
    - rewrite Hpa1. rewrite <- Zlt_Qlt. exact Ha2.
    - replace (a + 1)%Z with (a - b + 1 + b)%Z at 1 by lia.
      rewrite pow2_add. apply Qmult_le_l; [apply pow2_pos|].
      rewrite Hpb. rewrite <- Zle_Qle. exact Hb1. }
  destruct (Qle_bool (pow2 (a - b)) (n # d)) eqn:Hc.
  - apply Qle_bool_iff in Hc. split; assumption.
  - assert (Hlt : n # d < pow2 (a - b)).
    { apply Qnot_le_lt. intros H. apply Qle_bool_iff in H. congruence. }
    split; [apply Qlt_le_weak; exact Hlow|].
    replace (a - b - 1 + 1)%Z with (a - b)%Z by lia. exact Hlt.
Qed.

Lemma log2Floor_unique (x : Q) (k : Z) :
  pow2 k <= x -> x < pow2 (k + 1) -> log2Floor x = k.
Proof.
  intros H1 H2.
  assert (Hx : 0 < x) by (eapply Qlt_le_trans; [apply pow2_pos|exact H1]).
  destruct (log2Floor_spec x Hx) as [L1 L2].
  assert (log2Floor x < k + 1)%Z
    by (apply pow2_lt_inv; eapply Qle_lt_trans; eassumption).
  assert (k < log2Floor x + 1)%Z
    by (apply pow2_lt_inv; eapply Qle_lt_trans; eassumption).
  lia.
Qed.

Lemma log2Floor_le (x y : Q) :
  0 < x -> x <= y -> (log2Floor x <= log2Floor y)%Z.
Proof.
  intros Hx Hxy.
  assert (Hy : 0 < y) by (eapply Qlt_le_trans; eassumption).
  destruct (log2Floor_spec x Hx) as [L1 _].
  destruct (log2Floor_spec y Hy) as [_ L2].
  assert (log2Floor x < log2Floor y + 1)%Z; [|lia].
  apply pow2_lt_inv. eapply Qle_lt_trans; [exact L1|].
  eapply Qle_lt_trans; eassumption.
Qed.

Lemma roundHalfEven_comp (x y : Q) :
  x == y -> roundHalfEven x = roundHalfEven y.
Proof.
  intros H. unfold roundHalfEven. rewrite (Qfloor_comp _ _ H).
  assert (Hc : Qcompare (x - inject_Z (Qfloor y)) (1 # 2)
               = Qcompare (y - inject_Z (Qfloor y)) (1 # 2))
    by (now rewrite H).
  now rewrite Hc.
Qed.

Lemma roundHalfEven_Z (n : Z) : roundHalfEven (inject_Z n) = n.
Proof.
  unfold roundHalfEven. rewrite Qfloor_Z.
  assert (Hc : Qcompare (inject_Z n - inject_Z n) (1 # 2) = Lt).
  { apply (proj1 (Qlt_alt _ _)). lra. }
  now rewrite Hc.
Qed.

Lemma roundHalfEven_between (x : Q) :
  (Qfloor x <= roundHalfEven x <= Qfloor x + 1)%Z.
Proof.
  unfold roundHalfEven.
  destruct (Qcompare (x - inject_Z (Qfloor x)) (1 # 2));
    [destruct (Z.even (Qfloor x))| |]; lia.
Qed.

Lemma roundHalfEven_le (x y : Q) :
  x <= y -> (roundHalfEven x <= roundHalfEven y)%Z.
Proof.
  intros Hxy. pose proof (Qfloor_resp_le x y Hxy) as Hf.
  destruct (Z.eq_dec (Qfloor x) (Qfloor y)) as [He|Hne].
  - unfold roundHalfEven. rewrite He.
    destruct (Qcompare (x - inject_Z (Qfloor y)) (1 # 2)) eqn:Cx;
      destruct (Qcompare (y - inject_Z (Qfloor y)) (1 # 2)) eqn:Cy;
      try (destruct (Z.even (Qfloor y))); try lia;
      try apply (proj2 (Qeq_alt _ _)) in Cx;
      try apply (proj2 (Qlt_alt _ _)) in Cx;
      try apply (proj2 (Qgt_alt _ _)) in Cx;
      try apply (proj2 (Qeq_alt _ _)) in Cy;
      try apply (proj2 (Qlt_alt _ _)) in Cy;
      try apply (proj2 (Qgt_alt _ _)) in Cy;
      exfalso; lra.
  - pose proof (roundHalfEven_between x). pose proof (roundHalfEven_between y).
    lia.
Qed.

Lemma exponent_le (x y : Q) :
  0 < x -> x <= y -> (exponent x <= exponent y)%Z.
Proof.
  intros Hx Hxy. unfold exponent.
  pose proof (log2Floor_le x y Hx Hxy). lia.
Qed.

Lemma below_next_binade (x : Q) : 0 < x -> x < pow2 (exponent x + 53).
Proof.
  intros Hx. destruct (log2Floor_spec x Hx) as [_ H].
  eapply Qlt_le_trans; [exact H|]. apply pow2_le. unfold exponent. lia.
Qed.

Lemma above_binade (x : Q) :
  0 < x -> (-1074 < exponent x)%Z -> pow2 (exponent x + 52) <= x.
Proof.
  intros Hx He. destruct (log2Floor_spec x Hx) as [H _].
  eapply Qle_trans; [|exact H]. apply pow2_le. unfold exponent in *. lia.
Qed.

Lemma scaled_below (x : Q) (e k : Z) :
  x < pow2 (e + k) -> x / pow2 e < pow2 k.
Proof.
  intros H. apply Qlt_shift_div_r; [apply pow2_pos|].
  rewrite <- pow2_add. now rewrite Z.add_comm.
Qed.

Lemma scaled_above (x : Q) (e k : Z) :
  pow2 (e + k) <= x -> pow2 k <= x / pow2 e.
Proof.
  intros H. apply Qle_shift_div_l; [apply pow2_pos|].
  rewrite <- pow2_add. now rewrite Z.add_comm.
Qed.

Lemma roundPositive_nonneg (x : Q) : 0 < x -> 0 <= roundPositive x.
Proof.
  intros Hx. unfold roundPositive.
  apply Qmult_le_0_compat; [|apply Qlt_le_weak, pow2_pos].
  assert (Hq : inject_Z 0 <= x / pow2 (exponent x)).
  { apply Qle_shift_div_l; [apply pow2_pos|].
    rewrite Qmult_0_l. now apply Qlt_le_weak. }
  apply roundHalfEven_le in Hq. rewrite roundHalfEven_Z in Hq.
  now rewrite Zle_Qle in Hq.
Qed.

Lemma roundPositive_upper (x : Q) :
  0 < x -> roundPositive x <= pow2 (exponent x + 53).
Proof.
  intros Hx. unfold roundPositive.
  rewrite (pow2_add (exponent x) 53), (Qmult_comm (inject_Z _)).
  apply Qmult_le_l; [apply pow2_pos|].
  rewrite (pow2_nonneg_Z 53) by lia. rewrite <- Zle_Qle.
  rewrite <- (roundHalfEven_Z (2 ^ 53)). apply roundHalfEven_le.
  rewrite <- (pow2_nonneg_Z 53) by lia. apply Qlt_le_weak.
  apply scaled_below. now apply below_next_binade.
Qed.

Lemma roundPositive_lower (x : Q) :
  0 < x -> (-1074 < exponent x)%Z -> pow2 (exponent x + 52) <= roundPositive x.
Proof.
  intros Hx He. unfold roundPositive.
  rewrite (pow2_add (exponent x) 52), (Qmult_comm (inject_Z _)).
  apply Qmult_le_l; [apply pow2_pos|].
  rewrite (pow2_nonneg_Z 52) by lia. rewrite <- Zle_Qle.
  rewrite <- (roundHalfEven_Z (2 ^ 52)). apply roundHalfEven_le.
  rewrite <- (pow2_nonneg_Z 52) by lia.
  apply scaled_above. now apply above_binade.
Qed.

Lemma exponent_min (x : Q) : (-1074 <= exponent x)%Z.
Proof. unfold exponent. lia. Qed.

Lemma roundPositive_le (x y : Q) :
  0 < x -> x <= y -> roundPositive x <= roundPositive y.
Proof.
  intros Hx Hxy.
  assert (Hy : 0 < y) by (eapply Qlt_le_trans; eassumption).
  pose proof (exponent_le x y Hx Hxy) as He.
  destruct (Z.eq_dec (exponent x) (exponent y)) as [Heq|Hne].
  - unfold roundPositive. rewrite Heq.
    apply Qmult_le_compat_r; [|apply Qlt_le_weak, pow2_pos].
    rewrite <- Zle_Qle. apply roundHalfEven_le.
    apply Qmult_le_compat_r; [exact Hxy|].
    apply Qlt_le_weak, Qinv_lt_0_compat, pow2_pos.
  - pose proof (exponent_min x).
    eapply Qle_trans; [apply (roundPositive_upper x Hx)|].
    eapply Qle_trans; [|apply (roundPositive_lower y Hy); lia].
    apply pow2_le. lia.
Qed.

Lemma roundPositive_comp (x y : Q) :
  0 < x -> x == y -> roundPositive x == roundPositive y.
Proof.
  intros Hx Hxy. assert (Hy : 0 < y) by now rewrite <- Hxy.
  apply Qle_antisym; apply roundPositive_le; auto; rewrite Hxy; apply Qle_refl.
Qed.

Lemma significand_bound (x : Q) :
  0 < x -> (0 <= roundHalfEven (x / pow2 (exponent x)) <= 2 ^ 53)%Z.
Proof.
  intros Hx. split.
  - assert (Hq : inject_Z 0 <= x / pow2 (exponent x)).
    { apply Qle_shift_div_l; [apply pow2_pos|].
      rewrite Qmult_0_l. now apply Qlt_le_weak. }
    apply roundHalfEven_le in Hq. now rewrite roundHalfEven_Z in Hq.
  - rewrite <- (roundHalfEven_Z (2 ^ 53)). apply roundHalfEven_le.
    rewrite <- (pow2_nonneg_Z 53) by lia. apply Qlt_le_weak.
    apply scaled_below. now apply below_next_binade.
Qed.

(** A number with a significand of at most 53 bits and an exponent in
    range is a double: rounding leaves it as it is. *)
Lemma roundPositive_fix_lt (v : Q) (k e : Z) :
  (0 < k < 2 ^ 53)%Z -> (-1074 <= e)%Z -> v == inject_Z k * pow2 e ->
  roundPositive v == v.
Proof.
  intros Hk He Hv.
  assert (Hkq : 0 < inject_Z k) by (change 0 with (inject_Z 0);
                                    rewrite <- Zlt_Qlt; lia).
  assert (Hv0 : 0 < v).
  { rewrite Hv. apply Qmult_lt_0_compat; [exact Hkq|apply pow2_pos]. }
  assert (Hlt : v < pow2 (e + 53)).
  { rewrite Hv, (pow2_add e 53), (Qmult_comm (inject_Z k)).
    apply Qmult_lt_l; [apply pow2_pos|].
    rewrite (pow2_nonneg_Z 53) by lia. rewrite <- Zlt_Qlt. lia. }
  assert (He' : (exponent v <= e)%Z).
  { destruct (log2Floor_spec v Hv0) as [L1 _].
    assert (log2Floor v < e + 53)%Z
      by (apply pow2_lt_inv; eapply Qle_lt_trans; eassumption).
    unfold exponent. lia. }
  set (e' := exponent v) in *.
  assert (Hscaled : v / pow2 e' == inject_Z (k * 2 ^ (e - e'))).
  { rewrite Hv. replace e with ((e - e') + e')%Z at 1 by lia.
    rewrite pow2_add, (pow2_nonneg_Z (e - e')) by lia.
    rewrite inject_Z_mult. field.
    intros H0. pose proof (pow2_pos e') as Hp. rewrite H0 in Hp.
    discriminate Hp. }
  unfold roundPositive. fold e'.
  rewrite (roundHalfEven_comp _ _ Hscaled), roundHalfEven_Z, <- Hscaled.
  field. intros H0. pose proof (pow2_pos e') as Hp. rewrite H0 in Hp.
  discriminate Hp.
Qed.

Lemma roundPositive_fix (v : Q) (k e : Z) :
  (0 < k <= 2 ^ 53)%Z -> (-1074 <= e)%Z -> v == inject_Z k * pow2 e ->
  roundPositive v == v.
Proof.
  intros Hk He Hv. destruct (Z.eq_dec k (2 ^ 53)%Z) as [->|Hne].
  - apply (roundPositive_fix_lt v (2 ^ 52)%Z (e + 1)%Z); [lia|lia|].
    rewrite Hv, (Z.add_comm e 1), pow2_add.
    rewrite <- (pow2_nonneg_Z 53), <- (pow2_nonneg_Z 52) by lia.
    rewrite Qmult_assoc, <- (pow2_add 52 1). reflexivity.
  - apply (roundPositive_fix_lt v k e); [lia|exact He|exact Hv].
Qed.

Lemma roundPositive_idempotent (x : Q) :
  0 < x -> 0 < roundPositive x ->
  roundPositive (roundPositive x) == roundPositive x.
Proof.
  intros Hx Hv.
  destruct (significand_bound x Hx) as [H0 H1].
  apply (roundPositive_fix _ (roundHalfEven (x / pow2 (exponent x)))
           (exponent x)); [|apply exponent_min|reflexivity].
  split; [|exact H1].
  destruct (Z.eq_dec (roundHalfEven (x / pow2 (exponent x))) 0%Z) as [Hz|Hz];
    [|lia].
  exfalso. unfold roundPositive in Hv. rewrite Hz in Hv.
  rewrite Qmult_0_l in Hv. discriminate Hv.
Qed.

Lemma fl_pos (x : Q) : 0 < x -> fl x == roundPositive x.
Proof.
  intros Hx. unfold fl. rewrite Qred_correct.
  apply (proj1 (Qgt_alt _ _)) in Hx. now rewrite Hx.
Qed.

Lemma fl_neg (x : Q) : x < 0 -> fl x == - roundPositive (- x).
Proof.
  intros Hx. unfold fl. rewrite Qred_correct.
  apply (proj1 (Qlt_alt _ _)) in Hx. now rewrite Hx.
Qed.

Lemma fl_zero (x : Q) : x == 0 -> fl x == 0.
Proof.
  intros Hx. unfold fl. rewrite Qred_correct.
  apply (proj1 (Qeq_alt _ _)) in Hx. now rewrite Hx.
Qed.

Lemma fl_nonneg (x : Q) : 0 <= x -> 0 <= fl x.
Proof.
  intros Hx. destruct (Qlt_le_dec 0 x) as [Hp|Hz].
  - rewrite (fl_pos x Hp). now apply roundPositive_nonneg.
  - rewrite fl_zero; [apply Qle_refl|]. now apply Qle_antisym.
Qed.

Lemma fl_nonpos (x : Q) : x <= 0 -> fl x <= 0.
Proof.
  intros Hx. destruct (Qlt_le_dec x 0) as [Hn|Hz].
  - rewrite (fl_neg x Hn).
    assert (0 <= roundPositive (- x)) by (apply roundPositive_nonneg; lra).
    lra.
  - rewrite fl_zero; [apply Qle_refl|]. now apply Qle_antisym.
Qed.

(** Rounding is monotone. *)
Lemma fl_le (x y : Q) : x <= y -> fl x <= fl y.
Proof.
  intros Hxy. destruct (Qlt_le_dec 0 x) as [Hx|Hx].
  - assert (Hy : 0 < y) by lra.
    rewrite (fl_pos x Hx), (fl_pos y Hy). now apply roundPositive_le.
  - destruct (Qlt_le_dec y 0) as [Hy|Hy].
    + assert (Hx' : x < 0) by lra.
      rewrite (fl_neg x Hx'), (fl_neg y Hy).
      assert (roundPositive (- y) <= roundPositive (- x))
        by (apply roundPositive_le; lra).
      lra.
    + eapply Qle_trans; [apply fl_nonpos; exact Hx|apply fl_nonneg; exact Hy].
Qed.

Lemma fl_comp (x y : Q) : x == y -> fl x == fl y.
Proof.
  intros H. apply Qle_antisym; apply fl_le; rewrite H; apply Qle_refl.
Qed.

(** A rounded number is a double: rounding it again changes nothing. *)
Lemma fl_idempotent (x : Q) : fl (fl x) == fl x.
Proof.
  destruct (Qlt_le_dec 0 x) as [Hx|Hx].
  - pose proof (roundPositive_nonneg x Hx) as Hv.
    rewrite (fl_comp _ _ (fl_pos x Hx)).
    rewrite (fl_pos x Hx).
    destruct (Qlt_le_dec 0 (roundPositive x)) as [Hp|Hz].
    + rewrite (fl_pos _ Hp). now apply roundPositive_idempotent.
    + assert (Hzero : roundPositive x == 0) by now apply Qle_antisym.
      rewrite (fl_zero _ Hzero). now rewrite Hzero.
  - destruct (Qlt_le_dec x 0) as [Hn|Hz].
    + assert (Hx' : 0 < - x) by lra.
      pose proof (roundPositive_nonneg (- x) Hx') as Hv.
      rewrite (fl_comp _ _ (fl_neg x Hn)). rewrite (fl_neg x Hn).
      destruct (Qlt_le_dec 0 (roundPositive (- x))) as [Hp|Hz].
      * assert (Hneg : - roundPositive (- x) < 0) by lra.
        rewrite (fl_neg _ Hneg).
        assert (Hc : roundPositive (- - roundPositive (- x))
                     == roundPositive (roundPositive (- x))).
        { apply roundPositive_comp; [lra|ring]. }
        rewrite Hc. now rewrite (roundPositive_idempotent _ Hx' Hp).
      * assert (Hzero : roundPositive (- x) == 0) by now apply Qle_antisym.
        assert (Hzero' : - roundPositive (- x) == 0) by lra.
        rewrite (fl_zero _ Hzero'). lra.
    + assert (Hzero : x == 0) by now apply Qle_antisym.
      rewrite (fl_comp _ _ (fl_zero x Hzero)).
      rewrite (fl_zero x Hzero). now apply fl_zero.
Qed.

End DoubleFacts.

(** ** Post scheduler: bounds of the jittered interval *)

Section JitterBounds.
Import Types Double BehaviorRandomizer.
Local Open Scope Q_scope.

Lemma fl_one : fl 1 == 1.
Proof. vm_compute. reflexivity. Qed.

(** A double below [x] is below the rounding of [x]. *)
Lemma fl_ge (d x : Q) : fl d == d -> d <= x -> d <= fl x.
Proof.
  intros Hd Hx. rewrite <- Hd. now apply fl_le.
Qed.

Lemma fl_literal_07 : 0 <= fl (7 # 10) /\ fl (7 # 10) <= 1.
Proof.
  split; [apply fl_nonneg; lra|].
  rewrite <- fl_one. apply fl_le. lra.
Qed.

Lemma fl_literal_11 : 1 <= fl (11 # 10).
Proof.
  rewrite <- fl_one. apply fl_le. lra.
Qed.

Lemma hoursToMs_nonneg (h : Q) : 0 <= h -> 0 <= hoursToMs h.
Proof.
  intros Hh. unfold hoursToMs.
  assert (H1 : 0 <= fl (h * 60)) by (apply fl_nonneg; lra).
  assert (H2 : 0 <= fl (fl (h * 60) * 60)) by (apply fl_nonneg; lra).
  apply fl_nonneg. lra.
Qed.

Lemma hoursToMs_le (h h' : Q) : h <= h' -> hoursToMs h <= hoursToMs h'.
Proof.
  intros Hh. unfold hoursToMs.
  assert (H1 : fl (h * 60) <= fl (h' * 60)) by (apply fl_le; lra).
  assert (H2 : fl (fl (h * 60) * 60) <= fl (fl (h' * 60) * 60))
    by (apply fl_le; lra).
  apply fl_le. lra.
Qed.

Lemma hoursToMs_double (h : Q) : fl (hoursToMs h) == hoursToMs h.
Proof. apply fl_idempotent. Qed.

(** The random share of the base interval and the extra delay are
    never negative. *)
Lemma share_nonneg (r span : Q) :
  isDraw r -> 0 <= span -> 0 <= fl (r * fl span).
Proof.
  intros [Hr _] Hs. apply fl_nonneg.
  assert (0 <= fl span) by now apply fl_nonneg.
  nra.
Qed.

Lemma delay_nonneg (r : Q) :
  isDraw r -> 0 <= fl (fl (fl (r * 5) * 60) * 1000).
Proof.
  intros [Hr _].
  assert (H1 : 0 <= fl (r * 5)) by (apply fl_nonneg; lra).
  assert (H2 : 0 <= fl (fl (r * 5) * 60)) by (apply fl_nonneg; lra).
  apply fl_nonneg. lra.
Qed.

Lemma jitter_ge (d x r3 r4 : Q) :
  fl d == d -> d <= x -> isDraw r4 ->
  d <= (if Qlt_le_dec (5 # 10) r3
        then fl (x + fl (fl (fl (r4 * 5) * 60) * 1000)) else x).
Proof.
  intros Hd Hx Hr4. destruct (Qlt_le_dec (5 # 10) r3); [|exact Hx].
  apply fl_ge; [exact Hd|]. pose proof (delay_nonneg r4 Hr4). lra.
Qed.

(** C1 (as the code has it): the interval never exceeds [maxMs]; below,
    it is bounded by [minMs] (rounded down to a whole millisecond)
    outside peak hours only, and in a peak hour by
    [Math.floor(minMs * 0.7)], the product taken in double arithmetic,
    for every agent with [0 <= minHours <= maxHours] and every outcome
    of the draws. *)
Theorem getNextPostInterval_bounds (agent : Agent) (currentHour : Z)
    (r1 r2 r3 r4 : Q) :
  isDraw r1 -> isDraw r2 -> isDraw r3 -> isDraw r4 ->
  let pf := postFrequency (behavior agent) in
  let t := getNextPostInterval agent currentHour r1 r2 r3 r4 in
  finiteHours pf ->
  inject_Z t <= maxMs pf /\
  (0 <= minHoursBetweenPosts pf ->
   minHoursBetweenPosts pf <= maxHoursBetweenPosts pf ->
   (isPeakHour pf currentHour = false -> (Qfloor (minMs pf) <= t)%Z) /\
   (isPeakHour pf currentHour = true ->
      (Qfloor (fl (minMs pf * fl (7 # 10))) <= t)%Z)).
Proof.
  intros Hr1 Hr2 Hr3 Hr4 pf t _. split.
  - subst t. unfold getNextPostInterval. fold pf.
    eapply Qle_trans; [apply Qfloor_le|]. apply Q.le_min_r.
  - intros Hmin Hle.
    assert (Hm0 : 0 <= minMs pf) by now apply hoursToMs_nonneg.
    assert (HmM : minMs pf <= maxMs pf) by now apply hoursToMs_le.
    assert (Hmd : fl (minMs pf) == minMs pf) by apply hoursToMs_double.
    assert (Hbase : minMs pf
                    <= fl (minMs pf + fl (r1 * fl (maxMs pf - minMs pf)))).
    { apply fl_ge; [exact Hmd|].
      assert (0 <= fl (r1 * fl (maxMs pf - minMs pf)))
        by (apply share_nonneg; [exact Hr1|lra]).
      lra. }
    assert (Hshare : 0 <= fl (r2 * fl (2 # 10)))
      by (apply share_nonneg; [exact Hr2|lra]).
    split; intros Hpeak; subst t; unfold getNextPostInterval; fold pf;
      rewrite Hpeak; apply Qfloor_resp_le; apply Q.min_glb.
    + apply jitter_ge; [exact Hmd| |exact Hr4].
      apply fl_ge; [exact Hmd|].
      assert (Hf : 1 <= fl (fl (11 # 10) + fl (r2 * fl (2 # 10)))).
      { apply fl_ge; [exact fl_one|].
        pose proof fl_literal_11. lra. }
      nra.
    + exact HmM.
    + destruct fl_literal_07 as [Hc0 Hc1].
      apply jitter_ge; [apply fl_idempotent| |exact Hr4].
      apply fl_le.
      assert (Hf : fl (7 # 10) <= fl (fl (7 # 10) + fl (r2 * fl (2 # 10)))).
      { apply fl_ge; [apply fl_idempotent|lra]. }
      nra.
    + destruct fl_literal_07 as [Hc0 Hc1].
      eapply Qle_trans; [|exact HmM].
      rewrite <- Hmd at 2. apply fl_le. nra.
Qed.

(** The default agent of types.js (3 to 12 hours), off peak and in a
    peak hour. *)
Lemma getNextPostInterval_bounds_witness :
  let a := mkAgent "bot1" "bot1" None []
             (mkBehavior (mkPostFrequency 3 12 [9%Z])
                (mkInteractionPatterns (5 # 10) (3 # 10) (7 # 10))) None in
  inject_Z (getNextPostInterval a 9 (1 # 2) (1 # 2) (3 # 4) (1 # 2))
    <= maxMs (postFrequency (behavior a)) /\
  (Qfloor (minMs (postFrequency (behavior a)))
     <= getNextPostInterval a 10 (1 # 2) (1 # 2) (3 # 4) (1 # 2))%Z /\
  (Qfloor (fl (minMs (postFrequency (behavior a)) * fl (7 # 10)))
     <= getNextPostInterval a 9 (1 # 2) (1 # 2) (3 # 4) (1 # 2))%Z.
Proof.
  intros a.
  assert (Hd : forall r : Q, 0 <= r -> r < 1 -> isDraw r)
    by (intros r H0 H1; split; assumption).
  assert (H12 : isDraw (1 # 2)) by (apply Hd; lra).
  assert (H34 : isDraw (3 # 4)) by (apply Hd; lra).
  assert (Hfin : finiteHours (postFrequency (behavior a)))
    by (split; vm_compute; discriminate).
  split; [|split].
  - exact (proj1 (getNextPostInterval_bounds a 9 (1 # 2) (1 # 2) (3 # 4)
                    (1 # 2) H12 H12 H34 H12 Hfin)).
  - refine (proj1 (proj2 (getNextPostInterval_bounds a 10 (1 # 2) (1 # 2)
                    (3 # 4) (1 # 2) H12 H12 H34 H12 Hfin) _ _) _).
    + vm_compute. discriminate.
    + vm_compute. discriminate.
    + reflexivity.
  - refine (proj2 (proj2 (getNextPostInterval_bounds a 9 (1 # 2) (1 # 2)
                    (3 # 4) (1 # 2) H12 H12 H34 H12 Hfin) _ _) _).
    + vm_compute. discriminate.
    + vm_compute. discriminate.
    + reflexivity.
Defined.

(** C1 as stated fails in a peak hour: with the smallest draws the
    3-hour minimum (10 800 000 ms) is undercut by 30 percent.  The
    code returns 7 559 999 ms, one millisecond less than 70 percent of
    the minimum, because the double nearest to 0.7 lies below 0.7. *)
Lemma getNextPostInterval_below_min :
  let a := mkAgent "bot1" "bot1" None []
             (mkBehavior (mkPostFrequency 3 12 [9%Z])
                (mkInteractionPatterns (5 # 10) (3 # 10) (7 # 10))) None in
  isDraw 0 /\
  finiteHours (postFrequency (behavior a)) /\
  minMs (postFrequency (behavior a)) == 10800000 /\
  maxMs (postFrequency (behavior a)) == 43200000 /\
  getNextPostInterval a 9 0 0 0 0 = 7559999%Z /\
  ~ (minMs (postFrequency (behavior a))
       <= inject_Z (getNextPostInterval a 9 0 0 0 0)
     /\ inject_Z (getNextPostInterval a 9 0 0 0 0)
       <= maxMs (postFrequency (behavior a))).
Proof.
  intros a. split; [unfold isDraw; split; lra|].
  split; [split; vm_compute; discriminate|].
  split; [vm_compute; reflexivity|].
  split; [vm_compute; reflexivity|].
  split; [vm_compute; reflexivity|].
  intros [H _]. vm_compute in H. apply H. reflexivity.
Qed.

End JitterBounds.

(** ** Event queue: priority order of the drain *)

Section PriorityOrder.
Import Types EventEngine EventAccounting.
Local Open Scope Z_scope.

Lemma insertByPriority_perm (e : Event) (q : list Event) :
  Permutation (insertByPriority e q) (e :: q).
Proof.
  induction q as [|x q IH]; simpl; [reflexivity|].
  destruct (priorityValues (priority x) <=? priorityValues (priority e));
    [reflexivity|].
  rewrite IH. apply perm_swap.
Qed.

Lemma sortEventQueue_perm (q : list Event) :
  Permutation (sortEventQueue q) q.
Proof.
  induction q as [|x q IH]; simpl; [reflexivity|].
  rewrite insertByPriority_perm. now constructor.
Qed.

Lemma insertByPriority_sorted (e : Event) (q : list Event) :
  StronglySorted byPriority q ->
  StronglySorted byPriority (insertByPriority e q).
Proof.
  induction 1 as [|x q Hs IH Hall]; simpl.
  - repeat constructor.
  - destruct (Z.leb_spec (priorityValues (priority x))
                (priorityValues (priority e))) as [Hle|Hgt].
    + constructor; [now constructor|].
      constructor; [exact Hle|].
      eapply List.Forall_impl; [|exact Hall].
      intros y Hy. unfold byPriority in *. lia.
    + constructor; [exact IH|].
      rewrite insertByPriority_perm. constructor; [|exact Hall].
      unfold byPriority. lia.
Qed.

Lemma sortEventQueue_sorted (q : list Event) :
  StronglySorted byPriority (sortEventQueue q).
Proof.
  induction q as [|x q IH]; simpl; [constructor|].
  now apply insertByPriority_sorted.
Qed.


Lemma pushSorted_wellFormed (e : Event) (eng : Engine) :
  isProcessing eng = true -> wellFormed eng ->
  wellFormed (pushSorted e eng).
Proof.
  intros Hb (_ & Hflag & _). repeat split; simpl.
  - apply sortEventQueue_sorted.
  - apply Hflag.
  - apply Hflag.
  - intros Hf. congruence.
Qed.

Lemma processLoop_wellFormed (eng : Engine) :
  StronglySorted byPriority (eventQueue eng) ->
  isProcessing eng = true ->
  wellFormed (processLoop eng).
Proof.
  intros Hs Hb. unfold processLoop.
  destruct (eventQueue eng) as [|h rest] eqn:Hq.
  - repeat split; simpl; try constructor; try congruence.
  - repeat split; simpl; try congruence.
    now inversion Hs.
Qed.

(** Enqueueing on a busy engine only touches the queue. *)
Lemma fold_queue_busy (es : list Event) (g : Engine) :
  isProcessing g = true ->
  let g' := fold_left (fun g e => queueEventWith (fun g => g) e g) es g in
  isProcessing g' = true /\ dispatched g' = dispatched g /\
  awaiting g' = awaiting g /\
  (forall y, In y (eventQueue g) -> In y (eventQueue g')) /\
  (StronglySorted byPriority (eventQueue g) ->
   StronglySorted byPriority (eventQueue g')).
Proof.
  revert g. induction es as [|e es IH]; intros g Hb; simpl.
  - repeat split; auto.
  - assert (Hq : queueEventWith (fun g => g) e g = pushSorted e g)
      by (unfold queueEventWith; simpl; now rewrite Hb).
    rewrite Hq.
    destruct (IH (pushSorted e g) Hb) as (H1 & H2 & H3 & H4 & H5).
    split; [exact H1|]. split; [exact H2|]. split; [exact H3|]. split.
    + intros y Hy. apply H4. simpl.
      apply (Permutation_in _ (Permutation_sym (sortEventQueue_perm _))).
      apply in_or_app. now left.
    + intros _. apply H5. simpl. apply sortEventQueue_sorted.
Qed.

(** Enqueueing on a busy engine: the queue takes the events, the rest
    of the engine stays. *)
Lemma fold_queue_busy_contents (es : list Event) (g : Engine) :
  isProcessing g = true ->
  let g' := fold_left (fun g e => queueEventWith (fun g => g) e g) es g in
  Permutation (eventQueue g') (eventQueue g ++ es) /\
  scheduledEvents g' = scheduledEvents g /\
  eventHistory g' = eventHistory g /\
  dispatched g' = dispatched g /\
  isProcessing g' = true.
Proof.
  revert g. induction es as [|e es IH]; intros g Hb; simpl.
  - rewrite app_nil_r. repeat split; auto.
  - assert (Hq : queueEventWith (fun g => g) e g = pushSorted e g)
      by (unfold queueEventWith; simpl; now rewrite Hb).
    rewrite Hq. destruct (IH (pushSorted e g) Hb) as (H1 & H2 & H3 & H4 & H5).
    split; [|repeat split; assumption].
    rewrite H1. simpl. rewrite sortEventQueue_perm, <- app_assoc. reflexivity.
Qed.

(** What [processEvents] does when it starts on an engine whose flag is
    not set: the scheduled events that are due join the queue, and the
    loop head runs. *)
Lemma processEvents_idle (now : Z) (g : Engine) :
  isProcessing g = false ->
  exists g2,
    processEvents now g = processLoop g2 /\
    Permutation (eventQueue g2)
      (eventQueue g ++ map sched_event (dueAt now (scheduledEvents g))) /\
    scheduledEvents g2 = notDueAt now (scheduledEvents g) /\
    eventHistory g2 = eventHistory g /\
    dispatched g2 = dispatched g /\
    isProcessing g2 = true /\
    (StronglySorted byPriority (eventQueue g) ->
     StronglySorted byPriority (eventQueue g2)).
Proof.
  intros Hidle. unfold processEvents. rewrite Hidle.
  unfold checkScheduledEventsWith.
  match goal with
  | |- context [fold_left ?f ?es ?g0] =>
      destruct (fold_queue_busy_contents es g0 eq_refl)
        as (C1 & C2 & C3 & C4 & C5);
      destruct (fold_queue_busy es g0 eq_refl) as (_ & _ & _ & _ & F5);
      exists (fold_left f es g0)
  end.
  simpl in *. repeat split; auto.
Qed.




(** A step is a number of insertions into the queue, followed by at
    most one removal of its head, which is dispatched. *)
Lemma step_shape (eng : Engine) (op : Op) :
  wellFormed eng ->
  wellFormed (step eng op) /\
  exists q,
    (forall y, In y (eventQueue eng) -> In y q) /\
    StronglySorted byPriority q /\
    ((dispatched (step eng op) = dispatched eng /\
      eventQueue (step eng op) = q) \/
     (exists h, q = h :: eventQueue (step eng op) /\
        dispatched (step eng op) = dispatched eng ++ [h])).
Proof.
  intros Hwf. pose proof Hwf as (Hs & Hflag & Hidle).
  destruct op as [now e|now e delayMs|]; simpl.
  - unfold queueEvent, queueEventWith. simpl.
    destruct (isProcessing eng) eqn:Hb.
    + split; [now apply pushSorted_wellFormed|].
      exists (sortEventQueue (eventQueue eng ++ [e])).
      split; [|split; [apply sortEventQueue_sorted|left; auto]].
      intros y Hy.
      apply (Permutation_in _ (Permutation_sym (sortEventQueue_perm _))).
      apply in_or_app. now left.
    + unfold processEvents. simpl. rewrite Hb.
      unfold checkScheduledEventsWith. simpl.
      match goal with
      | |- context [fold_left ?f ?es ?g] =>
          destruct (fold_queue_busy es g eq_refl)
            as (F1 & F2 & F3 & F4 & F5);
          remember (fold_left f es g) as g' eqn:Hg'
      end.
      simpl in F2, F3, F4, F5.
      assert (Hs' : StronglySorted byPriority (eventQueue g'))
        by (apply F5, sortEventQueue_sorted).
      assert (Hin : In e (eventQueue g')).
      { apply F4.
        apply (Permutation_in _ (Permutation_sym (sortEventQueue_perm _))).
        apply in_or_app. right. now left. }
      split; [now apply processLoop_wellFormed|].
      exists (eventQueue g'). rewrite (Hidle eq_refl).
      split; [intros y []|]. split; [exact Hs'|].
      right. unfold processLoop.
      destruct (eventQueue g') as [|h rest]; [destruct Hin|].
      exists h. simpl. rewrite F2. auto.
  - split.
    + repeat split; simpl; try apply Hflag; auto.
    + exists (eventQueue eng). repeat split; auto.
  - unfold resume. destruct (awaiting eng) as [ev|] eqn:Haw.
    + assert (Hb : isProcessing eng = true)
        by (apply Hflag; congruence).
      split; [apply processLoop_wellFormed; simpl; auto|].
      exists (eventQueue eng). repeat split; auto.
      unfold processLoop. simpl.
      destruct (eventQueue eng) as [|h rest]; simpl.
      * left; auto.
      * right. exists h; auto.
    + split; [exact Hwf|]. exists (eventQueue eng). repeat split; auto.
Qed.

Lemma newEngine_wellFormed : wellFormed newEngine.
Proof.
  split; [constructor|]. split; [|reflexivity].
  simpl. split; [discriminate|intros H; now elim H].
Qed.

Lemma run_wellFormed (ops : list Op) (eng : Engine) :
  wellFormed eng -> wellFormed (run ops eng).
Proof.
  revert eng. induction ops as [|op ops IH]; intros eng Hwf; simpl; auto.
  apply IH. now apply step_shape.
Qed.




(** Resuming a busy engine until it is idle dispatches the whole queue,
    in queue order. *)
Lemma drain_dispatches_queue (fuel : nat) (eng : Engine) :
  wellFormed eng -> isProcessing eng = true ->
  (length (eventQueue eng) < fuel)%nat ->
  dispatched (drain fuel eng) = dispatched eng ++ eventQueue eng /\
  isProcessing (drain fuel eng) = false.
Proof.
  revert eng. induction fuel as [|fuel IH]; intros eng Hwf Hb Hlen;
    [inversion Hlen|].
  simpl. rewrite Hb.
  destruct (step_shape eng OpResume Hwf) as [Hwf' _]. simpl in Hwf'.
  destruct Hwf as (Hs & Hflag & _).
  unfold resume in *.
  destruct (awaiting eng) as [ev|] eqn:Haw;
    [|exfalso; now apply Hflag].
  unfold processLoop in *. simpl in *.
  destruct (eventQueue eng) as [|h rest] eqn:Hq.
  - rewrite app_nil_r. destruct fuel; simpl; auto.
  - destruct (IH _ Hwf') as [Hd Hi]; simpl; auto; [simpl in Hlen; lia|].
    simpl in Hd. rewrite Hd, <- app_assoc. auto.
Qed.







End PriorityOrder.

(** ** Reaction pipeline *)

Module Tameness.
Import Types JsString AgentManager.
Local Open Scope manager_scope.

Lemma sameBookkeeping_refl (m : Manager) : sameBookkeeping m m.
Proof. repeat split. Qed.

Lemma sameBookkeeping_trans (m1 m2 m3 : Manager) :
  sameBookkeeping m1 m2 -> sameBookkeeping m2 m3 -> sameBookkeeping m1 m3.
Proof.
  intros (A1 & A2 & A3 & A4 & A5) (B1 & B2 & B3 & B4 & B5).
  repeat split; congruence.
Qed.

Lemma tame_weaken {A} (n n' : nat) (c : M A) :
  (n <= n')%nat -> tame n c -> tame n' c.
Proof.
  intros Hle Hc w m. destruct (Hc w m) as (new & H1 & H2 & H3 & H4).
  exists new. repeat split; try assumption; try apply H2. lia.
Qed.

Lemma tame_ret {A} (a : A) : tame 0 (ret a).
Proof.
  intros w m. exists []. simpl. rewrite app_nil_r.
  repeat split; auto.
Qed.

Lemma tame_throw {A} (e : JsError) : tame 0 (@throw A e).
Proof.
  intros w m. exists []. simpl. rewrite app_nil_r.
  repeat split; auto.
Qed.

Lemma tame_getManager : tame 0 getManager.
Proof.
  intros w m. exists []. simpl. rewrite app_nil_r.
  repeat split; auto.
Qed.

Lemma tame_seq {B} (n1 n2 : nat) (w : World) (m m1 : Manager)
    (new1 : list Observed) (c2 : M B) :
  trace m1 = trace m ++ new1 ->
  sameBookkeeping m m1 ->
  Forall (fun o => processedThen o = processedTweetIds m) new1 ->
  (length (List.filter (fun o => isReactionCall (call o)) new1) <= n1)%nat ->
  tame n2 c2 ->
  exists new,
    trace (snd (c2 w m1)) = trace m ++ new /\
    sameBookkeeping m (snd (c2 w m1)) /\
    Forall (fun o => processedThen o = processedTweetIds m) new /\
    (length (List.filter (fun o => isReactionCall (call o)) new)
       <= n1 + n2)%nat.
Proof.
  intros Ht Hs Hf Hn Hc2.
  destruct (Hc2 w m1) as (new2 & G1 & G2 & G3 & G4).
  exists (new1 ++ new2). split; [|split; [|split]].
  - rewrite G1, Ht, app_assoc. reflexivity.
  - eapply sameBookkeeping_trans; eassumption.
  - apply Forall_app. split; [exact Hf|].
    destruct Hs as (Hp & _). rewrite Hp in G3. exact G3.
  - rewrite List.filter_app, length_app. lia.
Qed.

Lemma tame_bind {A B} (n1 n2 : nat) (c : M A) (k : A -> M B) :
  tame n1 c -> (forall a, tame n2 (k a)) -> tame (n1 + n2) (bind c k).
Proof.
  intros Hc Hk w m. destruct (Hc w m) as (new1 & H1 & H2 & H3 & H4).
  unfold bind. destruct (c w m) as [[a|e] m1]; simpl in *.
  - eapply (tame_seq n1 n2 w m m1); eauto.
  - exists new1. repeat split; try assumption; try apply H2. lia.
Qed.

Lemma tame_tryCatch {A} (n1 n2 : nat) (c : M A) (h : JsError -> M A) :
  tame n1 c -> (forall e, tame n2 (h e)) -> tame (n1 + n2) (tryCatch c h).
Proof.
  intros Hc Hh w m. destruct (Hc w m) as (new1 & H1 & H2 & H3 & H4).
  unfold tryCatch. destruct (c w m) as [[a|e] m1]; simpl in *.
  - exists new1. repeat split; try assumption; try apply H2. lia.
  - eapply (tame_seq n1 n2 w m m1); eauto.
Qed.

Lemma tame_extern {A} (c : Call) (answer : World -> list Observed -> Result A) :
  tame (if isReactionCall c then 1 else 0) (extern c answer).
Proof.
  intros w m. exists [mkObserved c (processedTweetIds m)].
  unfold extern. destruct (answer w (trace m)); simpl;
    (split; [reflexivity|]; split; [repeat split|]; split;
     [repeat constructor|destruct (isReactionCall c); simpl; lia]).
Qed.

Lemma tame_ask {A} (c : Call) (answer : World -> list Observed -> A) :
  tame (if isReactionCall c then 1 else 0) (ask c answer).
Proof. apply tame_extern. Qed.

Lemma tame_modify (f : Manager -> Manager) :
  (forall m, trace (f m) = trace m /\ sameBookkeeping m (f m)) ->
  tame 0 (modify f).
Proof.
  intros Hf w m. exists []. simpl. rewrite app_nil_r.
  destruct (Hf m) as [Ht Hs]. repeat split; auto; apply Hs.
Qed.


Create HintDb tame.

Ltac tame_base :=
  first
    [ exact (tame_ret _) | exact (tame_throw _) | exact tame_getManager
    | match goal with
      | |- tame _ (ask ?c ?f) => exact (tame_ask c f)
      | |- tame _ (extern ?c ?f) => exact (tame_extern c f)
      end
    | solve [auto with tame] ].

Ltac tame_leaf :=
  first [ tame_base | apply (tame_weaken 0 1); [lia|tame_base] ].

Ltac tame_go :=
  cbv beta;
  lazymatch goal with
  | |- tame _ (if ?b then _ else _) => destruct b; tame_go
  | |- tame _ (match ?x with _ => _ end) => destruct x; tame_go
  | |- tame 0%nat (bind _ _) =>
      apply (tame_bind 0 0); [tame_go|intros; tame_go]
  | |- tame 0%nat (tryCatch _ _) =>
      apply (tame_tryCatch 0 0); [tame_go|intros; tame_go]
  | |- tame 1%nat (bind _ _) =>
      first [ apply (tame_bind 0 1); [solve [tame_go]|intros; tame_go]
            | apply (tame_bind 1 0); [tame_go|intros; solve [tame_go]] ]
  | |- tame 1%nat (tryCatch _ _) =>
      first [ apply (tame_tryCatch 0 1); [solve [tame_go]|intros; tame_go]
            | apply (tame_tryCatch 1 0); [tame_go|intros; solve [tame_go]] ]
  | |- _ => tame_leaf
  end.

Lemma getAgent_tame (agentId : string) : tame 0 (getAgent agentId).
Proof. unfold getAgent. tame_go. Qed.
#[export] Hint Resolve getAgent_tame : tame.

Lemma drawNextPostInterval_tame (agent : Agent) :
  tame 0 (drawNextPostInterval agent).
Proof. unfold drawNextPostInterval. tame_go. Qed.
#[export] Hint Resolve drawNextPostInterval_tame : tame.

Lemma withNextPostTimes_tame (f : gmap string Z -> gmap string Z) :
  tame 0 (modify (withNextPostTimes f)).
Proof. apply tame_modify. intros m. repeat split. Qed.
#[export] Hint Resolve withNextPostTimes_tame : tame.

Lemma withAgents_tame (f : gmap string Agent -> gmap string Agent) :
  tame 0 (modify (withAgents f)).
Proof. apply tame_modify. intros m. repeat split. Qed.
#[export] Hint Resolve withAgents_tame : tame.

Lemma scheduleNextPost_tame (agentId : string) :
  tame 0 (scheduleNextPost agentId).
Proof. unfold scheduleNextPost. tame_go. Qed.
#[export] Hint Resolve scheduleNextPost_tame : tame.

Lemma createAgentPost_tame (agentId : string) (options : PostOptions) :
  tame 1 (createAgentPost agentId options).
Proof. unfold createAgentPost. tame_go. Qed.
#[export] Hint Resolve createAgentPost_tame : tame.

Lemma getTime_tame (createdAt : option Z) : tame 0 (getTime createdAt).
Proof. unfold getTime. tame_go. Qed.
#[export] Hint Resolve getTime_tame : tame.

Lemma fetchThread_tame (remaining : nat) (tweetId : string)
    (history : list HistoryEntry) (agentId : string) :
  tame 0 (fetchThread remaining tweetId history agentId).
Proof.
  revert tweetId history.
  induction remaining as [|remaining IH]; intros tweetId history; simpl.
  - tame_go.
  - apply (tame_tryCatch 0 0); [|intros; tame_go].
    apply (tame_bind 0 0); [tame_go|intros tweet].
    apply (tame_bind 0 0); [tame_go|intros time].
    cbv beta. destruct (truthy (replyToId tweet)); [apply IH|tame_go].
Qed.

Lemma fetchConversationThread_tame (tweetId : string)
    (history : list HistoryEntry) (agentId : string) (depth maxDepth : nat) :
  tame 0 (fetchConversationThread tweetId history agentId depth maxDepth).
Proof. apply fetchThread_tame. Qed.
#[export] Hint Resolve fetchConversationThread_tame : tame.

Lemma createdAtOrNow_tame (tweet : Tweet) : tame 0 (createdAtOrNow tweet).
Proof. unfold createdAtOrNow. tame_go. Qed.
#[export] Hint Resolve createdAtOrNow_tame : tame.

Lemma updateAgentRelationship_tame (agentId targetAgentId : string) :
  tame 0 (updateAgentRelationship agentId targetAgentId).
Proof. unfold updateAgentRelationship. tame_go. Qed.
#[export] Hint Resolve updateAgentRelationship_tame : tame.

Lemma detached_tame {A} (n : nat) (c : M A) :
  tame n c -> tame n (detached c).
Proof.
  intros Hc. unfold detached.
  replace n with ((n + 0) + 0)%nat by lia.
  apply tame_tryCatch; [|intros; apply tame_ret].
  apply tame_bind; [exact Hc|intros; apply tame_ret].
Qed.

Lemma mentionPath_tame (agentId : string) (tweet : Tweet) :
  tame 1 (mentionPath agentId tweet).
Proof.
  unfold mentionPath.
  apply (tame_bind 0 1).
  - tame_go.
  - intros [hasContext tweet']. tame_go.
Qed.
#[export] Hint Resolve mentionPath_tame : tame.

Lemma ensureReplyContext_tame (agentId : string) (tweet : Tweet) :
  tame 0 (ensureReplyContext agentId tweet).
Proof. unfold ensureReplyContext. tame_go. Qed.
#[export] Hint Resolve ensureReplyContext_tame : tame.

Lemma reactionPath_tame (agent : Agent) (agentId : string) (tweet : Tweet) :
  tame 1 (reactionPath agent agentId tweet).
Proof.
  unfold reactionPath.
  apply (tame_bind 0 1); [tame_go|intros suggested].
  apply (tame_bind 0 1); [tame_go|intros action].
  destruct action; try tame_go.
  apply (tame_bind 0 1); [tame_go|intros r].
  destruct (Qlt_le_dec _ _); [tame_go|].
  apply (tame_bind 1 0); [tame_go|intros _].
  apply (tame_bind 0 0); [|intros; tame_go].
  apply detached_tame. tame_go.
Qed.
#[export] Hint Resolve reactionPath_tame : tame.

End Tameness.

(** ** Reaction pipeline: self-mentions and duplicates *)

Section ReactionPipeline.
Import Types JsString AgentManager Tameness.
Local Open Scope manager_scope.

Lemma tryCatch_rethrow {A} (c : M A) (w : World) (m : Manager) :
  tryCatch c (fun error => throw error) w m = c w m.
Proof.
  unfold tryCatch, throw. destruct (c w m) as [[a|e] m']; reflexivity.
Qed.

(** The first part of [processAgentReaction], case by case. *)
Lemma processAgentReaction_cases (w : World) (m : Manager)
    (agentId : string) (tweet : Tweet) :
  match agents m !! agentId with
  | None =>
      processAgentReaction agentId tweet w m
      = (Thrown (mkJsError None [] ("Agent not found: " ++ agentId)), m)
  | Some agent =>
      if isSelfMention agentId (usernameSeen w m agentId) tweet
      then processAgentReaction agentId tweet w m
           = (Returned None, afterMe agentId m)
      else if existsb (String.eqb (tweet_id tweet)) (processedTweetIds m)
      then processAgentReaction agentId tweet w m
           = (Returned None, afterMe agentId m)
      else processAgentReaction agentId tweet w m
           = (if isMention agent agentId tweet
              then mentionPath agentId tweet
              else reactionPath agent agentId tweet) w
               (withProcessedTweetIds (fun ids => ids ++ [tweet_id tweet])
                  (afterMe agentId m))
  end.
Proof.
  unfold processAgentReaction. rewrite tryCatch_rethrow.
  unfold usernameSeen, afterMe.
  cbv beta iota zeta delta [bind getAgent getManager ret throw tryCatch
                            extern modify].
  destruct (agents m !! agentId) as [agent|]; [|reflexivity].
  destruct (me w (trace m) agentId) as [u|e]; cbv beta iota zeta;
    (destruct (isSelfMention _ _ tweet); [reflexivity|]);
    (change (processedTweetIds (withTrace _ m)) with (processedTweetIds m);
     destruct (existsb _ (processedTweetIds m)); [reflexivity|]);
    destruct (isMention agent agentId tweet); reflexivity.
Qed.


Lemma callsOf_new {A} (c : M A) (w : World) (m : Manager)
    (new : list Observed) :
  trace (snd (c w m)) = trace m ++ new -> callsOf c w m = new.
Proof.
  intros H. unfold callsOf. rewrite H.
  rewrite List.skipn_app, List.skipn_all, Nat.sub_diag. reflexivity.
Qed.

Lemma existsb_eqb_In (id : string) (ids : list string) :
  existsb (String.eqb id) ids = true <-> In id ids.
Proof.
  rewrite existsb_exists. split.
  - intros (x & Hx & Heq). apply String.eqb_eq in Heq. now subst.
  - intros H. exists id. split; [exact H|apply String.eqb_refl].
Qed.

Lemma toLowerCase_nonempty (s : string) :
  s <> EmptyString -> toLowerCase s <> EmptyString.
Proof. destruct s; simpl; [congruence|discriminate]. Qed.

Lemma truthy_nonempty (s : string) :
  s <> EmptyString -> truthy (Some s) = Some s.
Proof.
  intros H. unfold truthy. destruct (String.eqb_spec s ""); congruence.
Qed.

(** What one delivery does to the manager and which calls it makes:
    either the store is untouched and there is no reaction, or the
    identifier is appended to the store before every later call, and
    at most one of these is a reaction. *)
Lemma processAgentReaction_summary (w : World) (m : Manager)
    (agentId : string) (tweet : Tweet) :
  let m' := snd (processAgentReaction agentId tweet w m) in
  exists new,
    trace m' = trace m ++ new /\
    apiErrorCounts m' = apiErrorCounts m /\
    apiCooldowns m' = apiCooldowns m /\
    lastMentionId m' = lastMentionId m /\
    agentUsername m' = agentUsername m /\
    ((processedTweetIds m' = processedTweetIds m /\
      Forall (fun o => isReactionCall (call o) = false) new) \/
     (~ In (tweet_id tweet) (processedTweetIds m) /\
      processedTweetIds m' = processedTweetIds m ++ [tweet_id tweet] /\
      Forall (fun o => isReactionCall (call o) = true ->
                       In (tweet_id tweet) (processedThen o)) new /\
      (length (List.filter (fun o => isReactionCall (call o)) new) <= 1)%nat)).
Proof.
  intros m'. subst m'.
  pose proof (processAgentReaction_cases w m agentId tweet) as Hc.
  destruct (agents m !! agentId) as [agent|].
  2:{ rewrite Hc. exists []. simpl. rewrite app_nil_r.
      do 5 (split; [reflexivity|]). left. split; [reflexivity|constructor]. }
  destruct (isSelfMention agentId (usernameSeen w m agentId) tweet).
  { rewrite Hc. eexists. simpl. do 5 (split; [reflexivity|]).
    left. split; [reflexivity|]. repeat constructor. }
  destruct (existsb (String.eqb (tweet_id tweet)) (processedTweetIds m))
    eqn:Hdup.
  { rewrite Hc. eexists. simpl. do 5 (split; [reflexivity|]).
    left. split; [reflexivity|]. repeat constructor. }
  rewrite Hc.
  set (m2 := withProcessedTweetIds _ (afterMe agentId m)).
  assert (Htame : tame 1 (if isMention agent agentId tweet
                          then mentionPath agentId tweet
                          else reactionPath agent agentId tweet))
    by (destruct (isMention agent agentId tweet); auto with tame).
  destruct (Htame w m2) as (new & H1 & (B1 & B2 & B3 & B4 & B5) & H3 & H4).
  exists (mkObserved (CMe agentId) (processedTweetIds m) :: new).
  rewrite H1, B1, B2, B3, B4, B5. simpl.
  split; [now rewrite <- app_assoc|]. repeat split.
  right. split.
  { intros Hin. apply existsb_eqb_In in Hin. congruence. }
  split; [reflexivity|]. split.
  - constructor; [discriminate|].
    eapply List.Forall_impl; [|exact H3]. intros o Ho _.
    rewrite Ho. simpl. apply in_or_app. right. now left.
  - exact H4.
Qed.


Lemma detached_run {A} (c : M A) (w : World) (m : Manager) :
  detached c w m = (Returned tt, snd (c w m)).
Proof.
  unfold detached, tryCatch, bind, ret.
  destruct (c w m) as [[a|e] m']; reflexivity.
Qed.

(** A dropped delivery: nothing but the call of [v2.me()] happens. *)
Lemma dropped_delivery (w : World) (m : Manager) (agentId : string)
    (tweet : Tweet) :
  processAgentReaction agentId tweet w m = (Returned None, afterMe agentId m) ->
  processedTweetIds (snd (processAgentReaction agentId tweet w m))
    = processedTweetIds m /\
  map call (callsOf (processAgentReaction agentId tweet) w m)
    = [CMe agentId] /\
  reactionsOf (processAgentReaction agentId tweet) w m = [].
Proof.
  intros H. unfold reactionsOf.
  rewrite (callsOf_new _ w m [mkObserved (CMe agentId) (processedTweetIds m)])
    by (rewrite H; reflexivity).
  rewrite H. repeat split.
Qed.

(** C10: a self-mention is dropped before the de-duplication store is
    touched.  (1) When the self-mention test holds for a tweet, the
    delivery returns [null] and the manager is as before, but for the
    observed call of [v2.me()]: the identifier is not inserted, no
    memory update is issued, nothing else changes.  (2) Whenever a
    delivery adds an identifier to the store, the tweet has passed
    the self-mention test. *)
Theorem self_check_precedes_dedup_insertion :
  (forall (w : World) (m : Manager) (agentId : string) (tweet : Tweet)
          (agent : Agent),
     agents m !! agentId = Some agent ->
     isSelfMention agentId (usernameSeen w m agentId) tweet = true ->
     processAgentReaction agentId tweet w m
       = (Returned None, afterMe agentId m) /\
     processedTweetIds (snd (processAgentReaction agentId tweet w m))
       = processedTweetIds m /\
     map call (callsOf (processAgentReaction agentId tweet) w m)
       = [CMe agentId]) /\
  (forall (w : World) (m : Manager) (agentId : string) (tweet : Tweet),
     ~ In (tweet_id tweet) (processedTweetIds m) ->
     In (tweet_id tweet)
        (processedTweetIds (snd (processAgentReaction agentId tweet w m))) ->
     exists agent,
       agents m !! agentId = Some agent /\
       isSelfMention agentId (usernameSeen w m agentId) tweet = false).
Proof.
  split.
  - intros w m agentId tweet agent Hagent Hself.
    pose proof (processAgentReaction_cases w m agentId tweet) as Hc.
    rewrite Hagent, Hself in Hc. split; [exact Hc|].
    destruct (dropped_delivery w m agentId tweet Hc) as (H1 & H2 & _).
    split; assumption.
  - intros w m agentId tweet Hnot Hin.
    pose proof (processAgentReaction_cases w m agentId tweet) as Hc.
    destruct (agents m !! agentId) as [agent|].
    + exists agent. split; [reflexivity|].
      destruct (isSelfMention agentId (usernameSeen w m agentId) tweet);
        [|reflexivity].
      rewrite Hc in Hin. simpl in Hin. contradiction.
    + rewrite Hc in Hin. simpl in Hin. contradiction.
Qed.

(** [bot1] is handed a tweet it wrote itself, and a mention by
    another user. *)
Lemma self_check_precedes_dedup_insertion_witness :
  processedTweetIds
    (snd (processAgentReaction "bot1" Scenario.selfAuthoredTweet
            (Scenario.calmWorld ActLike 0) Scenario.oneAgent)) = [] /\
  isSelfMention "bot1"
    (usernameSeen (Scenario.calmWorld ActLike 0) Scenario.oneAgent "bot1")
    Scenario.mentionOfBot1 = false.
Proof.
  split.
  - refine (proj1 (proj2 (proj1 self_check_precedes_dedup_insertion
              (Scenario.calmWorld ActLike 0) Scenario.oneAgent "bot1"
              Scenario.selfAuthoredTweet Scenario.bot1 _ _))).
    + vm_compute. reflexivity.
    + vm_compute. reflexivity.
  - destruct (proj2 self_check_precedes_dedup_insertion
                (Scenario.calmWorld ActLike 0) Scenario.oneAgent "bot1"
                Scenario.mentionOfBot1) as (agent & _ & Hself).
    + vm_compute. intros H; exact H.
    + vm_compute. left. reflexivity.
    + exact Hself.
Defined.


(** C3 (as the code has it): a tweet whose [authorId] is the agent's
    identifier, or, provided the call of [v2.me()] succeeded and both
    screen names are non-empty, a tweet whose author's screen name
    equals the agent's up to case, makes [processAgentReaction] of a
    registered agent return [null] without any post or like. *)
Theorem self_mention_immunity (w : World) (m : Manager) (agentId : string)
    (tweet : Tweet) (agent : Agent) :
  agents m !! agentId = Some agent ->
  (authorId tweet = agentId \/
   (meFails w (trace m) agentId = None /\
    exists a,
      authorUsername tweet = Some a /\ a <> EmptyString /\
      username w agentId <> EmptyString /\
      toLowerCase a = toLowerCase (username w agentId))) ->
  fst (processAgentReaction agentId tweet w m) = Returned None /\
  reactionsOf (processAgentReaction agentId tweet) w m = [] /\
  processedTweetIds (snd (processAgentReaction agentId tweet w m))
    = processedTweetIds m.
Proof.
  intros Hagent Hself.
  assert (Hs : isSelfMention agentId (usernameSeen w m agentId) tweet = true).
  { unfold isSelfMention. destruct Hself as [<-|(Hme & a & Ha & Hne & Hu & Heq)].
    - now rewrite String.eqb_refl.
    - apply orb_true_iff. right.
      unfold usernameSeen, me. rewrite Hme, Ha.
      rewrite (truthy_nonempty _ (toLowerCase_nonempty _ Hu)).
      rewrite (truthy_nonempty _ Hne). rewrite Heq. apply String.eqb_refl. }
  pose proof (processAgentReaction_cases w m agentId tweet) as Heq.
  rewrite Hagent, Hs in Heq.
  destruct (dropped_delivery w m agentId tweet Heq) as (Hp & _ & Hr).
  rewrite Heq at 1. auto.
Qed.

(** The call of [v2.me()] succeeds and gives "Bot1"; the author of the
    tweet is "Bot1" too, under the network's numeric identifier. *)
Lemma self_mention_immunity_witness :
  fst (processAgentReaction "bot1" Scenario.ownTweet
         (Scenario.calmWorld ActLike 0) Scenario.oneAgent) = Returned None.
Proof.
  refine (proj1 (self_mention_immunity (Scenario.calmWorld ActLike 0)
                   Scenario.oneAgent "bot1" Scenario.ownTweet Scenario.bot1
                   _ _)).
  - vm_compute. reflexivity.
  - right. split; [reflexivity|]. exists "Bot1"%string.
    repeat split; try discriminate.
Defined.

(** C3 as stated fails when the call of [v2.me()] fails: the agent
    then replies to a tweet of its own account. *)
Lemma own_tweet_answered_when_me_fails :
  agents Scenario.oneAgent !! "bot1"%string = Some Scenario.bot1 /\
  authorUsername Scenario.ownTweet = Some "Bot1"%string /\
  toLowerCase "Bot1" = toLowerCase (username Scenario.worldWithoutMe "bot1") /\
  fst (processAgentReaction "bot1" Scenario.ownTweet
         Scenario.worldWithoutMe Scenario.oneAgent)
    = Returned (Some (Posted "hello there" "bot1" (Some "p1"%string))) /\
  map call (reactionsOf (processAgentReaction "bot1" Scenario.ownTweet)
              Scenario.worldWithoutMe Scenario.oneAgent)
    = [CPostTweet "bot1" "hello there" (Some "t2"%string)].
Proof. vm_compute. repeat split. Qed.


Lemma deliverAll_cons (d : string * Tweet) (ds : list (string * Tweet))
    (w : World) (m : Manager) :
  deliverAll (d :: ds) w m
  = deliverAll ds w (snd (processAgentReaction (fst d) (snd d) w m)).
Proof.
  unfold deliverAll. simpl. unfold bind at 1. rewrite detached_run.
  reflexivity.
Qed.

(** Deliveries of one identifier, one after the other: at most one of
    all the calls they make is a reaction, and none is when the
    identifier is in the store at the start. *)
Lemma deliverAll_summary (id : string) (deliveries : list (string * Tweet)) :
  Forall (fun d => tweet_id (snd d) = id) deliveries ->
  forall (w : World) (m : Manager),
  exists new,
    trace (snd (deliverAll deliveries w m)) = trace m ++ new /\
    (length (List.filter (fun o => isReactionCall (call o)) new) <= 1)%nat /\
    (In id (processedTweetIds m) ->
     List.filter (fun o => isReactionCall (call o)) new = []).
Proof.
  induction 1 as [|d ds Hd _ IH]; intros w m.
  - exists []. simpl. rewrite app_nil_r. repeat split; auto.
  - rewrite deliverAll_cons.
    destruct (processAgentReaction_summary w m (fst d) (snd d))
      as (new1 & T1 & _ & _ & _ & _ & Hcase).
    cbv zeta in T1, Hcase. rewrite Hd in Hcase.
    set (m1 := snd (processAgentReaction (fst d) (snd d) w m)) in *.
    destruct (IH w m1) as (new2 & T2 & L2 & E2).
    exists (new1 ++ new2). rewrite T2, T1, app_assoc.
    split; [reflexivity|]. rewrite List.filter_app, length_app.
    destruct Hcase as [(Hp & Hnone)|(Hnot & Hp & _ & L1)].
    + assert (F1 : List.filter (fun o => isReactionCall (call o)) new1 = []).
      { clear -Hnone. induction Hnone as [|o l Ho _ IHl]; simpl; auto.
        now rewrite Ho. }
      rewrite F1. simpl. split; [exact L2|].
      intros Hin. apply E2. now rewrite Hp.
    + rewrite E2 by (rewrite Hp; apply in_or_app; right; now left).
      simpl. rewrite Nat.add_0_r, app_nil_r. split; [exact L1|].
      intros Hin. contradiction.
Qed.

(** C2: processing an identifier twice.  (1) A delivery of a tweet
    whose identifier is in the store returns [null], makes no post and
    no like, and leaves the store as it is.  (2) A delivery that is
    not dropped as a self-mention leaves the identifier in the store,
    whatever its outcome.  (3) Whenever a delivery posts or likes, the
    identifier was in the store when that call was made.  (4) Over any
    sequence of deliveries of one identifier, to whichever agents, at
    most one post or like is made. *)
Theorem duplicate_delivery_is_dropped :
  (forall (w : World) (m : Manager) (agentId : string) (tweet : Tweet)
          (agent : Agent),
     agents m !! agentId = Some agent ->
     In (tweet_id tweet) (processedTweetIds m) ->
     fst (processAgentReaction agentId tweet w m) = Returned None /\
     reactionsOf (processAgentReaction agentId tweet) w m = [] /\
     processedTweetIds (snd (processAgentReaction agentId tweet w m))
       = processedTweetIds m) /\
  (forall (w : World) (m : Manager) (agentId : string) (tweet : Tweet)
          (agent : Agent),
     agents m !! agentId = Some agent ->
     isSelfMention agentId (usernameSeen w m agentId) tweet = false ->
     In (tweet_id tweet)
        (processedTweetIds (snd (processAgentReaction agentId tweet w m)))) /\
  (forall (w : World) (m : Manager) (agentId : string) (tweet : Tweet),
     Forall (fun o => isReactionCall (call o) = true ->
                      In (tweet_id tweet) (processedThen o))
       (callsOf (processAgentReaction agentId tweet) w m)) /\
  (forall (w : World) (m : Manager) (id : string)
          (deliveries : list (string * Tweet)),
     Forall (fun d => tweet_id (snd d) = id) deliveries ->
     (length (reactionsOf (deliverAll deliveries) w m) <= 1)%nat).
Proof.
  split; [|split; [|split]].
  - intros w m agentId tweet agent Hagent Hin.
    pose proof (processAgentReaction_cases w m agentId tweet) as Heq.
    rewrite Hagent in Heq. apply existsb_eqb_In in Hin. rewrite Hin in Heq.
    assert (Heq' : processAgentReaction agentId tweet w m
                   = (Returned None, afterMe agentId m))
      by (destruct (isSelfMention _ _ tweet); exact Heq).
    destruct (dropped_delivery w m agentId tweet Heq') as (Hp & _ & Hr).
    rewrite Heq' at 1. auto.
  - intros w m agentId tweet agent Hagent Hself.
    pose proof (processAgentReaction_cases w m agentId tweet) as Heq.
    rewrite Hagent, Hself in Heq.
    destruct (existsb (String.eqb (tweet_id tweet)) (processedTweetIds m))
      eqn:Hdup.
    + rewrite Heq. simpl. now apply existsb_eqb_In.
    + destruct (processAgentReaction_summary w m agentId tweet)
        as (new & _ & _ & _ & _ & _ & [(Hp & _)|(_ & Hp & _)]).
      * exfalso. rewrite Heq in Hp.
        assert (Htame : tame 1 (if isMention agent agentId tweet
                                then mentionPath agentId tweet
                                else reactionPath agent agentId tweet))
          by (destruct (isMention agent agentId tweet); auto with tame).
        destruct (Htame w (withProcessedTweetIds
                             (fun ids => ids ++ [tweet_id tweet])
                             (afterMe agentId m)))
          as (new' & _ & (B1 & _) & _).
        rewrite B1 in Hp. simpl in Hp.
        apply (f_equal (@length string)) in Hp.
        rewrite length_app in Hp. simpl in Hp. lia.
      * cbv zeta in Hp. rewrite Hp. apply in_or_app. right. now left.
  - intros w m agentId tweet.
    destruct (processAgentReaction_summary w m agentId tweet)
      as (new & T & _ & _ & _ & _ & Hcase).
    rewrite (callsOf_new _ w m new T).
    destruct Hcase as [(_ & Hnone)|(_ & _ & Hall & _)]; [|exact Hall].
    eapply List.Forall_impl; [|exact Hnone].
    intros o Ho Hr. congruence.
  - intros w m id deliveries Hall.
    destruct (deliverAll_summary id deliveries Hall w m) as (new & T & L & _).
    unfold reactionsOf. now rewrite (callsOf_new _ w m new T).
Qed.

(** A mention is delivered to [bot1] twice. *)
Lemma duplicate_delivery_is_dropped_witness :
  let w := Scenario.calmWorld ActLike 0 in
  let m1 := snd (processAgentReaction "bot1" Scenario.mentionOfBot1 w
                   Scenario.oneAgent) in
  In "t1"%string (processedTweetIds m1) /\
  fst (processAgentReaction "bot1" Scenario.mentionOfBot1 w m1)
    = Returned None /\
  (length (reactionsOf
             (deliverAll [("bot1"%string, Scenario.mentionOfBot1);
                          ("bot1"%string, Scenario.mentionOfBot1)])
             w Scenario.oneAgent) <= 1)%nat.
Proof.
  intros w m1.
  assert (Hin : In "t1"%string (processedTweetIds m1)).
  { refine (proj1 (proj2 duplicate_delivery_is_dropped) w Scenario.oneAgent
              "bot1"%string Scenario.mentionOfBot1 Scenario.bot1 _ _);
      vm_compute; reflexivity. }
  split; [exact Hin|]. split.
  - refine (proj1 (proj1 duplicate_delivery_is_dropped w m1 "bot1"%string
                     Scenario.mentionOfBot1
                     (setLastPostTime 1000000 Scenario.bot1) _ Hin)).
    vm_compute. reflexivity.
  - refine (proj2 (proj2 (proj2 duplicate_delivery_is_dropped)) w
              Scenario.oneAgent "t1"%string _ _).
    repeat constructor.
Defined.

End ReactionPipeline.

(** ** Conversation resolver *)

Section ConversationResolver.
Import Types JsString AgentManager.
Local Open Scope manager_scope.

Lemma withTrace_app (m : Manager) (new1 new2 : list Observed) :
  withTrace (fun t => t ++ new2) (withTrace (fun t => t ++ new1) m)
  = withTrace (fun t => t ++ (new1 ++ new2)) m.
Proof. unfold withTrace. simpl. now rewrite app_assoc. Qed.

Lemma insertHistory_length (e : HistoryEntry) (l : list HistoryEntry) :
  length (insertHistory e l) = S (length l).
Proof.
  induction l as [|x l IH]; simpl; [reflexivity|].
  destruct (historyBefore x e); simpl; [now rewrite IH|reflexivity].
Qed.

Lemma sortHistory_length (l : list HistoryEntry) :
  length (sortHistory l) = length l.
Proof.
  induction l as [|x l IH]; simpl; [reflexivity|].
  now rewrite insertHistory_length, IH.
Qed.

(** [fetchThread] returns on every world: it extends the history by at
    most [remaining] entries, one for each tweet it could fetch, and
    does nothing but fetch tweets. *)
Lemma fetchThread_returns (remaining : nat) :
  forall (tweetId : string) (history : list HistoryEntry) (agentId : string)
         (w : World) (m : Manager),
  exists (added : list HistoryEntry) (new : list Observed),
    fetchThread remaining tweetId history agentId w m
      = (Returned (history ++ added), withTrace (fun t => t ++ new) m) /\
    (length added <= length new)%nat /\
    (length new <= remaining)%nat /\
    Forall (fun o => exists id, call o = CGetTweet id) new /\
    (remaining <> O ->
     match getTweet w (trace m) tweetId with
     | Ok _ => True
     | Err _ => added = []
     end).
Proof.
  induction remaining as [|remaining IH]; intros tweetId history agentId w m.
  - exists [], []. simpl. unfold ret, withTrace. rewrite !app_nil_r.
    destruct m. repeat split; auto. congruence.
  - simpl.
    cbv beta iota zeta delta [tryCatch bind extern ret throw getTime].
    set (c := mkObserved (CGetTweet tweetId) (processedTweetIds m)).
    destruct (getTweet w (trace m) tweetId) as [tweet|e] eqn:Hget.
    2:{ exists [], [c]. rewrite app_nil_r. simpl.
        repeat split; auto; try lia. repeat constructor. now exists tweetId. }
    cbv beta iota zeta.
    destruct (createdAt tweet) as [time|].
    2:{ exists [], [c]. rewrite app_nil_r. simpl.
        repeat split; auto; try lia. repeat constructor. now exists tweetId. }
    cbv beta iota zeta.
    set (entry := mkHistoryEntry _ (content tweet) time).
    destruct (truthy (replyToId tweet)) as [parent|].
    + destruct (IH parent (history ++ [entry]) agentId w
                  (withTrace (fun t => t ++ [c]) m))
        as (added & new & Hrun & Hlen & Hnew & Hall & _).
      fold (withTrace (fun t => t ++ [c]) m). rewrite Hrun.
      exists (entry :: added), (c :: new).
      rewrite withTrace_app, <- app_assoc. simpl.
      repeat split; auto; try lia.
      constructor; [now exists tweetId|exact Hall].
    + exists [entry], [c]. simpl. repeat split; auto; try lia.
      repeat constructor. now exists tweetId.
Qed.


(** C6: conversation resolution is total and bounded by the depth.  On
    every world, so on every reply chain, however long or cyclic, and
    whichever fetches fail, [fetchConversationThread] returns and never
    throws; what it returns is the history it was given followed by at
    most [maxDepth - depth] entries (5 with the defaults), one for each
    tweet it could fetch; it makes at most that many calls, all of them
    fetches of a tweet, and changes nothing else; when the first fetch
    fails the history is returned as it was.  With the seed item the
    transcript of a mention has at most 6 entries. *)
Theorem conversation_resolution_is_bounded :
  forall (w : World) (m : Manager) (tweetId : string)
         (history : list HistoryEntry) (agentId : string)
         (depth maxDepth : nat) (seed : HistoryEntry),
  exists (added : list HistoryEntry) (new : list Observed),
    fetchConversationThread tweetId history agentId depth maxDepth w m
      = (Returned (history ++ added), withTrace (fun t => t ++ new) m) /\
    (length added <= maxDepth - depth)%nat /\
    (length new <= maxDepth - depth)%nat /\
    Forall (fun o => exists id, call o = CGetTweet id) new /\
    match getTweet w (trace m) tweetId with
    | Ok _ => True
    | Err _ => added = []
    end /\
    exists (added5 : list HistoryEntry) (new5 : list Observed),
      fetchConversationThread tweetId [] agentId 0 5 w m
        = (Returned added5, withTrace (fun t => t ++ new5) m) /\
      (length added5 <= 5)%nat /\
      (length (sortHistory added5 ++ [seed]) <= 6)%nat.
Proof.
  intros w m tweetId history agentId depth maxDepth seed.
  unfold fetchConversationThread.
  destruct (fetchThread_returns (maxDepth - depth) tweetId history agentId w m)
    as (added & new & Hrun & Hlen & Hnew & Hall & Hfail).
  exists added, new. split; [exact Hrun|]. split; [lia|].
  split; [exact Hnew|]. split; [exact Hall|]. split.
  - destruct (maxDepth - depth)%nat eqn:Hd.
    + assert (added = []) as ->.
      { destruct added; [reflexivity|]. simpl in Hlen. lia. }
      now destruct (getTweet w (trace m) tweetId).
    + apply Hfail. discriminate.
  - destruct (fetchThread_returns 5 tweetId [] agentId w m)
      as (added5 & new5 & Hrun5 & Hlen5 & Hnew5 & _).
    exists added5, new5. simpl in *. split; [exact Hrun5|].
    split; [lia|]. rewrite length_app, sortHistory_length. simpl. lia.
Qed.

(** On a chain with a cycle (A replies to B, B replies to A) the
    resolver stops after five fetches, with five entries. *)
Example cyclic_chain_yields_five_entries :
  exists entries,
    fst (fetchConversationThread "A" [] "bot1" 0 5 Scenario.cyclicWorld
           Scenario.oneAgent) = Returned entries /\
    length entries = 5%nat /\
    map call (callsOf (fetchConversationThread "A" [] "bot1" 0 5)
                Scenario.cyclicWorld Scenario.oneAgent)
      = [CGetTweet "A"; CGetTweet "B"; CGetTweet "A"; CGetTweet "B";
         CGetTweet "A"].
Proof. eexists. vm_compute. repeat split. Qed.

End ConversationResolver.

(** ** Behavior policy: the gate of quote tweets *)

Section QuoteDampening.
Import Types JsString AgentManager Tameness.
Local Open Scope manager_scope.

Lemma tooSoon_ignored (agent : Agent) (now : Z) (options : PostOptions) :
  ignoreTimeConstraint options = true -> tooSoon agent now options = false.
Proof.
  intros H. unfold tooSoon. rewrite H.
  destruct (lastPostTime agent); [|reflexivity].
  now rewrite andb_false_r.
Qed.

(** A suggested quote, step by step: the draw decides between [null]
    and [createAgentPost]. *)
Lemma suggested_quote_cases (w : World) (m : Manager) (agentId : string)
    (tweet : Tweet) (agent : Agent) :
  agents m !! agentId = Some agent ->
  isSelfMention agentId (usernameSeen w m agentId) tweet = false ->
  ~ In (tweet_id tweet) (processedTweetIds m) ->
  isMention agent agentId tweet = false ->
  generateReaction w (trace (atReaction agentId tweet m)) agent tweet
    = Ok ActQuote ->
  processAgentReaction agentId tweet w m
  = if Qlt_le_dec (quoteThreshold agent)
         (mathRandom w (trace (atQuoteDraw agentId tweet m)))
    then (Returned None, afterQuoteDraw agentId tweet m)
    else createAgentPost agentId (quoteOptions tweet) w
           (afterQuoteDraw agentId tweet m).
Proof.
  intros Hagent Hself Hnew Hmention Hquote.
  pose proof (processAgentReaction_cases w m agentId tweet) as Heq.
  rewrite Hagent, Hself, Hmention in Heq.
  destruct (existsb (String.eqb (tweet_id tweet)) (processedTweetIds m))
    eqn:Hdup; [apply existsb_eqb_In in Hdup; contradiction|].
  rewrite Heq. fold (atReaction agentId tweet m).
  unfold reactionPath.
  cbv beta iota zeta delta [bind extern ask ret].
  rewrite Hquote. cbv beta iota zeta.
  fold (atQuoteDraw agentId tweet m). unfold quoteThreshold.
  destruct (Qlt_le_dec _ _); reflexivity.
Qed.


(** [createAgentPost] does not read [options.quoteTweet], and of
    [options.task] only whether it is 'reply': the post of a quote
    tweet is the same computation as a tweet of the agent's own. *)
Lemma createAgentPost_ignores_quoteTweet (agentId : string) (tweet : Tweet) :
  createAgentPost agentId (quoteOptions tweet)
  = createAgentPost agentId unscheduledOptions.
Proof. reflexivity. Qed.

(** With a generator that answers, [createAgentPost] for a quote tweet
    generates a tweet without showing the generator the tweet to
    quote, and posts it with the options [{}]. *)
Lemma createAgentPost_quote_trace (w : World) (m : Manager)
    (agentId : string) (tweet : Tweet) (agent : Agent) :
  agents m !! agentId = Some agent ->
  (forall t prompt, exists text, generateTweet w t agent prompt = Ok text) ->
  exists postContent new,
    trace (snd (createAgentPost agentId (quoteOptions tweet) w m))
    = trace m ++
      [mkObserved CDateNow (processedTweetIds m);
       mkObserved (CGenerateTweet agentId
                     (if String.eqb agentId "coby-agent"
                      then customSystemPrompt agent else None))
         (processedTweetIds m);
       mkObserved (CPostTweet agentId postContent None) (processedTweetIds m)]
      ++ new.
Proof.
  intros Hagent Hgen.
  unfold createAgentPost. rewrite tryCatch_rethrow.
  cbv beta iota zeta delta [bind getAgent getManager ret throw extern ask
                            modify tryCatch replyTarget quoteOptions task].
  rewrite Hagent. cbv beta iota zeta.
  rewrite tooSoon_ignored by reflexivity.
  destruct (String.eqb agentId "coby-agent");
    (match goal with
     | |- context [generateTweet w ?t agent ?p] =>
         destruct (Hgen t p) as [text Htext]; rewrite Htext
     end);
    cbv beta iota zeta;
    (match goal with
     | |- context [postTweet w ?t ?a ?c ?r] => destruct (postTweet w t a c r)
     end);
    cbv beta iota zeta;
    (match goal with
     | |- context [scheduleNextPost agentId w ?mx] =>
         destruct (scheduleNextPost_tame agentId w mx) as (new & T & _);
         destruct (scheduleNextPost agentId w mx) as [[[]|err] m'']
     end);
    simpl in T |- *; rewrite T; do 2 eexists;
    rewrite <- !app_assoc; simpl; reflexivity.
Qed.

(** The gate of a suggested quote.  For a passive stimulus (a tweet
    that passes the self-mention and duplicate tests and is no mention)
    for which [generateReaction] answers 'quote', and with a content
    generator that answers: with a fresh draw of [Math.random] greater
    than [quoteTweetProbability * 0.5] the action becomes 'ignore',
    [null] is returned and nothing is posted or liked; with a draw of
    at most that bound (0.15 for [quoteTweetProbability = 0.3]) the
    delivery continues as [createAgentPost], which posts a tweet with
    the options [{}] whatever the tweet to quote is. *)
Lemma quote_gate (w : World) (m : Manager) (agentId : string)
    (tweet : Tweet) (agent : Agent) :
  agents m !! agentId = Some agent ->
  isSelfMention agentId (usernameSeen w m agentId) tweet = false ->
  ~ In (tweet_id tweet) (processedTweetIds m) ->
  isMention agent agentId tweet = false ->
  generateReaction w (trace (atReaction agentId tweet m)) agent tweet
    = Ok ActQuote ->
  (forall t prompt, exists text, generateTweet w t agent prompt = Ok text) ->
  let r := mathRandom w (trace (atQuoteDraw agentId tweet m)) in
  ((quoteThreshold agent < r)%Q ->
   processAgentReaction agentId tweet w m
     = (Returned None, afterQuoteDraw agentId tweet m) /\
   reactionsOf (processAgentReaction agentId tweet) w m = []) /\
  ((r <= quoteThreshold agent)%Q ->
   processAgentReaction agentId tweet w m
     = createAgentPost agentId unscheduledOptions w
         (afterQuoteDraw agentId tweet m) /\
   exists postContent new,
     map call (callsOf (processAgentReaction agentId tweet) w m)
     = [CMe agentId; CGenerateReaction agentId tweet; CMathRandom;
        CDateNow;
        CGenerateTweet agentId
          (if String.eqb agentId "coby-agent"
           then customSystemPrompt agent else None);
        CPostTweet agentId postContent None] ++ new) /\
  ((quoteTweetProbability (interactionPatterns (behavior agent)) == 3 # 10)%Q ->
   (quoteThreshold agent == 15 # 100)%Q).
Proof.
  intros Hagent Hself Hnew Hmention Hquote Hgen r.
  pose proof (suggested_quote_cases w m agentId tweet agent Hagent Hself Hnew
                Hmention Hquote) as Hrun.
  fold r in Hrun.
  set (pre := [mkObserved (CMe agentId) (processedTweetIds m);
               mkObserved (CGenerateReaction agentId tweet)
                 (processedTweetIds (atReaction agentId tweet m));
               mkObserved CMathRandom
                 (processedTweetIds (atReaction agentId tweet m))]).
  assert (Hpre : trace (afterQuoteDraw agentId tweet m) = trace m ++ pre)
    by (simpl; now rewrite <- !app_assoc).
  split; [|split].
  - intros Hlt. destruct (Qlt_le_dec (quoteThreshold agent) r) as [_|Hle];
      [|exfalso; lra].
    split; [exact Hrun|]. unfold reactionsOf.
    rewrite (callsOf_new _ w m pre) by now rewrite Hrun. reflexivity.
  - intros Hle. destruct (Qlt_le_dec (quoteThreshold agent) r) as [Hlt|_];
      [exfalso; lra|].
    split; [exact Hrun|].
    destruct (createAgentPost_quote_trace w (afterQuoteDraw agentId tweet m)
                agentId tweet agent Hagent Hgen)
      as (postContent & new & Htrace).
    exists postContent, (map call new).
    rewrite Hpre, <- app_assoc in Htrace.
    rewrite <- Hrun in Htrace. rewrite (callsOf_new _ w m _ Htrace).
    rewrite !map_app. reflexivity.
  - intros Hq. unfold quoteThreshold. rewrite Hq. reflexivity.
Qed.

(** C8 fails on the code: no quote is published.  [bot1], whose
    [quoteTweetProbability] is 0.3, is shown a tweet that is no mention
    and that the generator suggests to quote.  The draw 0.1 passes the
    gate ([0.1 <= 0.3 * 0.5]), as the claim has it; but the post that
    follows is an ordinary tweet: the text is generated without the
    tweet ([generateTweet(agent)]) and posted with the options [{}],
    the tweet to quote is passed to no call but [generateReaction], and
    the outcome is that of [createAgentPost] with no tweet to quote at
    all.  With the draw 0.2 nothing is posted. *)
Theorem suggested_quote_is_posted_as_plain_tweet :
  let w := Scenario.calmWorld ActQuote (1 # 10) in
  let m := Scenario.oneAgent in
  let tweet := Scenario.passiveTweet in
  isMention Scenario.bot1 "bot1" tweet = false /\
  generateReaction w (trace (atReaction "bot1" tweet m)) Scenario.bot1 tweet
    = Ok ActQuote /\
  (quoteThreshold Scenario.bot1 == 15 # 100)%Q /\
  (mathRandom w (trace (atQuoteDraw "bot1" tweet m))
     <= quoteThreshold Scenario.bot1)%Q /\
  fst (processAgentReaction "bot1" tweet w m)
    = Returned (Some (Posted "gm" "bot1" (Some "p1"))) /\
  map call (callsOf (processAgentReaction "bot1" tweet) w m)
    = [CMe "bot1"; CGenerateReaction "bot1" tweet; CMathRandom; CDateNow;
       CGenerateTweet "bot1" None; CPostTweet "bot1" "gm" None;
       CAddTweetToAgentMemory "bot1" "gm" (Some "p1") false;
       CMathRandom; CGetHours; CMathRandom; CMathRandom; CDateNow] /\
  processAgentReaction "bot1" tweet w m
    = createAgentPost "bot1" unscheduledOptions w
        (afterQuoteDraw "bot1" tweet m) /\
  reactionsOf (processAgentReaction "bot1" tweet)
    (Scenario.calmWorld ActQuote (2 # 10)) m = [].
Proof.
  intros w m tweet.
  assert (Hagent : agents m !! "bot1" = Some Scenario.bot1)
    by (vm_compute; reflexivity).
  assert (Hself : isSelfMention "bot1" (usernameSeen w m "bot1") tweet = false)
    by (vm_compute; reflexivity).
  assert (Hnew : ~ In (tweet_id tweet) (processedTweetIds m))
    by (vm_compute; intros H; exact H).
  assert (Hmention : isMention Scenario.bot1 "bot1" tweet = false)
    by (vm_compute; reflexivity).
  assert (Hquote : generateReaction w (trace (atReaction "bot1" tweet m))
                     Scenario.bot1 tweet = Ok ActQuote) by reflexivity.
  assert (Hdraw : (mathRandom w (trace (atQuoteDraw "bot1" tweet m))
                   <= quoteThreshold Scenario.bot1)%Q)
    by (vm_compute; discriminate).
  split; [exact Hmention|]. split; [exact Hquote|].
  split; [vm_compute; reflexivity|]. split; [exact Hdraw|].
  split; [vm_compute; reflexivity|]. split; [vm_compute; reflexivity|].
  split.
  - pose proof (suggested_quote_cases w m "bot1" tweet Scenario.bot1 Hagent
                  Hself Hnew Hmention Hquote) as Hrun.
    destruct (Qlt_le_dec _ _) as [Hlt|_] in Hrun;
      [exfalso; apply (Qlt_not_le _ _ Hlt), Hdraw|].
    exact Hrun.
  - vm_compute. reflexivity.
Qed.

End QuoteDampening.

(** ** API error back-off *)

Section Backoff.
Import Types JsString AgentManager Tameness.
Local Open Scope manager_scope.
Local Open Scope Z_scope.

(** C5 (as the code has it): while the clock is before the end of an
    agent's cooldown, a polling tick for that agent returns at once: it
    calls no collaborator but the clock, so not the API, and leaves the
    manager as it is; nothing is retried or queued. *)
Theorem cooldown_skips_polling (w : World) (m : Manager) (agentId : string)
    (cooldownEnd : Z) :
  apiCooldowns m !! agentId = Some cooldownEnd ->
  0 <= dateNow w (trace m) < cooldownEnd ->
  pollTick agentId w m
    = (Returned tt,
       withTrace (fun t => t ++ [mkObserved CDateNow (processedTweetIds m)]) m)
  /\ map call (callsOf (pollTick agentId) w m) = [CDateNow]
  /\ List.filter (fun o => isApiCall (call o)) (callsOf (pollTick agentId) w m)
     = [].
Proof.
  intros Hcool [Hnow Hlt].
  assert (Hin : inCooldown
                  (withTrace
                     (fun t => t ++ [mkObserved CDateNow (processedTweetIds m)])
                     m) agentId (dateNow w (trace m)) = true).
  { unfold inCooldown. simpl. rewrite Hcool.
    apply andb_true_iff. split; [|lia].
    apply negb_true_iff. lia. }
  assert (Hrun : pollTick agentId w m
                 = (Returned tt,
                    withTrace
                      (fun t => t ++ [mkObserved CDateNow (processedTweetIds m)])
                      m)).
  { unfold pollTick, pollBody.
    cbv beta iota zeta delta [tryCatch bind ask extern getManager ret].
    rewrite Hin. reflexivity. }
  split; [exact Hrun|].
  rewrite (callsOf_new _ w m [mkObserved CDateNow (processedTweetIds m)]);
    [split; reflexivity|now rewrite Hrun].
Qed.

(** [bot1] is polled at 1 000 000 during a cooldown until 2 000 000. *)
Lemma cooldown_skips_polling_witness :
  map call (callsOf (pollTick "bot1") (Scenario.calmWorld ActLike 0)
              Scenario.coolingDown) = [CDateNow].
Proof.
  refine (proj1 (proj2 (cooldown_skips_polling (Scenario.calmWorld ActLike 0)
                          Scenario.coolingDown "bot1" 2000000 _ _))).
  - vm_compute. reflexivity.
  - simpl. lia.
Defined.

(** C5 as stated fails for posting: [createAgentPost] does not look at
    the cooldown, and publishes during it. *)
Lemma post_created_during_cooldown :
  inCooldown Scenario.coolingDown "bot1"
    (dateNow (Scenario.calmWorld ActLike 0) (trace Scenario.coolingDown))
    = true /\
  fst (createAgentPost "bot1" noOptions (Scenario.calmWorld ActLike 0)
         Scenario.coolingDown)
    = Returned (Some (Posted "gm" "bot1" (Some "p1"%string))) /\
  map call (reactionsOf (createAgentPost "bot1" noOptions)
              (Scenario.calmWorld ActLike 0) Scenario.coolingDown)
    = [CPostTweet "bot1" "gm" None].
Proof. vm_compute. repeat split. Qed.


Lemma handleApiError_run (agentId : string) (error : JsError) (w : World)
    (m : Manager) :
  _handleApiError agentId error w m
  = (Returned tt, afterApiError agentId error (dateNow w (trace m)) m).
Proof. reflexivity. Qed.

Lemma feedErrors_count (agentId : string) (errors : list JsError) :
  forall (w : World) (m : Manager),
    default 0 (apiErrorCounts (snd (feedErrors agentId errors w m)) !! agentId)
    = default 0 (apiErrorCounts m !! agentId) + Z.of_nat (length errors).
Proof.
  induction errors as [|error errors IH]; intros w m.
  - simpl. lia.
  - unfold feedErrors in *. simpl forEach. unfold bind at 1.
    rewrite handleApiError_run. rewrite IH.
    unfold afterApiError. simpl. rewrite lookup_insert_eq. simpl. lia.
Qed.

Lemma keepsBackoff_tame {A} (n : nat) (c : M A) : tame n c -> keepsBackoff c.
Proof.
  intros Hc w m. destruct (Hc w m) as (new & _ & (_ & H1 & H2 & _) & _).
  split; assumption.
Qed.

Lemma keepsBackoff_bind {A B} (c : M A) (k : A -> M B) :
  keepsBackoff c -> (forall a, keepsBackoff (k a)) -> keepsBackoff (bind c k).
Proof.
  intros Hc Hk w m. unfold bind. destruct (Hc w m) as [H1 H2].
  destruct (c w m) as [[a|e] m1]; simpl in *; [|split; assumption].
  destruct (Hk a w m1) as [G1 G2]. split; congruence.
Qed.

Lemma keepsBackoff_processAgentReaction (agentId : string) (tweet : Tweet) :
  keepsBackoff (processAgentReaction agentId tweet).
Proof.
  intros w m. destruct (processAgentReaction_summary w m agentId tweet)
    as (new & _ & H1 & H2 & _). split; assumption.
Qed.

Lemma keepsBackoff_handleMention (agentId : string) (mention : Tweet) :
  keepsBackoff (handleMention agentId mention).
Proof.
  unfold handleMention. apply keepsBackoff_bind.
  - apply (keepsBackoff_tame 0). tame_go.
  - intros mention'. apply keepsBackoff_bind.
    + apply keepsBackoff_processAgentReaction.
    + intros _. apply (keepsBackoff_tame 0), tame_ret.
Qed.

Lemma keepsBackoff_forEach {A} (l : list A) (body : A -> M unit) :
  (forall x, keepsBackoff (body x)) -> keepsBackoff (forEach l body).
Proof.
  intros Hbody. induction l as [|x l IH]; simpl.
  - apply (keepsBackoff_tame 0), tame_ret.
  - apply keepsBackoff_bind; [apply Hbody|intros _; exact IH].
Qed.

Lemma saveProcessedTweets_tame : tame 0 saveProcessedTweets.
Proof. unfold saveProcessedTweets. tame_go. Qed.

(** When [getAgentMentions] answers, the counter of the agent is 0 from
    then to the end of the [try] block, whatever happens in it. *)
Lemma pollMentions_resets (w : World) (m : Manager) (agentId : string)
    (mentions : list Tweet) :
  getAgentMentions w (trace m) agentId (lastMentionId m !! agentId)
    = Ok mentions ->
  apiErrorCounts (snd (pollMentions agentId w m)) !! agentId = Some 0 /\
  apiCooldowns (snd (pollMentions agentId w m)) = apiCooldowns m.
Proof.
  intros Hok. unfold pollMentions.
  cbv beta iota zeta delta [bind extern getManager modify ret].
  rewrite Hok. cbv beta iota zeta.
  destruct mentions as [|newest rest].
  - simpl. now rewrite lookup_insert_eq.
  - match goal with
    | |- context [forEach ?l ?body ?w0 ?m0] =>
        destruct (keepsBackoff_forEach l body
                    (keepsBackoff_handleMention agentId) w0 m0) as [F1 F2];
        destruct (forEach l body w0 m0) as [[[]|e] m1]
    end; simpl in F1, F2.
    + destruct (keepsBackoff_tame 0 _ saveProcessedTweets_tame w m1)
        as [S1 S2].
      rewrite S1, S2, F1, F2. now rewrite lookup_insert_eq.
    + simpl. rewrite F1, F2. now rewrite lookup_insert_eq.
Qed.


Lemma backoffMinutes_ladder (n : Z) :
  (n = 1 -> backoffMinutes n = 1) /\ (n = 2 -> backoffMinutes n = 5) /\
  (n = 3 -> backoffMinutes n = 15) /\ (n = 4 -> backoffMinutes n = 30) /\
  (5 <= n -> backoffMinutes n = 60).
Proof.
  unfold backoffMinutes.
  repeat split; intros H;
    repeat match goal with
           | |- context [?a >=? ?b] => destruct (Z.geb_spec a b); try lia
           end.
Qed.

Lemma cooldownDuration_afterApiError (agentId : string) (error : JsError)
    (now : Z) (m : Manager) :
  cooldownDuration (afterApiError agentId error now m) agentId now
  = Some (minutes
            (let d := backoffMinutes
                        (default 0 (apiErrorCounts m !! agentId) + 1) in
             if isRateLimit error then Z.max d 15 else d)).
Proof.
  unfold cooldownDuration, afterApiError, minutes. simpl.
  rewrite lookup_insert_eq. f_equal. lia.
Qed.

(** C4: the back-off of API errors.  (1) The n-th of n consecutive
    errors of an agent sets the counter to n and a cooldown of 1, 5, 15,
    30 and 60 minutes for n = 1, 2, 3, 4 and n >= 5 when it is no
    rate-limit error, and of at least 15 minutes when it is one.
    (2) A rate-limit error (code 429, or an entry of [errors] with code
    88) sets a cooldown of at least 15 minutes whatever the counter is.
    (3) When a polling tick's call of [getAgentMentions] is answered,
    the counter is 0 from then to the end of the tick's [try] block.
    (4) After a polling tick that completes, the counter is 0 and the
    next error, if no rate-limit error, sets a cooldown of 1 minute. *)
Theorem backoff_escalation :
  (forall (w : World) (m : Manager) (agentId : string)
          (errors : list JsError) (error : JsError),
     default 0 (apiErrorCounts m !! agentId) = 0 ->
     let before := snd (feedErrors agentId errors w m) in
     let after := snd (_handleApiError agentId error w before) in
     let n := Z.of_nat (S (length errors)) in
     apiErrorCounts after !! agentId = Some n /\
     exists d,
       cooldownDuration after agentId (dateNow w (trace before))
         = Some (minutes d) /\
       (isRateLimit error = false ->
        (n = 1 -> d = 1) /\ (n = 2 -> d = 5) /\ (n = 3 -> d = 15) /\
        (n = 4 -> d = 30) /\ (5 <= n -> d = 60)) /\
       (isRateLimit error = true -> 15 <= d)) /\
  (forall (w : World) (m : Manager) (agentId : string) (error : JsError),
     isRateLimit error = true ->
     exists d,
       cooldownDuration (snd (_handleApiError agentId error w m)) agentId
         (dateNow w (trace m)) = Some (minutes d) /\
       15 <= d) /\
  (forall (w : World) (m : Manager) (agentId : string) (mentions : list Tweet),
     getAgentMentions w (trace m) agentId (lastMentionId m !! agentId)
       = Ok mentions ->
     apiErrorCounts (snd (pollMentions agentId w m)) !! agentId = Some 0) /\
  (forall (w : World) (m : Manager) (agentId u : string)
          (mentions : list Tweet) (error : JsError),
     inCooldown m agentId (dateNow w (trace m)) = false ->
     truthy (agentUsername m !! agentId) = Some u ->
     getAgentMentions w
       (trace m ++ [mkObserved CDateNow (processedTweetIds m)]) agentId
       (lastMentionId m !! agentId) = Ok mentions ->
     fst (pollBody agentId w m) = Returned tt ->
     isRateLimit error = false ->
     let polled := snd (pollTick agentId w m) in
     apiErrorCounts polled !! agentId = Some 0 /\
     cooldownDuration (snd (_handleApiError agentId error w polled)) agentId
       (dateNow w (trace polled)) = Some (minutes 1)).
Proof.
  split; [|split; [|split]].
  - intros w m agentId errors error Hzero before after n.
    subst after. rewrite handleApiError_run.
    pose proof (feedErrors_count agentId errors w m) as Hcount.
    fold before in Hcount. rewrite Hzero in Hcount.
    split.
    + unfold afterApiError. simpl. rewrite lookup_insert_eq, Hcount.
      f_equal. subst n. lia.
    + eexists. split; [apply cooldownDuration_afterApiError|].
      cbv zeta. rewrite Hcount.
      replace (0 + Z.of_nat (length errors) + 1) with n by (subst n; lia).
      split; intros Hrate; rewrite Hrate; [apply backoffMinutes_ladder|lia].
  - intros w m agentId error Hrate. rewrite handleApiError_run.
    eexists. split; [apply cooldownDuration_afterApiError|].
    cbv zeta. rewrite Hrate. lia.
  - intros w m agentId mentions Hok.
    apply (pollMentions_resets w m agentId mentions Hok).
  - intros w m agentId u mentions error Hcool Hname Hok Hret Hrate polled.
    set (m0 := withTrace
                 (fun t => t ++ [mkObserved CDateNow (processedTweetIds m)]) m).
    assert (Hbody : pollBody agentId w m = pollMentions agentId w m0).
    { unfold pollBody.
      cbv beta iota zeta delta [bind ask extern getManager ret].
      fold m0. change (inCooldown m0 agentId (dateNow w (trace m)))
        with (inCooldown m agentId (dateNow w (trace m))).
      rewrite Hcool.
      change (agentUsername m0) with (agentUsername m). rewrite Hname.
      reflexivity. }
    assert (Htick : pollTick agentId w m = pollMentions agentId w m0).
    { unfold pollTick, tryCatch. rewrite <- Hbody.
      destruct (pollBody agentId w m) as [[[]|e] m1]; [reflexivity|].
      discriminate Hret. }
    subst polled. rewrite Htick.
    destruct (pollMentions_resets w m0 agentId mentions Hok) as [Hzero _].
    split; [exact Hzero|].
    rewrite handleApiError_run. cbn [snd].
    rewrite cooldownDuration_afterApiError.
    cbv zeta. rewrite Hzero, Hrate. reflexivity.
Qed.

(** The third of three network errors of [bot1] sets a cooldown of 15
    minutes; a tick that finds no new mentions follows; the next network
    error sets a cooldown of 1 minute. *)
Lemma backoff_escalation_witness :
  let w := Scenario.calmWorld ActLike 0 in
  cooldownDuration
    (snd (feedErrors "bot1"
            [Scenario.networkError; Scenario.networkError;
             Scenario.networkError] w Scenario.oneAgent))
    "bot1" 1000000 = Some (minutes 15) /\
  cooldownDuration
    (snd (_handleApiError "bot1" Scenario.networkError w
            (snd (pollTick "bot1" w Scenario.afterThreeErrors))))
    "bot1" 1000000 = Some (minutes 1) /\
  (exists d,
     cooldownDuration
       (snd (_handleApiError "bot1" Scenario.rateLimitError w Scenario.oneAgent))
       "bot1" 1000000 = Some (minutes d) /\ 15 <= d).
Proof.
  intros w. split; [|split].
  - destruct (proj1 backoff_escalation w Scenario.oneAgent "bot1"%string
                [Scenario.networkError; Scenario.networkError]
                Scenario.networkError eq_refl)
      as (_ & d & Hd & Hladder & _).
    destruct (Hladder eq_refl) as (_ & _ & H3 & _).
    rewrite (H3 eq_refl) in Hd. exact Hd.
  - refine (proj2 (proj2 (proj2 (proj2 backoff_escalation)) w
                     Scenario.afterThreeErrors "bot1"%string "bot1"%string []
                     Scenario.networkError _ _ _ _ _)).
    + vm_compute. reflexivity.
    + vm_compute. reflexivity.
    + reflexivity.
    + vm_compute. reflexivity.
    + reflexivity.
  - exact (proj1 (proj2 backoff_escalation) w Scenario.oneAgent "bot1"%string
             Scenario.rateLimitError eq_refl).
Defined.

End Backoff.

(** ** Relationships *)

Section RelationshipBounds.
Import MemoryManager.
Local Open Scope Q_scope.

Lemma withinBounds_range (v : Q) : -1 <= withinBounds v /\ withinBounds v <= 1.
Proof.
  unfold withinBounds. split.
  - apply Q.le_max_l.
  - apply Q.max_lub; [lra|apply Q.le_min_l].
Qed.

Lemma applyChange_inCodeRange (r : Relationship) (c : Change) :
  inCodeRange r -> inCodeRange (applyChange r c).
Proof.
  intros (H1 & H2 & H3 & H4 & H5 & H6 & H7).
  destruct c; simpl; unfold inCodeRange; simpl;
    try (pose proof (withinBounds_range value) as [? ?]);
    repeat split; try assumption.
  rewrite length_firstn. lia.
Qed.

(** What holds of the code: the three scores stay within [-1, 1] and
    the recent interactions within 10 entries. *)
Lemma updateRelationship_inCodeRange (now : Z) (memory : AgentMemory)
    (target : string) (changes : list Change) :
  (forall r, relationships memory !! target = Some r -> inCodeRange r) ->
  inCodeRange (snd (updateRelationship now memory target changes)).
Proof.
  intros Hmem. unfold updateRelationship.
  assert (Hstart : inCodeRange (snd (getRelationship memory target))).
  { unfold getRelationship. destruct (relationships memory !! target) as [r|].
    - simpl. now apply Hmem.
    - simpl. unfold inCodeRange. simpl. repeat split; try lra; lia. }
  destruct (getRelationship memory target) as [memory' r]. simpl in *.
  assert (Hfold : forall cs r0, inCodeRange r0 ->
                    inCodeRange (fold_left applyChange cs r0)).
  { induction cs as [|c cs IH]; intros r0 H0; simpl; [exact H0|].
    apply IH, applyChange_inCodeRange, H0. }
  apply (Hfold changes) in Hstart.
  destruct Hstart as (H1 & H2 & H3 & H4 & H5 & H6 & H7).
  repeat split; assumption.
Qed.

(** C9 fails on the code: a negative familiarity or trust is kept,
    since all three scores are clipped to [-1, 1]; the relationship that
    results is outside the ranges of the data model. *)
Theorem updateRelationship_keeps_negative_familiarity :
  let r := snd (updateRelationship 0 emptyMemory "user7"
                  [ChangeFamiliarity (-1 # 2); ChangeTrust (-1 # 4)]) in
  familiarity r == -1 # 2 /\ trust r == -1 # 4 /\
  inCodeRange r /\ ~ inRange r.
Proof.
  intros r. split; [reflexivity|]. split; [reflexivity|]. split.
  - apply updateRelationship_inCodeRange. intros r0 H. discriminate H.
  - intros (_ & _ & H & _). vm_compute in H. apply H. reflexivity.
Qed.

End RelationshipBounds.

(** * Further properties of the code *)

(** ** Behavior randomizer *)

Section RandomizationFacts.
Import Randomization.
Local Open Scope Q_scope.





(** X2: The randomized content preferences: a typical post length that is
    set comes out as a whole number between 20 and 280, and a maximal
    thread length that is at least 1 stays at least 1 and moves by at
    most 1; a field that is missing or 0 is left as it is. *)
Theorem randomizeContentPreferences_bounds (prefs : ContentPreferences)
    (r1 r2 r3 : Q) :
  let result := randomizeContentPreferences prefs r1 r2 r3 in
  (forall len, typicalPostLength prefs = Some len -> ~ len == 0 ->
     exists n : Z,
       typicalPostLength result = Some (Qmax 20 (Qmin 280 (inject_Z n))) /\
       20 <= Qmax 20 (Qmin 280 (inject_Z n)) /\
       Qmax 20 (Qmin 280 (inject_Z n)) <= 280) /\
  (forall len, maxThreadLength prefs = Some len -> 1 <= len ->
     exists len',
       maxThreadLength result = Some len' /\ 1 <= len' /\
       len - 1 <= len' /\ len' <= len + 1) /\
  (truthyNumber (typicalPostLength prefs) = None ->
   typicalPostLength result = typicalPostLength prefs) /\
  (truthyNumber (maxThreadLength prefs) = None ->
   maxThreadLength result = maxThreadLength prefs) /\
  linkSharingFrequency result = linkSharingFrequency prefs.
Proof.
  intros result. subst result. unfold randomizeContentPreferences. simpl.
  split; [|split; [|split; [|split]]].
  - intros len Hlen Hnz. rewrite Hlen. simpl.
    destruct (Qeq_bool len 0) eqn:Hz; [apply Qeq_bool_iff in Hz; contradiction|].
    eexists. split; [reflexivity|]. split.
    + apply Q.le_max_l.
    + apply Q.max_lub; [lra|apply Q.le_min_l].
  - intros len Hlen Hge. rewrite Hlen. simpl.
    destruct (Qeq_bool len 0) eqn:Hz; [apply Qeq_bool_iff in Hz; lra|].
    destruct (Qlt_le_dec (6 # 10) r1).
    + eexists. split; [reflexivity|].
      destruct (Qlt_le_dec (5 # 10) r2).
      * destruct (Q.max_spec 1 (len + 1)) as [[? HM]|[? HM]]; rewrite HM;
          repeat split; lra.
      * destruct (Q.max_spec 1 (len + -1)) as [[? HM]|[? HM]]; rewrite HM;
          repeat split; lra.
    + exists len. repeat split; try assumption; lra.
  - intros H. now rewrite H.
  - intros H. now rewrite H.
  - reflexivity.
Qed.

(** The defaults of class [Agent]: threads of 3, posts of 240. *)
Lemma randomizeContentPreferences_bounds_witness :
  exists len',
    maxThreadLength
      (randomizeContentPreferences
         (mkContentPreferences (Some 3) (Some 240) (Some (2 # 10)))
         (7 # 10) (1 # 10) (9 # 10)) = Some len' /\ 1 <= len'.
Proof.
  destruct (proj1 (proj2 (randomizeContentPreferences_bounds
                            (mkContentPreferences (Some 3) (Some 240)
                               (Some (2 # 10)))
                            (7 # 10) (1 # 10) (9 # 10))) 3 eq_refl)
    as (len' & H1 & H2 & _).
  - lra.
  - exists len'. split; assumption.
Defined.

End RandomizationFacts.

(** ** The mood of an agent *)

Section MoodFacts.
Import AgentMood.
Local Open Scope Q_scope.



End MoodFacts.

(** ** Event engine *)

Section EventEngineFacts.
Import Types EventEngine EventAccounting DispatchFailure.
Local Open Scope Z_scope.

Lemma filter_partition {A} (f : A -> bool) (l : list A) :
  Permutation (List.filter f l ++ List.filter (fun x => negb (f x)) l) l.
Proof.
  induction l as [|x l IH]; simpl; [reflexivity|].
  destruct (f x); simpl.
  - now constructor.
  - rewrite <- Permutation_middle. now constructor.
Qed.

Lemma processLoop_contents (g : Engine) :
  Permutation (contents (processLoop g)) (contents g) /\
  eventHistory (processLoop g) = eventHistory g /\
  scheduledEvents (processLoop g) = scheduledEvents g.
Proof.
  unfold processLoop, contents.
  destruct (eventQueue g) as [|h rest]; simpl; repeat split; auto.
  rewrite <- app_assoc. reflexivity.
Qed.

Lemma insertByTime_perm (s : ScheduledEvent) (l : list ScheduledEvent) :
  Permutation (insertByTime s l) (s :: l).
Proof.
  induction l as [|x l IH]; simpl; [reflexivity|].
  destruct (scheduledTime s <=? scheduledTime x); [reflexivity|].
  rewrite IH. apply perm_swap.
Qed.

Lemma sortScheduledEvents_perm (l : list ScheduledEvent) :
  Permutation (sortScheduledEvents l) l.
Proof.
  induction l as [|x l IH]; simpl; [reflexivity|].
  rewrite insertByTime_perm. now constructor.
Qed.

Lemma insertByTime_sorted (s : ScheduledEvent) (l : list ScheduledEvent) :
  StronglySorted byTime l -> StronglySorted byTime (insertByTime s l).
Proof.
  induction 1 as [|x l Hs IH Hall]; simpl.
  - repeat constructor.
  - destruct (Z.leb_spec (scheduledTime s) (scheduledTime x)) as [Hlt|Hge].
    + constructor; [now constructor|].
      constructor; [unfold byTime; lia|].
      eapply List.Forall_impl; [|exact Hall].
      intros y Hy. unfold byTime in *. lia.
    + constructor; [exact IH|].
      rewrite insertByTime_perm. constructor; [|exact Hall].
      unfold byTime. lia.
Qed.

Lemma sortScheduledEvents_sorted (l : list ScheduledEvent) :
  StronglySorted byTime (sortScheduledEvents l).
Proof.
  induction l as [|x l IH]; simpl; [constructor|].
  now apply insertByTime_sorted.
Qed.

Lemma filter_sorted {A} (R : A -> A -> Prop) (f : A -> bool) (l : list A) :
  StronglySorted R l -> StronglySorted R (List.filter f l).
Proof.
  induction 1 as [|x l Hs IH Hall]; simpl; [constructor|].
  destruct (f x); [|exact IH].
  constructor; [exact IH|].
  apply List.Forall_forall. intros y Hy. apply List.filter_In in Hy.
  rewrite List.Forall_forall in Hall. now apply Hall.
Qed.

(** One operation: no event is lost or made up, the history stays
    within its cap, the scheduled events stay in the order of their
    times. *)
Lemma step_accounting (g : Engine) (op : Op) :
  Permutation (contents (step g op)) (contents g ++ eventsOf [op]) /\
  ((length (eventHistory g) <= 100)%nat ->
   (length (eventHistory (step g op)) <= 100)%nat) /\
  (StronglySorted byTime (scheduledEvents g) ->
   StronglySorted byTime (scheduledEvents (step g op))).
Proof.
  destruct op as [now e|now e delayMs|]; simpl.
  - unfold queueEvent, queueEventWith. simpl.
    destruct (isProcessing g) eqn:Hb.
    + unfold contents. simpl. repeat split; auto.
      rewrite sortEventQueue_perm. solve_Permutation.
    + destruct (processEvents_idle now (pushSorted e g) Hb)
        as (g2 & Hrun & Hq & Hsch & Hhist & Hdisp & _).
      rewrite Hrun. destruct (processLoop_contents g2) as (P1 & P2 & P3).
      rewrite P1, P2, P3, Hhist, Hsch. simpl.
      split; [|split; [auto|intros Ht; now apply filter_sorted]].
      unfold contents. rewrite Hq, Hdisp, Hsch. simpl.
      rewrite sortEventQueue_perm.
      pose proof (Permutation_map sched_event
                    (filter_partition (fun s => scheduledTime s <=? now)
                       (scheduledEvents g))) as Hp.
      rewrite map_app in Hp. fold (dueAt now (scheduledEvents g)) in Hp.
      fold (notDueAt now (scheduledEvents g)) in Hp.
      rewrite <- Hp. solve_Permutation.
  - unfold contents. simpl. repeat split; auto.
    + rewrite sortScheduledEvents_perm, map_app. simpl.
      now rewrite !app_assoc.
    + intros _. apply sortScheduledEvents_sorted.
  - unfold resume. destruct (awaiting g) as [ev|]; simpl.
    + match goal with
      | |- context [processLoop ?g1] =>
          destruct (processLoop_contents g1) as (P1 & P2 & P3)
      end.
      rewrite P1, P2, P3. simpl. unfold contents. simpl.
      rewrite ?app_nil_r. repeat split; auto.
      intros Hlen.
      destruct (100 <? Z.of_nat (length (eventHistory g ++ [ev]))) eqn:Hcap.
      * destruct (eventHistory g ++ [ev]) eqn:Hh; simpl; [lia|].
        apply (f_equal (@length Event)) in Hh.
        rewrite length_app in Hh. simpl in Hh. lia.
      * apply Z.ltb_ge in Hcap. lia.
    + rewrite ?app_nil_r. repeat split; auto.
Qed.

Lemma act_accounting (g : Engine) (a : Act) :
  Permutation (contents (act g a)) (contents g ++ eventsOf (opsOf [a])) /\
  ((length (eventHistory g) <= 100)%nat ->
   (length (eventHistory (act g a)) <= 100)%nat) /\
  (StronglySorted byTime (scheduledEvents g) ->
   StronglySorted byTime (scheduledEvents (act g a))).
Proof.
  destruct a as [op|]; simpl.
  - apply step_accounting.
  - rewrite app_nil_r. unfold fail. destruct (awaiting g); auto.
Qed.

Lemma opsOf_cons (a : Act) (acts : list Act) :
  eventsOf (opsOf (a :: acts)) = eventsOf (opsOf [a]) ++ eventsOf (opsOf acts).
Proof.
  unfold eventsOf, opsOf. simpl. rewrite app_nil_r. apply flat_map_app.
Qed.

Lemma runActs_accounting (acts : list Act) :
  forall g,
  Permutation (contents (runActs acts g))
    (contents g ++ eventsOf (opsOf acts)) /\
  ((length (eventHistory g) <= 100)%nat ->
   (length (eventHistory (runActs acts g)) <= 100)%nat) /\
  (StronglySorted byTime (scheduledEvents g) ->
   StronglySorted byTime (scheduledEvents (runActs acts g))).
Proof.
  induction acts as [|a acts IH]; intros g.
  - simpl. rewrite app_nil_r. repeat split; auto.
  - change (runActs (a :: acts) g) with (runActs acts (act g a)).
    destruct (act_accounting g a) as (S1 & S2 & S3).
    destruct (IH (act g a)) as (R1 & R2 & R3).
    rewrite opsOf_cons. split; [|split; auto].
    rewrite R1, S1, app_assoc. reflexivity.
Qed.

Lemma drain_accounting (fuel : nat) :
  forall g,
  ((length (eventHistory g) <= 100)%nat ->
   (length (eventHistory (drain fuel g)) <= 100)%nat) /\
  scheduledEvents (drain fuel g) = scheduledEvents g.
Proof.
  induction fuel as [|fuel IH]; intros g; simpl; [auto|].
  destruct (isProcessing g) eqn:Hb; [|auto].
  destruct (step_accounting g OpResume) as (_ & S2 & _).
  destruct (IH (resume g)) as (D2 & D3). simpl in S2.
  split; [auto|]. rewrite D3. unfold resume.
  destruct (awaiting g); [|reflexivity].
  match goal with |- scheduledEvents (processLoop ?x) = _ =>
    destruct (processLoop_contents x) as (_ & _ & ->) end.
  reflexivity.
Qed.

Lemma drain_wellFormed (fuel : nat) :
  forall g, wellFormed g -> wellFormed (drain fuel g).
Proof.
  induction fuel as [|fuel IH]; intros g Hwf; simpl; [exact Hwf|].
  destruct (isProcessing g); [|exact Hwf].
  apply IH. exact (proj1 (step_shape g OpResume Hwf)).
Qed.

(** Acts that enqueue nothing leave an idle engine idle, and its queue
    and the events dispatched as they are. *)
Lemma quiet_acts_idle (acts : list Act) :
  Forall quiet acts ->
  forall g, isProcessing g = false -> awaiting g = None ->
  isProcessing (runActs acts g) = false /\
  awaiting (runActs acts g) = None /\
  eventQueue (runActs acts g) = eventQueue g /\
  dispatched (runActs acts g) = dispatched g /\
  eventHistory (runActs acts g) = eventHistory g.
Proof.
  induction 1 as [|a acts Ha _ IH]; intros g Hb Hw; [auto|].
  change (runActs (a :: acts) g) with (runActs acts (act g a)).
  destruct a as [[now e|now e delayMs|]|]; simpl.
  - destruct Ha.
  - apply (IH (scheduleEvent now e delayMs g)); assumption.
  - unfold resume. rewrite Hw. now apply IH.
  - unfold fail. rewrite Hw. now apply IH.
Qed.

(** X4: No event is lost or made up: whatever is enqueued, scheduled,
    resumed or rejected, the events handed to the engine are, each as
    often as it was handed over, the events dispatched, waiting in the
    queue or still scheduled. *)
Theorem no_event_lost_or_duplicated (acts : list Act) :
  Permutation (contents (runActs acts newEngine)) (eventsOf (opsOf acts)).
Proof.
  destruct (runActs_accounting acts newEngine) as (R1 & _).
  exact R1.
Qed.

(** X5: The history of processed events never holds more than 100
    entries. *)
Theorem event_history_is_capped (acts : list Act) :
  (length (eventHistory (runActs acts newEngine)) <= 100)%nat /\
  (length (eventHistory (drainAll (runActs acts newEngine))) <= 100)%nat.
Proof.
  destruct (runActs_accounting acts newEngine) as (_ & R2 & _).
  assert (H : (length (eventHistory (runActs acts newEngine)) <= 100)%nat)
    by (apply R2; simpl; lia).
  split; [exact H|]. now apply drain_accounting.
Qed.

(** X6: The scheduled events are always in the order of their times,
    earliest first. *)
Theorem scheduled_events_stay_in_time_order (acts : list Act) :
  StronglySorted byTime (scheduledEvents (runActs acts newEngine)).
Proof.
  destruct (runActs_accounting acts newEngine) as (_ & _ & R3).
  apply R3. constructor.
Qed.

(** X7: When no dispatch is rejected the drain runs to completion:
    resumed as often as the queue is long, and once more, the engine
    is idle, its queue is empty, it has dispatched what was waiting, in
    the order of the queue, and the scheduled events are where they
    were. *)
Theorem drain_runs_to_completion (ops : list Op) :
  let g := run ops newEngine in
  isProcessing (drainAll g) = false /\
  eventQueue (drainAll g) = [] /\
  awaiting (drainAll g) = None /\
  dispatched (drainAll g) = dispatched g ++ eventQueue g /\
  scheduledEvents (drainAll g) = scheduledEvents g.
Proof.
  intros g.
  assert (Hwf : wellFormed g) by apply run_wellFormed, newEngine_wellFormed.
  pose proof (drain_wellFormed (S (length (eventQueue g))) g Hwf) as D0.
  fold (drainAll g) in D0. destruct D0 as (_ & Hflag & Hidle).
  assert (Hd : isProcessing (drainAll g) = false /\
               dispatched (drainAll g) = dispatched g ++ eventQueue g).
  { destruct (isProcessing g) eqn:Hb.
    - destruct (drain_dispatches_queue (S (length (eventQueue g))) g Hwf Hb)
        as [H1 H2]; [lia|]. split; assumption.
    - unfold drainAll. simpl. rewrite Hb. split; [exact Hb|].
      destruct Hwf as (_ & _ & Hq). rewrite (Hq Hb). now rewrite app_nil_r. }
  destruct Hd as [Hf Hd]. split; [exact Hf|]. split; [now apply Hidle|].
  split; [|split; [exact Hd|apply drain_accounting]].
  destruct (awaiting (drainAll g)) eqn:Ha; [|reflexivity].
  assert (isProcessing (drainAll g) = true) by (apply Hflag; congruence).
  congruence.
Qed.

(** X8: Scheduling alone dispatches nothing: as long as no event is
    enqueued, every scheduled event stays in the list of scheduled
    events, also when it is due, and the engine stays idle. *)
Theorem scheduling_alone_dispatches_nothing (acts : list Act) :
  Forall quiet acts ->
  let g := runActs acts newEngine in
  dispatched g = [] /\ eventQueue g = [] /\ isProcessing g = false /\
  Permutation (map sched_event (scheduledEvents g)) (eventsOf (opsOf acts)).
Proof.
  intros Hacts g.
  destruct (quiet_acts_idle acts Hacts newEngine eq_refl eq_refl)
    as (Hb & _ & Hq & Hd & _).
  fold g in Hd, Hq, Hb. simpl in Hd, Hq.
  split; [exact Hd|]. split; [exact Hq|]. split; [exact Hb|].
  destruct (runActs_accounting acts newEngine) as (R1 & _).
  fold g in R1. unfold contents in R1. rewrite Hd, Hq in R1. exact R1.
Qed.

Lemma scheduling_alone_dispatches_nothing_witness :
  let acts := [Do (OpSchedule 1000 (mkEvent "tweet" "post" ["bot1"] critical)
                     (-500));
               Do OpResume;
               Do (OpSchedule 2000 (mkEvent "mood" "mood" ["bot1"] low)
                     60000)] in
  Forall quiet acts /\
  dispatched (runActs acts newEngine) = [] /\
  Permutation (map sched_event (scheduledEvents (runActs acts newEngine)))
    (eventsOf (opsOf acts)).
Proof.
  intros acts.
  assert (H : Forall quiet acts) by (repeat constructor).
  split; [exact H|].
  split; [exact (proj1 (scheduling_alone_dispatches_nothing acts H))|].
  exact (proj2 (proj2 (proj2 (scheduling_alone_dispatches_nothing acts H)))).
Defined.

(** X9: Enqueueing on an idle engine releases the scheduled events that
    are due, and only those: they leave the list of scheduled events
    and join the new event and the events still waiting in the queue,
    and the first event dispatched is one of highest priority among
    all of them. *)
Theorem idle_enqueue_releases_due_events (g : Engine) (now : Z)
    (e : Event) :
  isProcessing g = false ->
  let g' := queueEvent now e g in
  scheduledEvents g' = notDueAt now (scheduledEvents g) /\
  exists h,
    dispatched g' = dispatched g ++ [h] /\
    awaiting g' = Some h /\
    isProcessing g' = true /\
    Permutation (h :: eventQueue g')
      (eventQueue g ++ e :: map sched_event (dueAt now (scheduledEvents g))) /\
    Forall (fun x => priorityValues (priority x)
                     <= priorityValues (priority h)) (eventQueue g').
Proof.
  intros Hidle g'.
  subst g'. unfold queueEvent, queueEventWith.
  change (isProcessing (pushSorted e g)) with (isProcessing g).
  rewrite Hidle.
  destruct (processEvents_idle now (pushSorted e g) Hidle)
    as (g2 & -> & P & Hs & _ & Hd & Hb & Hsorted).
  assert (Hsorted2 : StronglySorted byPriority (eventQueue g2)).
  { apply Hsorted. simpl. apply sortEventQueue_sorted. }
  simpl in P, Hs, Hd. rewrite sortEventQueue_perm in P.
  unfold processLoop. destruct (eventQueue g2) as [|h rest] eqn:Hq2.
  - exfalso. apply Permutation_nil in P.
    destruct (eventQueue g); discriminate.
  - simpl. split; [exact Hs|]. exists h. rewrite Hd.
    repeat split; auto.
    + rewrite P. solve_Permutation.
    + apply StronglySorted_inv in Hsorted2. apply Hsorted2.
Qed.

Lemma idle_enqueue_releases_due_events_witness :
  let ops := [OpSchedule 1000 (mkEvent "tweet" "post" ["bot1"] critical) 500;
              OpSchedule 1000 (mkEvent "mood" "mood" ["bot1"] low) 60000] in
  let g' := queueEvent 2000 (mkEvent "reply" "post" ["bot1"] normal)
              (run ops newEngine) in
  isProcessing (run ops newEngine) = false /\
  scheduledEvents g' = notDueAt 2000 (scheduledEvents (run ops newEngine)) /\
  dispatched g' = [mkEvent "tweet" "post" ["bot1"] critical].
Proof.
  intros ops g'. split; [reflexivity|].
  split.
  - exact (proj1 (idle_enqueue_releases_due_events (run ops newEngine) 2000
                    (mkEvent "reply" "post" ["bot1"] normal) eq_refl)).
  - reflexivity.
Defined.

(** X10: A rejected dispatch stalls the queue: the drain ends with the
    flag cleared, the rejected event is not entered in the history,
    and the events that were waiting stay in the queue, undispatched,
    whatever is scheduled or resumed, until a further event is
    enqueued. *)
Theorem rejected_dispatch_stalls_the_queue (g : Engine) (h : Event)
    (acts : list Act) :
  awaiting g = Some h ->
  Forall quiet acts ->
  let g' := runActs acts (fail g) in
  isProcessing g' = false /\
  eventQueue g' = eventQueue g /\
  dispatched g' = dispatched g /\
  eventHistory g' = eventHistory g.
Proof.
  intros Hw Hacts g'.
  assert (Hf : fail g = mkEngine (eventQueue g) (scheduledEvents g) false
                          (eventHistory g) None (dispatched g))
    by (unfold fail; now rewrite Hw).
  destruct (quiet_acts_idle acts Hacts (fail g)) as (Hb & _ & Hq & Hd & Hh);
    [now rewrite Hf..|].
  fold g' in Hb, Hq, Hd, Hh. rewrite Hf in Hq, Hd, Hh.
  repeat split; assumption.
Qed.

Lemma rejected_dispatch_stalls_the_queue_witness :
  let first := mkEvent "a" "toString" [] high in
  let second := mkEvent "b" "news" [] normal in
  let g := run [OpQueue 0 first; OpQueue 1 second] newEngine in
  let g' := runActs [Do OpResume;
                     Do (OpSchedule 2 (mkEvent "c" "mood" [] low) 0)]
              (fail g) in
  awaiting g = Some first /\
  isProcessing g' = false /\ eventQueue g' = [second] /\
  dispatched g' = [first] /\ eventHistory g' = [].
Proof.
  intros first second g g'. split; [reflexivity|].
  assert (H : Forall quiet
                [Do OpResume;
                 Do (OpSchedule 2 (mkEvent "c" "mood" [] low) 0)])
    by (repeat constructor).
  exact (rejected_dispatch_stalls_the_queue g first _ eq_refl H).
Defined.

End EventEngineFacts.

(** ** Event listeners *)

Section ListenerFacts.
Import Types EventListeners.
Local Open Scope string_scope.
Local Open Scope list_scope.

Lemma registeredFor_cons (k t : string) (cb : nat)
    (regs : list (string * nat)) :
  registeredFor k ((t, cb) :: regs) =
  if String.eqb t k then cb :: registeredFor k regs else registeredFor k regs.
Proof. unfold registeredFor. simpl. now destruct (String.eqb t k). Qed.

(** Registrations never create a property with an inherited name, and
    each list holds the callbacks of its type in registration order. *)
Lemma register_lookup (regs : list (string * nat)) :
  forall r r',
  (forall k, inherited k = true -> r !! k = None) ->
  register regs r = Some r' ->
  (forall k, inherited k = true -> r' !! k = None) /\
  (forall k, default [] (r' !! k) = default [] (r !! k) ++ registeredFor k regs).
Proof.
  unfold Registry.
  induction regs as [|[t cb] regs IH]; intros r r' Hplain Hreg; simpl in Hreg.
  - injection Hreg as <-. split; [exact Hplain|].
    intros k. unfold registeredFor. simpl. now rewrite app_nil_r.
  - unfold addEventListener, slot, Registry in Hreg.
    destruct (r !! t) as [cbs|] eqn:Ht.
    + assert (Hnot : inherited t = false).
      { destruct (inherited t) eqn:Hi; [|reflexivity].
        rewrite (Hplain t Hi) in Ht. discriminate. }
      assert (Hplain' : forall k, inherited k = true ->
                <[t := cbs ++ [cb]]> r !! k = None).
      { intros k Hk. rewrite lookup_insert_ne; [now apply Hplain|].
        intros ->. congruence. }
      destruct (IH _ _ Hplain' Hreg) as [P L].
      split; [exact P|]. intros k. rewrite L, registeredFor_cons.
      destruct (String.eqb_spec t k) as [<-|Hne].
      * rewrite lookup_insert_eq, Ht. simpl. now rewrite <- app_assoc.
      * now rewrite lookup_insert_ne.
    + destruct (inherited t) eqn:Hi; [discriminate|].
      assert (Hplain' : forall k, inherited k = true ->
                <[t := [cb]]> r !! k = None).
      { intros k Hk. rewrite lookup_insert_ne; [now apply Hplain|].
        intros ->. congruence. }
      destruct (IH _ _ Hplain' Hreg) as [P L].
      split; [exact P|]. intros k. rewrite L, registeredFor_cons.
      destruct (String.eqb_spec t k) as [<-|Hne].
      * rewrite lookup_insert_eq, Ht. reflexivity.
      * now rewrite lookup_insert_ne.
Qed.

Lemma registered_lookup (regs : list (string * nat)) (r : Registry) :
  register regs ∅ = Some r ->
  (forall k, inherited k = true -> r !! k = None) /\
  (forall k, default [] (r !! k) = registeredFor k regs).
Proof.
  intros Hreg.
  destruct (register_lookup regs ∅ r (fun k _ => lookup_empty k) Hreg)
    as [P L].
  split; [exact P|]. intros k. rewrite L. unfold Registry.
  rewrite lookup_empty. reflexivity.
Qed.

Lemma spread_slot (r : Registry) (k : string) :
  inherited k = false -> spread (slot r k) = Some (default [] (r !! k)).
Proof.
  intros Hk. unfold slot. destruct (r !! k); [reflexivity|].
  now rewrite Hk.
Qed.

(** X11: An event is handed to the listeners of its type, in the order in
    which they were registered, and then to the listeners of all
    events, in the order in which they were registered. *)
Theorem listeners_called_in_registration_order
    (regs : list (string * nat)) (r : Registry) (ev : Event) :
  register regs ∅ = Some r ->
  inherited (event_type ev) = false ->
  combinedListeners r ev =
  Some (registeredFor (event_type ev) regs ++ registeredFor "all" regs).
Proof.
  intros Hreg Hty. destruct (registered_lookup regs r Hreg) as [_ L].
  unfold combinedListeners.
  rewrite (spread_slot r _ Hty), (spread_slot r "all" eq_refl), !L.
  reflexivity.
Qed.

Lemma listeners_called_in_registration_order_witness :
  let regs := [("all", 1%nat); ("news", 2%nat); ("all", 3%nat);
               ("news", 4%nat); ("mood", 5%nat)] in
  exists r,
    register regs ∅ = Some r /\
    combinedListeners r (mkEvent "e1" "news" [] normal)
    = Some [2; 4; 1; 3]%nat /\
    combinedListeners r (mkEvent "e2" "all" [] normal)
    = Some [1; 3; 1; 3]%nat.
Proof.
  intros regs.
  destruct (register regs ∅) as [r|] eqn:Hreg; [|discriminate].
  exists r. split; [reflexivity|]. split.
  - exact (listeners_called_in_registration_order regs r
             (mkEvent "e1" "news" [] normal) Hreg eq_refl).
  - exact (listeners_called_in_registration_order regs r
             (mkEvent "e2" "all" [] normal) Hreg eq_refl).
Defined.

(** X12: An event type that names a property of [Object.prototype] cannot
    be used: registering or removing a listener for it throws, and the
    dispatch of an event of that type is rejected, whatever listeners
    are registered. *)
Theorem inherited_event_type_throws
    (regs : list (string * nat)) (r : Registry) (ev : Event) (cb : nat) :
  register regs ∅ = Some r ->
  inherited (event_type ev) = true ->
  combinedListeners r ev = None /\
  addEventListener (event_type ev) cb r = None /\
  removeEventListener (event_type ev) cb r = None /\
  register (regs ++ [(event_type ev, cb)]) ∅ = None.
Proof.
  intros Hreg Hty. destruct (registered_lookup regs r Hreg) as [P _].
  assert (Hslot : slot r (event_type ev) = Inherited)
    by (unfold slot; now rewrite (P _ Hty), Hty).
  assert (Hadd : addEventListener (event_type ev) cb r = None)
    by (unfold addEventListener; now rewrite Hslot).
  unfold combinedListeners, removeEventListener.
  rewrite Hslot. repeat split; auto.
  clear P Hslot. revert Hreg. generalize (∅ : Registry).
  induction regs as [|[t c] regs IH]; intros r0 Hreg; simpl in *.
  - injection Hreg as ->. now rewrite Hadd.
  - destruct (addEventListener t c r0); [now apply IH|discriminate].
Qed.

Lemma inherited_event_type_throws_witness :
  let regs := [("all", 1%nat); ("news", 2%nat)] in
  exists r,
    register regs ∅ = Some r /\
    combinedListeners r (mkEvent "e1" "constructor" [] normal) = None.
Proof.
  intros regs.
  destruct (register regs ∅) as [r|] eqn:Hreg; [|discriminate].
  exists r. split; [reflexivity|].
  exact (proj1 (inherited_event_type_throws regs r
                  (mkEvent "e1" "constructor" [] normal) 0%nat Hreg eq_refl)).
Defined.

(** X13: Removing a listener removes every registration of the callback
    for that type, not only one, and nothing else: the other callbacks
    of the type keep their order, and the listeners of the other types,
    the same callback among them, stay registered. *)
Theorem removeEventListener_removes_every_registration
    (regs : list (string * nat)) (r : Registry) (t : string) (cb : nat) :
  register regs ∅ = Some r ->
  inherited t = false ->
  let remaining k :=
    if String.eqb k t
    then List.filter (fun l => negb (Nat.eqb l cb)) (registeredFor k regs)
    else registeredFor k regs in
  exists r',
    removeEventListener t cb r = Some r' /\
    ~ In cb (remaining t) /\
    forall ev, inherited (event_type ev) = false ->
      combinedListeners r' ev =
      Some (remaining (event_type ev) ++ remaining "all").
Proof.
  intros Hreg Hty remaining.
  destruct (registered_lookup regs r Hreg) as [_ L].
  assert (Hrem : exists r', removeEventListener t cb r = Some r' /\
            forall k, default [] (r' !! k) = remaining k).
  { unfold removeEventListener, slot, Registry in *.
    destruct (r !! t) as [cbs|] eqn:Ht.
    - eexists. split; [reflexivity|]. intros k. unfold remaining.
      destruct (String.eqb_spec k t) as [->|Hne].
      + rewrite lookup_insert_eq. simpl. rewrite <- L, Ht. reflexivity.
      + rewrite lookup_insert_ne by congruence. apply L.
    - rewrite Hty. exists r. split; [reflexivity|]. intros k.
      unfold remaining. destruct (String.eqb_spec k t) as [->|Hne].
      + rewrite <- L, Ht. reflexivity.
      + apply L. }
  destruct Hrem as (r' & Hr' & L'). exists r'. split; [exact Hr'|]. split.
  - unfold remaining. rewrite String.eqb_refl. intros Hin.
    apply filter_In in Hin. destruct Hin as [_ Hin].
    now rewrite Nat.eqb_refl in Hin.
  - intros ev Hev. unfold combinedListeners.
    rewrite (spread_slot r' _ Hev), (spread_slot r' "all" eq_refl), !L'.
    reflexivity.
Qed.

Lemma removeEventListener_removes_every_registration_witness :
  let regs := [("news", 7%nat); ("all", 7%nat); ("news", 2%nat);
               ("news", 7%nat)] in
  exists r r',
    register regs ∅ = Some r /\
    removeEventListener "news" 7%nat r = Some r' /\
    combinedListeners r' (mkEvent "e1" "news" [] normal) = Some [2; 7]%nat.
Proof.
  intros regs.
  destruct (register regs ∅) as [r|] eqn:Hreg; [|discriminate].
  destruct (removeEventListener_removes_every_registration regs r "news" 7%nat
              Hreg eq_refl) as (r' & Hr' & _ & Hall).
  exists r, r'. split; [reflexivity|]. split; [exact Hr'|].
  exact (Hall (mkEvent "e1" "news" [] normal) eq_refl).
Defined.

End ListenerFacts.

(** ** Memory items and the tweet history *)

Section MemoryItemFacts.
Import MemoryItems.
Local Open Scope Z_scope.

Lemma insertByImportance_perm (x : MemoryItem) (l : list MemoryItem) :
  Permutation (insertByImportance x l) (x :: l).
Proof.
  induction l as [|y l IH]; simpl; [reflexivity|].
  destruct (Qle_bool (importance y) (importance x)); [reflexivity|].
  rewrite IH. apply perm_swap.
Qed.

Lemma sortByImportance_perm (l : list MemoryItem) :
  Permutation (sortByImportance l) l.
Proof.
  induction l as [|x l IH]; simpl; [reflexivity|].
  rewrite insertByImportance_perm. now constructor.
Qed.

Lemma insertByImportance_sorted (x : MemoryItem) (l : list MemoryItem) :
  StronglySorted moreImportant l ->
  StronglySorted moreImportant (insertByImportance x l).
Proof.
  induction 1 as [|y l Hs IH Hall]; simpl.
  - repeat constructor.
  - destruct (Qle_bool (importance y) (importance x)) eqn:Hc.
    + apply Qle_bool_iff in Hc.
      constructor; [now constructor|].
      constructor; [exact Hc|].
      eapply List.Forall_impl; [|exact Hall].
      intros z Hz. unfold moreImportant in *. lra.
    + assert (Hlt : (importance x < importance y)%Q).
      { apply Qnot_le_lt. intros Hle. apply Qle_bool_iff in Hle. congruence. }
      constructor; [exact IH|].
      rewrite insertByImportance_perm. constructor; [|exact Hall].
      unfold moreImportant. lra.
Qed.

Lemma sortByImportance_sorted (l : list MemoryItem) :
  StronglySorted moreImportant (sortByImportance l).
Proof.
  induction l as [|x l IH]; simpl; [constructor|].
  now apply insertByImportance_sorted.
Qed.

Lemma sorted_app_inv {A} (R : A -> A -> Prop) (l1 l2 : list A) :
  StronglySorted R (l1 ++ l2) ->
  forall x y, In x l1 -> In y l2 -> R x y.
Proof.
  induction l1 as [|a l1 IH]; simpl; intros Hs x y Hx Hy; [destruct Hx|].
  apply StronglySorted_inv in Hs. destruct Hs as [Hs Hall].
  destruct Hx as [->|Hx].
  - rewrite List.Forall_forall in Hall. apply Hall, in_or_app. now right.
  - now apply IH.
Qed.

Lemma slice0_split {A} (stop : Z) (l : list A) :
  exists rest, l = slice0 stop l ++ rest.
Proof.
  unfold slice0. destruct (0 <=? stop); eexists; symmetry; apply firstn_skipn.
Qed.

Lemma slice0_length {A} (stop : Z) (l : list A) :
  0 <= stop -> Z.of_nat (length (slice0 stop l)) <= stop.
Proof.
  intros H. unfold slice0. destruct (Z.leb_spec 0 stop); [|lia].
  rewrite length_firstn. lia.
Qed.

Lemma slice0_all {A} (stop : Z) (l : list A) :
  Z.of_nat (length l) <= stop -> slice0 stop l = l.
Proof.
  intros H. unfold slice0. destruct (Z.leb_spec 0 stop); [|lia].
  apply firstn_all2. lia.
Qed.

(** What the two trimmed collections have in common. *)
Lemma trimmed_keeps_most_important (over : bool) (stop : Z)
    (items : list MemoryItem) :
  let kept := if over then slice0 stop (sortByImportance items) else items in
  exists dropped,
    Permutation (kept ++ dropped) items /\
    forall k d, In k kept -> In d dropped -> (importance d <= importance k)%Q.
Proof.
  destruct over; simpl.
  - destruct (slice0_split stop (sortByImportance items)) as [rest Hrest].
    exists rest. split.
    + rewrite <- Hrest. apply sortByImportance_perm.
    + intros k d Hk Hd.
      apply (sorted_app_inv moreImportant
               (slice0 stop (sortByImportance items)) rest); auto.
      rewrite <- Hrest. apply sortByImportance_sorted.
  - exists []. split; [now rewrite app_nil_r|]. intros k d _ [].
Qed.

(** X14: The memory limit holds after every addition, whatever the memory
    held before: at most half the limit of events and at most the
    limit of long-term memories; core memories are never removed. *)
Theorem addMemory_keeps_limits (memoryLimit : Z) (id content type : string)
    (importanceOption : option Q) (memory : Memories) :
  0 <= memoryLimit ->
  let memory' :=
    fst (addMemory memoryLimit id content type importanceOption memory) in
  let item :=
    snd (addMemory memoryLimit id content type importanceOption memory) in
  (type = "event"%string ->
   2 * Z.of_nat (length (recentEvents memory')) <= memoryLimit) /\
  (type <> "core"%string -> type <> "event"%string ->
   Z.of_nat (length (longTermMemories memory')) <= memoryLimit) /\
  coreMemories memory' =
  (if String.eqb type "core" then coreMemories memory ++ [item]
   else coreMemories memory).
Proof.
  intros Hlimit memory' item. subst memory' item. unfold addMemory.
  destruct (String.eqb_spec type "core") as [->|Hcore]; simpl.
  - repeat split; [discriminate|congruence].
  - destruct (String.eqb_spec type "event") as [->|Hevent]; simpl.
    + repeat split; [|congruence].
      intros _.
      match goal with
      | |- context [if ?c then _ else _] => destruct c eqn:Hc
      end.
      * assert (Hq : 0 <= Z.quot memoryLimit 2) by (apply Z.quot_pos; lia).
        pose proof (slice0_length (Z.quot memoryLimit 2)
                      (sortByImportance
                         (recentEvents memory ++
                          [mkMemoryItem id content "event"
                             (default (1 # 2)%Q importanceOption)]))
                      Hq) as Hlen.
        assert (Hd : Z.quot memoryLimit 2 = memoryLimit / 2)
          by (apply Z.quot_div_nonneg; lia).
        assert (Hm : 2 * (memoryLimit / 2) <= memoryLimit)
          by (apply Z.mul_div_le; lia).
        lia.
      * apply Z.ltb_ge in Hc. lia.
    + repeat split; [congruence|].
      intros _ _.
      match goal with
      | |- context [if ?c then _ else _] => destruct c eqn:Hc
      end.
      * now apply slice0_length.
      * apply Z.ltb_ge in Hc. lia.
Qed.

Lemma addMemory_keeps_limits_witness :
  let memory := mkMemories [] [mkMemoryItem "1" "rain" "event" (9 # 10);
                               mkMemoryItem "2" "sun" "event" (1 # 10)]
                  [] [] None in
  0 <= 5 /\
  2 * Z.of_nat
        (length (recentEvents
                   (fst (addMemory 5 "3" "wind" "event" None memory)))) <= 5.
Proof.
  intros memory. split; [lia|].
  exact (proj1 (addMemory_keeps_limits 5 "3" "wind" "event" None memory
                  ltac:(lia)) eq_refl).
Defined.

(** X15: When the limit makes an addition drop items, the items of least
    importance go: what stays in the collection and what is dropped
    are together what was there and the new item, and no dropped item
    is more important than an item that stays.  The new item itself
    can be the one dropped. *)
Theorem addMemory_evicts_least_important (memoryLimit : Z)
    (id content type : string) (importanceOption : option Q)
    (memory : Memories) :
  type <> "core"%string ->
  let memory' :=
    fst (addMemory memoryLimit id content type importanceOption memory) in
  let item :=
    snd (addMemory memoryLimit id content type importanceOption memory) in
  exists dropped,
    Permutation (collection type memory' ++ dropped)
      (collection type memory ++ [item]) /\
    forall k d, In k (collection type memory') -> In d dropped ->
      (importance d <= importance k)%Q.
Proof.
  intros Hcore memory' item. subst memory' item.
  unfold addMemory, collection.
  destruct (String.eqb_spec type "core") as [->|_]; [congruence|].
  destruct (String.eqb type "event"); simpl;
    apply trimmed_keeps_most_important.
Qed.

Lemma addMemory_evicts_least_important_witness :
  let memory := mkMemories [] [mkMemoryItem "1" "rain" "event" (9 # 10);
                               mkMemoryItem "2" "sun" "event" (7 # 10)]
                  [] [] None in
  recentEvents (fst (addMemory 4 "3" "wind" "event" None memory))
  = [mkMemoryItem "1" "rain" "event" (9 # 10);
     mkMemoryItem "2" "sun" "event" (7 # 10)] /\
  exists dropped,
    Permutation
      (collection "event" (fst (addMemory 4 "3" "wind" "event" None memory))
       ++ dropped)
      (collection "event" memory ++
       [snd (addMemory 4 "3" "wind" "event" None memory)]).
Proof.
  intros memory. split; [reflexivity|].
  destruct (addMemory_evicts_least_important 4 "3" "wind" "event" None memory
              ltac:(discriminate)) as (dropped & Hperm & _).
  exists dropped. exact Hperm.
Defined.

Lemma unshiftCapped_firstn (maxTweetHistory : Z) (entry : HistoryItem)
    (history : option (list HistoryItem)) :
  0 <= maxTweetHistory ->
  unshiftCapped maxTweetHistory entry history =
  firstn (Z.to_nat maxTweetHistory) (entry :: default [] history).
Proof.
  intros Hmax. unfold unshiftCapped.
  destruct (Z.ltb_spec maxTweetHistory
              (Z.of_nat (length (entry :: default [] history)))) as [Hlt|Hge].
  - unfold slice0. destruct (Z.leb_spec 0 maxTweetHistory); [reflexivity|lia].
  - symmetry. apply firstn_all2. lia.
Qed.

Lemma write_history (maxTweetHistory : Z) (memory : Memories)
    (w : HistoryWrite) :
  tweetHistory (write maxTweetHistory memory w) =
  Some (unshiftCapped maxTweetHistory (entryOf w) (tweetHistory memory)).
Proof. destruct w; reflexivity. Qed.

Lemma firstn_app_firstn {A} (front l : list A) :
  forall m k, (m <= k)%nat ->
  firstn m (front ++ firstn k l) = firstn m (front ++ l).
Proof.
  induction front as [|f front IH]; intros m k Hmk; simpl.
  - rewrite firstn_firstn. f_equal. lia.
  - destruct m as [|m]; simpl; [reflexivity|]. f_equal. apply IH. lia.
Qed.

Lemma writes_history (maxTweetHistory : Z) (writes : list HistoryWrite) :
  0 <= maxTweetHistory ->
  forall memory,
  default [] (tweetHistory (fold_left (write maxTweetHistory) writes memory)) =
  match writes with
  | [] => default [] (tweetHistory memory)
  | _ => firstn (Z.to_nat maxTweetHistory)
           (rev (map entryOf writes) ++ default [] (tweetHistory memory))
  end.
Proof.
  intros Hmax. induction writes as [|w writes IH]; intros memory;
    [reflexivity|].
  simpl fold_left. rewrite IH, write_history. simpl default.
  rewrite (unshiftCapped_firstn _ _ _ Hmax).
  destruct writes as [|w' writes]; [reflexivity|].
  set (ws := w' :: writes). simpl map. simpl rev.
  rewrite firstn_app_firstn by lia.
  rewrite <- !app_assoc. reflexivity.
Qed.

(** X16: The tweet history gives back what was written to it, newest
    first: after any posts recorded and tweets added, the recent
    tweets are the latest of them, and then the latest entries the
    history held before, and the history holds at most
    [maxTweetHistory] entries. *)
Theorem tweet_history_newest_first (maxTweetHistory limit : Z)
    (writes : list HistoryWrite) (memory : Memories) :
  0 <= limit <= maxTweetHistory ->
  writes <> [] ->
  let memory' := fold_left (write maxTweetHistory) writes memory in
  getRecentTweets limit memory' =
  firstn (Z.to_nat limit)
    (rev (map entryOf writes) ++ default [] (tweetHistory memory)) /\
  Z.of_nat (length (default [] (tweetHistory memory'))) <= maxTweetHistory.
Proof.
  intros Hlimit Hwrites memory'.
  assert (Hmax : 0 <= maxTweetHistory) by lia.
  pose proof (writes_history maxTweetHistory writes Hmax memory) as Hh.
  fold memory' in Hh.
  assert (Hsome : tweetHistory memory' <> None).
  { subst memory'. destruct writes as [|w writes] using rev_ind;
      [congruence|].
    rewrite fold_left_app. simpl. rewrite write_history. discriminate. }
  destruct writes as [|w writes]; [congruence|].
  split.
  - unfold getRecentTweets. destruct (tweetHistory memory') as [h|];
      [|congruence].
    simpl in Hh. rewrite Hh. unfold slice0.
    destruct (Z.leb_spec 0 limit); [|lia].
    rewrite firstn_firstn. f_equal. lia.
  - rewrite Hh, length_firstn. lia.
Qed.

Lemma tweet_history_newest_first_witness :
  let writes := [Post "1" "gm"; Tweeted "wagmi"; Post "2" "gn"] in
  let memory := mkMemories [] [] [] [] (Some [PlainTweet "old"]) in
  0 <= 2 <= 3 /\
  getRecentTweets 2 (fold_left (write 3) writes memory) =
  [PostMemory (mkMemoryItem "2" (postContent "gn") "post" (1 # 2));
   PlainTweet "wagmi"].
Proof.
  intros writes memory. split; [lia|].
  exact (proj1 (tweet_history_newest_first 3 2 writes memory
                  ltac:(lia) ltac:(discriminate))).
Defined.

(** X17: A recorded post is the last of the recent posts, and at most one
    post, the oldest, leaves the list for it: a list of at most 20
    posts stays one. *)
Theorem recordPost_keeps_recent_posts (maxTweetHistory : Z)
    (id tweetContent : string) (memory : Memories) :
  let memory' := fst (recordPost maxTweetHistory id tweetContent memory) in
  let post := snd (recordPost maxTweetHistory id tweetContent memory) in
  last (recentPosts memory') = Some post /\
  (length (recentPosts memory') <= Nat.max 20 (length (recentPosts memory)))%nat /\
  exists dropped,
    recentPosts memory ++ [post] = dropped ++ recentPosts memory' /\
    (length dropped <= 1)%nat.
Proof.
  intros memory' post. subst memory' post. unfold recordPost. simpl.
  set (post := mkMemoryItem id (postContent tweetContent) "post" (1 # 2)%Q).
  destruct (Z.ltb_spec 20
              (Z.of_nat (length (recentPosts memory ++ [post]))))
    as [Hlt|Hge].
  - rewrite length_app in Hlt. simpl in Hlt.
    destruct (recentPosts memory) as [|p ps] eqn:Hps; simpl in *; [lia|].
    split; [apply last_snoc|]. split; [rewrite length_app; simpl; lia|].
    exists [p]. split; [reflexivity|simpl; lia].
  - rewrite length_app in Hge. simpl in Hge.
    split; [apply last_snoc|]. split; [rewrite length_app; simpl; lia|].
    exists []. split; [reflexivity|simpl; lia].
Qed.

Lemma map_imap_const {A B C} (g : nat -> A -> B) (p : B -> C) (h : A -> C)
    (l : list A) :
  (forall i x, p (g i x) = h x) -> map p (imap g l) = map h l.
Proof.
  revert g. induction l as [|x l IH]; intros g Hg; [reflexivity|].
  simpl. f_equal; [apply Hg|]. apply IH. intros i y. apply Hg.
Qed.

Lemma Forall_imap_all {A B} (g : nat -> A -> B) (P : B -> Prop)
    (l : list A) :
  (forall i x, P (g i x)) -> Forall P (imap g l).
Proof.
  revert g. induction l as [|x l IH]; intros g Hg; simpl; constructor.
  - apply Hg.
  - apply IH. intros i y. apply Hg.
Qed.

Lemma orDefault_nonzero (fallback : Q) (x : option Q) :
  ~ (fallback == 0)%Q -> ~ (orDefault fallback x == 0)%Q.
Proof.
  intros Hf. unfold orDefault. destruct x as [q|]; [|exact Hf].
  destruct (Qeq_bool q 0) eqn:Hq; [exact Hf|].
  intros H. apply Qeq_bool_iff in H. congruence.
Qed.

(** X18: Initialising the memory of an agent with a tweet history fails:
    the call throws exactly when the initial memory holds an array
    [tweetHistory] that is not empty.  When it succeeds, the core
    memories are the given texts with the highest importance, no
    recent event has importance zero, and the memory has no tweet
    history. *)
Theorem initializeAgentMemory_throws_on_tweet_history
    (uuid : nat -> string) (initialMemory : InitialMemory) :
  (initializeAgentMemory uuid initialMemory = None <->
   exists t ts, initialTweetHistory initialMemory = Some (t :: ts)) /\
  forall memory, initializeAgentMemory uuid initialMemory = Some memory ->
    map content (coreMemories memory) =
    default [] (initialCoreMemories initialMemory) /\
    Forall (fun item => importance item == 1)%Q (coreMemories memory) /\
    map content (recentEvents memory) =
    map initialContent (default [] (initialRecentEvents initialMemory)) /\
    Forall (fun item => ~ importance item == 0)%Q (recentEvents memory) /\
    tweetHistory memory = None.
Proof.
  unfold initializeAgentMemory.
  set (core := default [] (initialCoreMemories initialMemory)).
  set (events := default [] (initialRecentEvents initialMemory)).
  match goal with
  | |- context [Some (mkMemories ?c ?e [] [] None)] =>
      assert (Hdone : forall memory,
                Some (mkMemories c e [] [] None) = Some memory ->
                map content (coreMemories memory) = core /\
                Forall (fun item => importance item == 1)%Q
                  (coreMemories memory) /\
                map content (recentEvents memory) =
                map initialContent events /\
                Forall (fun item => ~ importance item == 0)%Q
                  (recentEvents memory) /\
                tweetHistory memory = None)
  end.
  { intros memory [= <-]. simpl.
    split; [|split; [|split; [|split; [|reflexivity]]]].
    - erewrite map_imap_const; [apply map_id|reflexivity].
    - apply Forall_imap_all. reflexivity.
    - apply map_imap_const. reflexivity.
    - apply Forall_imap_all. intros i x. simpl.
      apply orDefault_nonzero. intros H. discriminate H. }
  destruct (initialTweetHistory initialMemory) as [[|t ts]|]; split;
    try exact Hdone.
  - split; [discriminate|]. intros (t & ts & H). discriminate.
  - split; [intros _; eauto|reflexivity].
  - intros memory H. discriminate.
  - split; [discriminate|]. intros (t & ts & H). discriminate.
Qed.

Lemma initializeAgentMemory_throws_on_tweet_history_witness :
  initializeAgentMemory (fun _ => "id")
    (mkInitialMemory (Some ["born in a lab"]) None (Some ["gm"])) = None.
Proof.
  apply (proj1 (initializeAgentMemory_throws_on_tweet_history (fun _ => "id")
                  (mkInitialMemory (Some ["born in a lab"]) None
                     (Some ["gm"])))).
  exists "gm", []. reflexivity.
Defined.

End MemoryItemFacts.

(** ** Relationships *)

Section RelationshipFacts.
Import MemoryManager.

(** An update stores the relationship it returns under the target,
    with the date of the update, so that the next reading finds it and
    changes nothing; the relationships with the other agents stay as
    they are. *)
Lemma updateRelationship_stores_what_it_returns (now : Z)
    (memory : AgentMemory) (target : string) (changes : list Change) :
  let memory' := fst (updateRelationship now memory target changes) in
  let relationship := snd (updateRelationship now memory target changes) in
  getRelationship memory' target = (memory', relationship) /\
  lastInteractionDate relationship = Some now /\
  forall other, other <> target ->
    relationships memory' !! other = relationships memory !! other.
Proof.
  intros memory' relationship. subst memory' relationship.
  unfold updateRelationship, getRelationship.
  destruct (relationships memory !! target) as [r|] eqn:Hr; simpl.
  - rewrite lookup_insert_eq. repeat split; auto.
    intros other Hother. now rewrite lookup_insert_ne.
  - rewrite lookup_insert_eq. repeat split; auto.
    intros other Hother. now rewrite !lookup_insert_ne.
Qed.

(** X19: The recent interactions accumulate newest first: two updates
    leave the ten latest of what one update with both lists would
    leave, the interactions of the second update in front. *)
Theorem recent_interactions_accumulate (now1 now2 : Z)
    (memory : AgentMemory) (target : string) (first second : list string) :
  let memory1 :=
    fst (updateRelationship now1 memory target
           [ChangeRecentInteractions first]) in
  let relationship :=
    snd (updateRelationship now2 memory1 target
           [ChangeRecentInteractions second]) in
  recentInteractions relationship =
  firstn 10 (second ++ first ++
             recentInteractions (snd (getRelationship memory target))) /\
  (length (recentInteractions relationship) <= 10)%nat.
Proof.
  intros memory1 relationship. subst memory1 relationship.
  assert (H : recentInteractions
                (snd (updateRelationship now2
                        (fst (updateRelationship now1 memory target
                                [ChangeRecentInteractions first]))
                        target [ChangeRecentInteractions second])) =
              firstn 10 (second ++ first ++
                recentInteractions (snd (getRelationship memory target)))).
  { unfold updateRelationship, getRelationship.
    destruct (relationships memory !! target) as [r|] eqn:Hr; simpl;
      rewrite lookup_insert_eq; simpl;
      apply (firstn_app_firstn second _ 10%nat 10%nat); lia. }
  split; [exact H|]. rewrite H. apply firstn_le_length.
Qed.

End RelationshipFacts.

(** ** Posting *)

Section PostingFacts.
Import Types JsString AgentManager Tameness Situations.
Local Open Scope manager_scope.
Local Open Scope Z_scope.

Lemma scheduleNextPost_run (w : World) (m : Manager) (agentId : string)
    (agent : Agent) :
  agents m !! agentId = Some agent ->
  exists new time,
    scheduleNextPost agentId w m
    = (Returned tt,
       withNextPostTimes (insert agentId time)
         (withTrace (fun t => t ++ new) m)) /\
    Forall (fun o => isReactionCall (call o) = false) new.
Proof.
  intros Hagent. unfold scheduleNextPost, drawNextPostInterval.
  cbv beta iota zeta delta [bind getAgent getManager ret throw extern ask
                            modify].
  rewrite Hagent. cbv beta iota zeta.
  destruct (Qlt_le_dec _ _); cbv beta iota zeta;
    do 2 eexists; (split; [|shelve]);
    unfold withNextPostTimes, withTrace; simpl;
    rewrite <- ?app_assoc; simpl; reflexivity.
  Unshelve. all: repeat constructor.
Qed.

Lemma filter_none {A} (f : A -> bool) (l : list A) :
  Forall (fun x => f x = false) l -> List.filter f l = [].
Proof.
  induction 1 as [|x l Hx _ IH]; [reflexivity|]. simpl. now rewrite Hx.
Qed.

(** What a call of [createAgentPost] for a known agent comes to. *)
Lemma createAgentPost_summary (w : World) (m : Manager) (agentId : string)
    (options : PostOptions) (agent : Agent) :
  agents m !! agentId = Some agent ->
  let now := dateNow w (trace m) in
  let r := createAgentPost agentId options w m in
  exists new,
    trace (snd r)
    = trace m ++ mkObserved CDateNow (processedTweetIds m) :: new /\
    match fst r with
    | Returned None =>
        tooSoon agent now options = true /\ snd r = atClock m
    | Returned (Some reaction) =>
        tooSoon agent now options = false /\
        agents (snd r) = <[agentId := setLastPostTime now agent]> (agents m) /\
        is_Some (nextPostTimes (snd r) !! agentId) /\
        exists postContent tweetId,
          reaction = Posted postContent agentId tweetId /\
          In (CAddTweetToAgentMemory agentId postContent tweetId
                (isReply options)) (map call new) /\
          ((replyTarget options = None /\
            exists t prompt text, generateTweet w t agent prompt = Ok text) \/
           (exists target,
              replyTarget options = Some target /\
              exists t avoid text,
                generateContent w t agent target avoid = Ok text)) /\
          match tweetId with
          | Some id =>
              exists t,
                postTweet w t agentId postContent (replyIdOf options) = Ok id /\
                In (CPostTweet agentId postContent (replyIdOf options))
                  (map call new)
          | None =>
              exists t error,
                postTweet w t agentId postContent (replyIdOf options)
                = Err error
          end
    | Thrown error =>
        tooSoon agent now options = false /\
        agents (snd r) = agents m /\
        nextPostTimes (snd r) = nextPostTimes m /\
        Forall (fun o => isReactionCall (call o) = false) new /\
        ((replyTarget options = None /\
          exists t prompt, generateTweet w t agent prompt = Err error) \/
         (exists target,
            replyTarget options = Some target /\
            exists t avoid,
              generateContent w t agent target avoid = Err error))
    end.
Proof.
  intros Hagent now r. subst r now.
  unfold createAgentPost, replyIdOf. rewrite tryCatch_rethrow.
  cbv beta iota zeta delta [bind getAgent getManager ret throw extern ask
                            modify tryCatch].
  rewrite Hagent. cbv beta iota zeta.
  destruct (tooSoon agent (dateNow w (trace m)) options) eqn:Hsoon.
  { exists []. simpl. split; [reflexivity|]. split; reflexivity. }
  assert (Hreply : isReply options
                   = match task options with
                     | Some TaskReply => true
                     | _ => false
                     end) by reflexivity.
  destruct (replyTarget options) as [target|] eqn:Htarget;
    [|destruct (String.eqb agentId "coby-agent")];
    (match goal with
     | |- context [generateContent w ?t agent ?x ?a] =>
         destruct (generateContent w t agent x a) as [text|err] eqn:Hgen
     | |- context [generateTweet w ?t agent ?x] =>
         destruct (generateTweet w t agent x) as [text|err] eqn:Hgen
     end);
    cbv beta iota zeta;
    try (simpl; rewrite <- ?app_assoc; simpl;
         eexists; split; [reflexivity|];
         split; [reflexivity|]; split; [reflexivity|];
         split; [reflexivity|]; split; [repeat constructor|];
         solve [ left; split; [reflexivity|eauto]
               | right; eexists; split; [reflexivity|eauto] ]);
    (match goal with
     | |- context [postTweet w ?t ?a ?c ?x] =>
         destruct (postTweet w t a c x) as [posted|perr] eqn:Hpost
     end);
    cbv beta iota zeta;
    (match goal with
     | |- context [scheduleNextPost agentId w ?mx] =>
         destruct (scheduleNextPost_run w mx agentId
                     (setLastPostTime (dateNow w (trace m)) agent))
           as (new & time & -> & _);
         [simpl; apply lookup_insert_eq|]
     end);
    cbv beta iota zeta; simpl; rewrite <- ?app_assoc; simpl;
    (eexists; split; [reflexivity|]);
    (split; [reflexivity|]); (split; [reflexivity|]);
    (split; [rewrite lookup_insert_eq; eauto|]);
    do 2 eexists; (split; [reflexivity|]);
    rewrite <- Hreply;
    (split; [rewrite !map_cons, ?map_app; simpl;
             auto 10 using in_eq, in_cons|]);
    (split; [solve [ left; split; [reflexivity|eauto]
                   | right; eexists; split; [reflexivity|eauto] ]|]);
    first [ eexists; split; [exact Hpost|];
            rewrite !map_cons; simpl; auto 10 using in_eq, in_cons
          | eauto ].
Qed.

(** A method given the identifier of no agent throws before it
    calls anything, and leaves the manager as it is. *)
Lemma unknown_agent_is_rejected_before_any_call (w : World) (m : Manager)
    (agentId : string) (options : PostOptions) (tweet : Tweet) :
  agents m !! agentId = None ->
  let notFound := mkJsError None [] ("Agent not found: " ++ agentId) in
  createAgentPost agentId options w m = (Thrown notFound, m) /\
  scheduleNextPost agentId w m = (Thrown notFound, m) /\
  processAgentReaction agentId tweet w m = (Thrown notFound, m).
Proof.
  intros Hagent notFound. subst notFound. split; [|split].
  - unfold createAgentPost. rewrite tryCatch_rethrow.
    cbv beta iota zeta delta [bind getAgent getManager throw].
    now rewrite Hagent.
  - unfold scheduleNextPost.
    cbv beta iota zeta delta [bind getAgent getManager throw].
    now rewrite Hagent.
  - pose proof (processAgentReaction_cases w m agentId tweet) as H.
    now rewrite Hagent in H.
Qed.

Lemma unknown_agent_is_rejected_before_any_call_witness :
  createAgentPost "ghost" noOptions (Scenario.calmWorld ActIgnore 0)
    Scenario.oneAgent
  = (Thrown (mkJsError None [] "Agent not found: ghost"), Scenario.oneAgent).
Proof.
  exact (proj1 (unknown_agent_is_rejected_before_any_call
                  (Scenario.calmWorld ActIgnore 0) Scenario.oneAgent "ghost"
                  noOptions Scenario.passiveTweet eq_refl)).
Defined.

(** X20: A post that could not be published is still reported and counted:
    when the language model answers and the network refuses every
    post, [createAgentPost] returns the post without a tweet
    identifier, hands it to the memory, records the time as the
    agent's last post and schedules the next one. *)
Theorem createAgentPost_reports_unpublished_post (w : World) (m : Manager)
    (agentId : string) (options : PostOptions) (agent : Agent) :
  agents m !! agentId = Some agent ->
  tooSoon agent (dateNow w (trace m)) options = false ->
  (forall t prompt, exists text, generateTweet w t agent prompt = Ok text) ->
  (forall t target avoid, exists text,
     generateContent w t agent target avoid = Ok text) ->
  (forall t postContent replyToTweetId, exists error,
     postTweet w t agentId postContent replyToTweetId = Err error) ->
  let m' := snd (createAgentPost agentId options w m) in
  exists postContent,
    fst (createAgentPost agentId options w m)
    = Returned (Some (Posted postContent agentId None)) /\
    agents m' !! agentId
    = Some (setLastPostTime (dateNow w (trace m)) agent) /\
    is_Some (nextPostTimes m' !! agentId) /\
    In (CAddTweetToAgentMemory agentId postContent None (isReply options))
      (map call (callsOf (createAgentPost agentId options) w m)).
Proof.
  intros Hagent Hsoon Htweet Hcontent Hpost m'. subst m'.
  destruct (createAgentPost_summary w m agentId options agent Hagent)
    as (new & Htrace & Hcase).
  rewrite (callsOf_new _ w m _ Htrace).
  destruct (fst (createAgentPost agentId options w m))
    as [[reaction|]|error].
  - destruct Hcase as (_ & Hagents & Hnext & postContent & tweetId & -> &
                       Hmem & _ & Hid).
    destruct tweetId as [id|].
    + destruct Hid as (t & Hok & _).
      destruct (Hpost t postContent (replyIdOf options)) as [error Herr].
      congruence.
    + exists postContent. split; [reflexivity|].
      split; [rewrite Hagents; apply lookup_insert_eq|].
      split; [exact Hnext|]. simpl. now right.
  - destruct Hcase as [Hcase _]. congruence.
  - destruct Hcase as (_ & _ & _ & _ & [(_ & t & prompt & Herr)|
                                         (target & _ & t & avoid & Herr)]).
    + destruct (Htweet t prompt) as [text Hok]. congruence.
    + destruct (Hcontent t target avoid) as [text Hok]. congruence.
Qed.

Lemma createAgentPost_reports_unpublished_post_witness :
  exists postContent,
    fst (createAgentPost "bot1" noOptions offlineWorld Scenario.oneAgent)
    = Returned (Some (Posted postContent "bot1" None)) /\
    agents (snd (createAgentPost "bot1" noOptions offlineWorld
                   Scenario.oneAgent)) !! "bot1"
    = Some (setLastPostTime 1000000 Scenario.bot1).
Proof.
  destruct (createAgentPost_reports_unpublished_post offlineWorld
              Scenario.oneAgent "bot1" noOptions Scenario.bot1
              eq_refl eq_refl
              (fun _ _ => ex_intro _ "gm"%string eq_refl)
              (fun _ _ _ => ex_intro _ "hello there"%string eq_refl)
              (fun _ _ _ => ex_intro _ Scenario.networkError eq_refl))
    as (postContent & H1 & H2 & _).
  exists postContent. split; [exact H1|exact H2].
Defined.

(** X21: When the language model fails, [createAgentPost] throws its error
    and nothing has happened: nothing is posted, the agent's last post
    time stays, and no next post is scheduled. *)
Theorem createAgentPost_failed_generation (w : World) (m : Manager)
    (agentId : string) (options : PostOptions) (agent : Agent) :
  agents m !! agentId = Some agent ->
  tooSoon agent (dateNow w (trace m)) options = false ->
  (forall t prompt, exists error, generateTweet w t agent prompt = Err error) ->
  (forall t target avoid, exists error,
     generateContent w t agent target avoid = Err error) ->
  let m' := snd (createAgentPost agentId options w m) in
  (exists error,
     fst (createAgentPost agentId options w m) = Thrown error) /\
  reactionsOf (createAgentPost agentId options) w m = [] /\
  agents m' = agents m /\
  nextPostTimes m' = nextPostTimes m /\
  processedTweetIds m' = processedTweetIds m.
Proof.
  intros Hagent Hsoon Htweet Hcontent m'. subst m'.
  destruct (createAgentPost_summary w m agentId options agent Hagent)
    as (new & Htrace & Hcase).
  destruct (createAgentPost_tame agentId options w m)
    as (new' & _ & (Hids & _) & _).
  unfold reactionsOf. rewrite (callsOf_new _ w m _ Htrace).
  destruct (fst (createAgentPost agentId options w m))
    as [[reaction|]|error].
  - destruct Hcase as (_ & _ & _ & postContent & tweetId & _ & _ &
                       [(_ & t & prompt & text & Hok)|
                        (target & _ & t & avoid & text & Hok)] & _).
    + destruct (Htweet t prompt) as [error Herr]. congruence.
    + destruct (Hcontent t target avoid) as [error Herr]. congruence.
  - destruct Hcase as [Hcase _]. congruence.
  - destruct Hcase as (_ & Hagents & Hnext & Hquiet & _).
    split; [eauto|]. split; [|auto].
    simpl. now apply filter_none.
Qed.

Lemma createAgentPost_failed_generation_witness :
  reactionsOf (createAgentPost "bot1" noOptions) muteWorld Scenario.oneAgent
  = [] /\
  nextPostTimes (snd (createAgentPost "bot1" noOptions muteWorld
                        Scenario.oneAgent))
  = nextPostTimes Scenario.oneAgent.
Proof.
  pose proof (createAgentPost_failed_generation muteWorld Scenario.oneAgent
                "bot1" noOptions Scenario.bot1 eq_refl eq_refl
                (fun _ _ => ex_intro _ Scenario.networkError eq_refl)
                (fun _ _ _ => ex_intro _ Scenario.networkError eq_refl))
    as (_ & H1 & _ & H2 & _).
  split; [exact H1|exact H2].
Defined.



End PostingFacts.

(** ** The store of processed tweets *)

Section StoreFacts.
Import Types JsString AgentManager Tameness Situations.
Local Open Scope manager_scope.
Local Open Scope Z_scope.

Lemma NoDup_snoc (id : string) (ids : list string) :
  NoDup ids -> ~ In id ids -> NoDup (ids ++ [id]).
Proof.
  intros Hnd Hnot. apply NoDup_app. split; [exact Hnd|]. split.
  - intros x Hx Hx'. apply list_elem_of_singleton in Hx'. subst.
    apply Hnot, list_elem_of_In, Hx.
  - apply NoDup_singleton.
Qed.

(** X23: Under deliveries the store of processed tweets only grows, by
    identifiers of tweets delivered, and never holds an identifier
    twice. *)
Theorem processed_store_only_grows (deliveries : list (string * Tweet))
    (w : World) (m : Manager) :
  NoDup (processedTweetIds m) ->
  let m' := snd (deliverAll deliveries w m) in
  NoDup (processedTweetIds m') /\
  exists added,
    processedTweetIds m' = processedTweetIds m ++ added /\
    Forall (fun id => exists d, In d deliveries /\ tweet_id (snd d) = id)
      added.
Proof.
  revert m. induction deliveries as [|d ds IH]; intros m Hnd m'; subst m'.
  - simpl. split; [exact Hnd|]. exists []. now rewrite app_nil_r.
  - rewrite deliverAll_cons.
    destruct (processAgentReaction_summary w m (fst d) (snd d))
      as (new & _ & _ & _ & _ & _ & Hcase).
    cbv zeta in Hcase.
    set (m1 := snd (processAgentReaction (fst d) (snd d) w m)) in *.
    assert (H1 : NoDup (processedTweetIds m1) /\
                 exists added1,
                   processedTweetIds m1 = processedTweetIds m ++ added1 /\
                   Forall (fun id => id = tweet_id (snd d)) added1).
    { destruct Hcase as [[-> _]|(Hnot & -> & _)].
      - split; [exact Hnd|]. exists []. now rewrite app_nil_r.
      - split; [now apply NoDup_snoc|]. eexists. split; [reflexivity|].
        now constructor. }
    destruct H1 as (Hnd1 & added1 & E1 & F1).
    destruct (IH m1 Hnd1) as (Hnd2 & added2 & E2 & F2).
    split; [exact Hnd2|]. exists (added1 ++ added2).
    rewrite E2, E1, app_assoc. split; [reflexivity|].
    apply Forall_app. split.
    + eapply List.Forall_impl; [|exact F1]. intros id ->.
      exists d. split; [now left|reflexivity].
    + eapply List.Forall_impl; [|exact F2]. intros id (d' & Hin & Hid).
      exists d'. split; [now right|exact Hid].
Qed.

Lemma processed_store_only_grows_witness :
  let deliveries := [("bot1"%string, Scenario.mentionOfBot1);
                     ("bot1"%string, Scenario.mentionOfBot1);
                     ("bot1"%string, Scenario.passiveTweet)] in
  processedTweetIds
    (snd (deliverAll deliveries (Scenario.calmWorld ActLike 0)
            Scenario.oneAgent)) = ["t1"; "t4"]%string /\
  NoDup (processedTweetIds
           (snd (deliverAll deliveries (Scenario.calmWorld ActLike 0)
                   Scenario.oneAgent))).
Proof.
  intros deliveries. split; [vm_compute; reflexivity|].
  exact (proj1 (processed_store_only_grows deliveries
                  (Scenario.calmWorld ActLike 0) Scenario.oneAgent
                  (NoDup_nil_2 : NoDup (processedTweetIds Scenario.oneAgent)))).
Defined.

Lemma setAdd_spec (id : string) (ids : list string) :
  (In id ids -> setAdd id ids = ids) /\
  (~ In id ids -> setAdd id ids = ids ++ [id]).
Proof.
  unfold setAdd. destruct (existsb (String.eqb id) ids) eqn:He.
  - apply existsb_eqb_In in He. split; [reflexivity|contradiction].
  - split; [|reflexivity]. intros Hin. apply existsb_eqb_In in Hin.
    congruence.
Qed.

Lemma fold_setAdd (stored : list string) :
  forall ids,
  (exists added,
     fold_left (fun acc id => setAdd id acc) stored ids = ids ++ added) /\
  (forall id, In id (fold_left (fun acc id => setAdd id acc) stored ids)
              <-> In id ids \/ In id stored) /\
  (NoDup ids ->
   NoDup (fold_left (fun acc id => setAdd id acc) stored ids)) /\
  (NoDup (ids ++ stored) ->
   fold_left (fun acc id => setAdd id acc) stored ids = ids ++ stored).
Proof.
  induction stored as [|x stored IH]; intros ids; simpl.
  - split; [exists []; now rewrite app_nil_r|]. split; [tauto|].
    split; [auto|]. intros _. now rewrite app_nil_r.
  - destruct (IH (setAdd x ids)) as ((added & E) & Hin & Hnd & Hall).
    destruct (setAdd_spec x ids) as [Hold Hnew].
    destruct (in_dec string_dec x ids) as [Hx|Hx].
    + rewrite (Hold Hx) in *. split; [eauto|]. split.
      * intros id. rewrite Hin. split; [tauto|].
        intros [H|[<-|H]]; auto.
      * split; [exact Hnd|]. intros Hd. exfalso.
        apply NoDup_app in Hd. destruct Hd as (_ & Hd & _).
        apply (Hd x); [now apply list_elem_of_In|]. now left.
    + rewrite (Hnew Hx) in *. split.
      * exists (x :: added). rewrite E, <- app_assoc. reflexivity.
      * split.
        -- intros id. rewrite Hin, in_app_iff. simpl. tauto.
        -- split; [intros Hd; apply Hnd; now apply NoDup_snoc|].
           intros Hd. rewrite Hall; rewrite <- app_assoc; [reflexivity|].
           exact Hd.
Qed.

Lemma loadProcessedTweets_run (w : World) (m : Manager) :
  loadProcessedTweets w m
  = (Returned tt,
     withProcessedTweetIds
       (fun ids =>
          match loadProcessedTweetsFile w (trace m) with
          | Ok (Some stored) =>
              fold_left (fun acc id => setAdd id acc) stored ids
          | Ok None => ids
          | Err _ => []
          end)
       (withTrace
          (fun t => t ++ [mkObserved CLoadProcessedTweets (processedTweetIds m)])
          m)).
Proof.
  unfold loadProcessedTweets.
  cbv beta iota zeta delta [tryCatch bind extern modify ret].
  destruct (loadProcessedTweetsFile w (trace m)) as [[stored|]|e];
    reflexivity.
Qed.

(** X24: Loading the processed tweets never throws.  A file that cannot
    be read empties the store, so every tweet ever processed is
    forgotten; a missing file leaves the store; a file that is read is
    merged in: the identifiers of the store stay in front, the new ones
    of the file follow, none twice. *)
Theorem unreadable_file_empties_the_store (w : World) (m : Manager) :
  let m' := snd (loadProcessedTweets w m) in
  fst (loadProcessedTweets w m) = Returned tt /\
  match loadProcessedTweetsFile w (trace m) with
  | Err _ => processedTweetIds m' = []
  | Ok None => processedTweetIds m' = processedTweetIds m
  | Ok (Some stored) =>
      (exists added, processedTweetIds m' = processedTweetIds m ++ added) /\
      (forall id, In id (processedTweetIds m')
                  <-> In id (processedTweetIds m) \/ In id stored) /\
      (NoDup (processedTweetIds m) -> NoDup (processedTweetIds m'))
  end.
Proof.
  intros m'. subst m'. rewrite loadProcessedTweets_run. simpl.
  split; [reflexivity|].
  destruct (loadProcessedTweetsFile w (trace m)) as [[stored|]|e];
    [|reflexivity..].
  destruct (fold_setAdd stored (processedTweetIds m)) as (H1 & H2 & H3 & _).
  auto.
Qed.

Lemma unreadable_file_empties_the_store_witness :
  let m := withProcessedTweetIds (fun _ => ["t1"; "t2"]%string)
             Scenario.oneAgent in
  processedTweetIds
    (snd (loadProcessedTweets (worldWithFile (Err Scenario.networkError)) m))
  = [].
Proof.
  intros m.
  exact (proj2 (unreadable_file_empties_the_store
                  (worldWithFile (Err Scenario.networkError)) m)).
Defined.

Lemma lastThousand_spec (ids : list string) :
  (length (lastThousand ids) <= 1000)%nat /\
  (exists older, ids = older ++ lastThousand ids) /\
  ((length ids <= 1000)%nat -> lastThousand ids = ids).
Proof.
  unfold lastThousand. split; [rewrite length_skipn; lia|]. split.
  - exists (firstn (length ids - 1000) ids). symmetry. apply firstn_skipn.
  - intros H. replace (length ids - 1000)%nat with 0%nat by lia. reflexivity.
Qed.

(** X25: What is saved loads back: [saveProcessedTweets] writes the last
    1000 identifiers of the store, in their order, and a manager with
    an empty store that loads the file has exactly these in its store,
    in the same order. *)
Theorem saved_tweets_load_back (w w' : World) (m m0 : Manager) :
  NoDup (processedTweetIds m) ->
  processedTweetIds m0 = [] ->
  loadProcessedTweetsFile w' (trace m0)
  = Ok (Some (lastThousand (processedTweetIds m))) ->
  map call (callsOf saveProcessedTweets w m)
  = [CSaveProcessedTweets (lastThousand (processedTweetIds m))] /\
  processedTweetIds (snd (loadProcessedTweets w' m0))
  = lastThousand (processedTweetIds m) /\
  (length (lastThousand (processedTweetIds m)) <= 1000)%nat /\
  exists older,
    processedTweetIds m = older ++ lastThousand (processedTweetIds m).
Proof.
  intros Hnd Hempty Hfile.
  destruct (lastThousand_spec (processedTweetIds m)) as (Hlen & Hsuffix & _).
  split.
  { rewrite (callsOf_new _ w m
               [mkObserved
                  (CSaveProcessedTweets (lastThousand (processedTweetIds m)))
                  (processedTweetIds m)]); reflexivity. }
  split; [|split; assumption].
  rewrite loadProcessedTweets_run. simpl. rewrite Hfile, Hempty.
  destruct (fold_setAdd (lastThousand (processedTweetIds m)) [])
    as (_ & _ & _ & Hall).
  apply Hall. simpl. destruct Hsuffix as [older Holder].
  rewrite Holder in Hnd. apply NoDup_app in Hnd. apply Hnd.
Qed.

Lemma saved_tweets_load_back_witness :
  let m := withProcessedTweetIds (fun _ => ["t1"; "t2"; "t3"]%string)
             Scenario.oneAgent in
  processedTweetIds
    (snd (loadProcessedTweets
            (worldWithFile (Ok (Some (lastThousand (processedTweetIds m)))))
            newManager))
  = ["t1"; "t2"; "t3"]%string.
Proof.
  intros m.
  assert (Hnd : NoDup (processedTweetIds m)).
  { apply (NoDup_ListNoDup (processedTweetIds m)).
    repeat constructor; simpl; intuition discriminate. }
  exact (proj1 (proj2 (saved_tweets_load_back (Scenario.calmWorld ActIgnore 0)
                         (worldWithFile
                            (Ok (Some (lastThousand (processedTweetIds m)))))
                         m newManager Hnd eq_refl eq_refl))).
Defined.

End StoreFacts.

(** ** Polling for mentions *)

Section PollingFacts.
Import Types JsString AgentManager Tameness Situations.
Local Open Scope manager_scope.
Local Open Scope Z_scope.

Lemma keepsPollingState_tame {A} (n : nat) (c : M A) :
  tame n c -> keepsPollingState c.
Proof.
  intros Hc w m. destruct (Hc w m) as (new & _ & (_ & _ & _ & H1 & H2) & _).
  split; assumption.
Qed.

Lemma keepsPollingState_bind {A B} (c : M A) (k : A -> M B) :
  keepsPollingState c -> (forall a, keepsPollingState (k a)) ->
  keepsPollingState (bind c k).
Proof.
  intros Hc Hk w m. unfold bind. destruct (Hc w m) as [H1 H2].
  destruct (c w m) as [[a|e] m1]; simpl in *; [|split; assumption].
  destruct (Hk a w m1) as [G1 G2]. split; congruence.
Qed.

Lemma keepsPollingState_handleMention (agentId : string) (mention : Tweet) :
  keepsPollingState (handleMention agentId mention).
Proof.
  unfold handleMention. apply keepsPollingState_bind.
  - apply (keepsPollingState_tame 0). tame_go.
  - intros mention'. apply keepsPollingState_bind.
    + intros w m.
      destruct (processAgentReaction_summary w m agentId mention')
        as (new & _ & _ & _ & H1 & H2 & _). split; assumption.
    + intros _. apply (keepsPollingState_tame 0), tame_ret.
Qed.

Lemma keepsPollingState_forEach {A} (l : list A) (body : A -> M unit) :
  (forall x, keepsPollingState (body x)) -> keepsPollingState (forEach l body).
Proof.
  intros Hbody. induction l as [|x l IH]; simpl.
  - apply (keepsPollingState_tame 0), tame_ret.
  - apply keepsPollingState_bind; [apply Hbody|intros _; exact IH].
Qed.

(** A tick outside the cooldown, with the screen name known, is the
    fetch of the mentions and what follows it. *)
Lemma pollTick_fetches (w : World) (m : Manager) (agentId u : string) :
  inCooldown m agentId (dateNow w (trace m)) = false ->
  truthy (agentUsername m !! agentId) = Some u ->
  pollTick agentId w m
  = tryCatch (pollMentions agentId)
      (fun error => _handleApiError agentId error) w (atClock m).
Proof.
  intros Hcool Hname. unfold pollTick, tryCatch, pollBody.
  cbv beta iota zeta delta [bind ask extern getManager ret].
  fold (atClock m).
  change (inCooldown (atClock m) agentId (dateNow w (trace m)))
    with (inCooldown m agentId (dateNow w (trace m))).
  rewrite Hcool.
  change (agentUsername (atClock m)) with (agentUsername m). rewrite Hname.
  reflexivity.
Qed.

(** X26: The newest mention fetched is remembered whatever becomes of the
    mentions: after the tick the agent's [lastMentionId] is the
    identifier of the first mention of the answer, also when handling
    a mention throws, so a mention that failed is not fetched again. *)
Theorem poll_remembers_newest_mention (w : World) (m : Manager)
    (agentId u : string) (newest : Tweet) (rest : list Tweet) :
  inCooldown m agentId (dateNow w (trace m)) = false ->
  truthy (agentUsername m !! agentId) = Some u ->
  getAgentMentions w (trace (atClock m)) agentId (lastMentionId m !! agentId)
  = Ok (newest :: rest) ->
  let m' := snd (pollTick agentId w m) in
  fst (pollTick agentId w m) = Returned tt /\
  lastMentionId m' = <[agentId := tweet_id newest]> (lastMentionId m) /\
  agentUsername m' = agentUsername m.
Proof.
  intros Hcool Hname Hok m'. subst m'.
  rewrite (pollTick_fetches w m agentId u Hcool Hname).
  unfold tryCatch, pollMentions.
  cbv beta iota zeta delta [bind extern getManager modify ret].
  change (lastMentionId (atClock m)) with (lastMentionId m).
  rewrite Hok. cbv beta iota zeta.
  match goal with
  | |- context [forEach ?l ?body ?w0 ?m0] =>
      destruct (keepsPollingState_forEach l body
                  (keepsPollingState_handleMention agentId) w0 m0)
        as [F1 F2];
      destruct (forEach l body w0 m0) as [[[]|e] m1]
  end; simpl in F1, F2.
  - destruct (keepsPollingState_tame 0 _ saveProcessedTweets_tame w m1)
      as [S1 S2].
    destruct (saveProcessedTweets w m1) as [[[]|e] m2] eqn:Hsave;
      simpl in S1, S2 |- *.
    + rewrite S1, S2, F1, F2. repeat split.
    + rewrite S1, S2, F1, F2. repeat split.
  - simpl. rewrite F1, F2. repeat split.
Qed.

Lemma poll_remembers_newest_mention_witness :
  let w := worldWithMentions [Scenario.mentionOfBot1; Scenario.ownTweet] in
  lastMentionId (snd (pollTick "bot1" w Scenario.afterThreeErrors)) !! "bot1"
  = Some "t1"%string.
Proof.
  intros w.
  rewrite (proj1 (proj2 (poll_remembers_newest_mention w
                           Scenario.afterThreeErrors "bot1" "bot1"
                           Scenario.mentionOfBot1 [Scenario.ownTweet]
                           eq_refl eq_refl eq_refl))).
  reflexivity.
Defined.

(** X27: A batch of mentions that are all in the store, or written by the
    agent itself, is fetched and nothing else: the tick asks the
    network for the mentions and for nothing more, reacts to none and
    leaves the store as it is. *)
Theorem poll_skips_processed_mentions (w : World) (m : Manager)
    (agentId u : string) (mentions : list Tweet) :
  inCooldown m agentId (dateNow w (trace m)) = false ->
  truthy (agentUsername m !! agentId) = Some u ->
  getAgentMentions w (trace (atClock m)) agentId (lastMentionId m !! agentId)
  = Ok mentions ->
  Forall (fun mention => keepMention m agentId mention = false) mentions ->
  let m' := snd (pollTick agentId w m) in
  fst (pollTick agentId w m) = Returned tt /\
  processedTweetIds m' = processedTweetIds m /\
  map call
    (List.filter (fun o => isApiCall (call o)) (callsOf (pollTick agentId) w m))
  = [CGetAgentMentions agentId (lastMentionId m !! agentId)] /\
  reactionsOf (pollTick agentId) w m = [].
Proof.
  intros Hcool Hname Hok Hall m'. subst m'.
  unfold reactionsOf, callsOf.
  rewrite (pollTick_fetches w m agentId u Hcool Hname).
  unfold tryCatch, pollMentions.
  cbv beta iota zeta delta [bind extern getManager modify ret].
  change (lastMentionId (atClock m)) with (lastMentionId m).
  rewrite Hok. cbv beta iota zeta.
  destruct mentions as [|newest rest].
  - simpl. rewrite <- !app_assoc.
    rewrite !List.skipn_app, !List.skipn_all, Nat.sub_diag.
    simpl. repeat split.
  - match goal with
    | |- context [List.filter (keepMention ?mx agentId) ?l] =>
        replace (List.filter (keepMention mx agentId) l) with (@nil Tweet)
    end.
    + simpl. rewrite <- !app_assoc.
      rewrite !List.skipn_app, !List.skipn_all, Nat.sub_diag.
      simpl. repeat split.
    + symmetry. apply filter_none.
      eapply List.Forall_impl; [|exact Hall]. intros mention H. exact H.
Qed.

Lemma poll_skips_processed_mentions_witness :
  let w := worldWithMentions [Scenario.mentionOfBot1; Scenario.ownTweet] in
  let m := withProcessedTweetIds (fun _ => ["t1"%string])
             Scenario.afterThreeErrors in
  reactionsOf (pollTick "bot1") w m = [] /\
  processedTweetIds (snd (pollTick "bot1" w m)) = ["t1"%string].
Proof.
  intros w m.
  assert (Hall : Forall (fun mention => keepMention m "bot1" mention = false)
                   [Scenario.mentionOfBot1; Scenario.ownTweet])
    by (repeat constructor).
  pose proof (poll_skips_processed_mentions w m "bot1" "bot1"
                [Scenario.mentionOfBot1; Scenario.ownTweet]
                eq_refl eq_refl eq_refl Hall) as (_ & H1 & _ & H2).
  split; [exact H2|exact H1].
Defined.

(** X28: When the screen name of the agent is not known and asking for it
    fails, the tick ends there: the error is counted and a cooldown is
    set, which ends [d] minutes after the reading of the clock that
    the error handler takes, where [d] is the step of the ladder for
    the new error count (at least 15 for a rate-limit error) and at
    least 1; the mentions are not fetched, and the name is still
    unknown, so the next tick after the cooldown asks again. *)
Theorem failed_username_lookup_backs_off (w : World) (m : Manager)
    (agentId : string) (error : JsError) :
  inCooldown m agentId (dateNow w (trace m)) = false ->
  truthy (agentUsername m !! agentId) = None ->
  meFails w (trace (atClock m)) agentId = Some error ->
  let m' := snd (pollTick agentId w m) in
  let now' :=
    dateNow w (trace (atClock m)
               ++ [mkObserved (CMe agentId) (processedTweetIds m)]) in
  let errorCount := default 0 (apiErrorCounts m !! agentId) + 1 in
  let d := if isRateLimit error
           then Z.max (backoffMinutes errorCount) 15
           else backoffMinutes errorCount in
  fst (pollTick agentId w m) = Returned tt /\
  map call (callsOf (pollTick agentId) w m) = [CDateNow; CMe agentId; CDateNow] /\
  apiErrorCounts m' !! agentId = Some errorCount /\
  (apiCooldowns m' !! agentId = Some (now' + minutes d) /\
   cooldownDuration m' agentId now' = Some (minutes d) /\
   1 <= d) /\
  agentUsername m' = agentUsername m /\
  lastMentionId m' = lastMentionId m.
Proof.
  intros Hcool Hname Hfail m' now' errorCount d. subst m'.
  assert (Hd : 1 <= d).
  { subst d errorCount. destruct (isRateLimit error); unfold backoffMinutes;
      repeat match goal with
             | |- context [?a >=? ?b] => destruct (Z.geb_spec a b)
             end; lia. }
  assert (Hrun : pollTick agentId w m
                 = _handleApiError agentId error w
                     (withTrace
                        (fun t => t ++ [mkObserved (CMe agentId)
                                          (processedTweetIds m)])
                        (atClock m))).
  { unfold pollTick, pollBody.
    cbv beta iota zeta delta [tryCatch bind ask extern getManager ret modify].
    fold (atClock m).
    change (inCooldown (atClock m) agentId (dateNow w (trace m)))
      with (inCooldown m agentId (dateNow w (trace m))).
    rewrite Hcool.
    change (agentUsername (atClock m)) with (agentUsername m). rewrite Hname.
    unfold me. rewrite Hfail. cbv beta iota zeta.
    rewrite handleApiError_run. reflexivity. }
  unfold callsOf. rewrite Hrun, handleApiError_run. simpl.
  split; [reflexivity|]. split.
  { rewrite <- !app_assoc.
    rewrite !List.skipn_app, !List.skipn_all, Nat.sub_diag. reflexivity. }
  split; [apply lookup_insert_eq|]. split; [|split; reflexivity].
  unfold cooldownDuration. simpl. rewrite lookup_insert_eq.
  split; [reflexivity|]. split; [|exact Hd].
  f_equal. unfold minutes. subst now' d errorCount. simpl trace. lia.
Qed.

(** The first failure, a rate-limit error, at the clock reading
    1 000 000: the cooldown ends 15 minutes later. *)
Lemma failed_username_lookup_backs_off_witness :
  map call (callsOf (pollTick "bot1") Scenario.worldWithoutMe
              Scenario.oneAgent)
  = [CDateNow; CMe "bot1"; CDateNow] /\
  apiErrorCounts (snd (pollTick "bot1" Scenario.worldWithoutMe
                         Scenario.oneAgent)) !! "bot1" = Some 1 /\
  apiCooldowns (snd (pollTick "bot1" Scenario.worldWithoutMe
                       Scenario.oneAgent)) !! "bot1"
  = Some (1000000 + minutes 15).
Proof.
  pose proof (failed_username_lookup_backs_off Scenario.worldWithoutMe
                Scenario.oneAgent "bot1" Scenario.rateLimitError
                eq_refl eq_refl eq_refl) as (_ & H1 & H2 & (H3 & _) & _).
  split; [exact H1|]. split; [exact H2|exact H3].
Defined.

End PollingFacts.

(** ** Reactions to mentions *)

Section MentionFacts.
Import Types JsString AgentManager Tameness Situations.
Local Open Scope manager_scope.
Local Open Scope Z_scope.

(** The branch for mentions comes to a reply to the tweet, whatever
    the resolution of its context gives. *)
Lemma mentionPath_run (w : World) (m : Manager) (agentId : string)
    (tweet : Tweet) :
  exists tweet' avoid pre,
    mentionPath agentId tweet w m
    = createAgentPost agentId (replyOptions tweet' avoid) w
        (withTrace (fun t => t ++ pre) m) /\
    tweet_id tweet' = tweet_id tweet /\
    Forall (fun o => isReactionCall (call o) = false) pre.
Proof.
  assert (Hnil : withTrace (fun t => t ++ []) m = m).
  { destruct m. unfold withTrace. simpl. now rewrite app_nil_r. }
  unfold mentionPath.
  cbv beta iota zeta delta [bind tryCatch ret extern].
  destruct (truthy (replyToId tweet)) as [parent|].
  2:{ cbv beta iota zeta.
      destruct (negb false && asksAboutContext tweet);
        eexists tweet, _, []; rewrite Hnil; repeat split; constructor. }
  destruct (getTweet w (trace m) parent) as [original|e]; cbv beta iota zeta.
  2:{ destruct (negb false && asksAboutContext tweet);
        eexists tweet, _, [_]; repeat split; repeat constructor. }
  destruct (conversationHistory tweet) as [history|]; cbv beta iota zeta.
  { eexists tweet, false, [_]. simpl. repeat split; repeat constructor. }
  unfold fetchConversationThread.
  match goal with
  | |- context [fetchThread ?n parent [] agentId w ?mx] =>
      destruct (fetchThread_returns n parent [] agentId w mx)
        as (added & new & -> & _ & _ & Hnew & _)
  end.
  cbv beta iota zeta.
  assert (Hquiet : Forall (fun o => isReactionCall (call o) = false) new).
  { eapply List.Forall_impl; [|exact Hnew].
    intros o [id ->]. reflexivity. }
  unfold createdAtOrNow.
  destruct (createdAt tweet) as [time|];
    cbv beta iota zeta delta [ret ask extern]; simpl;
    eexists (withContext tweet _), false, _;
    (split; [unfold withTrace; simpl; rewrite <- ?app_assoc; reflexivity|]);
    (split; [reflexivity|]);
    constructor; [reflexivity| |reflexivity|];
    try (apply Forall_app; split; [exact Hquiet|repeat constructor]);
    exact Hquiet.
Qed.

Lemma filter_single {A} (f : A -> bool) (x : A) (l : list A) :
  (length (List.filter f l) <= 1)%nat -> In x l -> f x = true ->
  List.filter f l = [x].
Proof.
  intros Hlen Hin Hx.
  assert (Hf : In x (List.filter f l)) by (apply filter_In; auto).
  destruct (List.filter f l) as [|y [|z rest]]; simpl in *;
    [contradiction| |lia].
  destruct Hf as [->|[]]. reflexivity.
Qed.

(** X29: A mention is always answered: a tweet by someone else that
    mentions the agent and is not in the store is replied to, in the
    thread of that tweet, whenever the language model and the network
    answer; no probability of the agent is consulted, and the reply is
    the only reaction. *)
Theorem mention_is_always_answered (w : World) (m : Manager)
    (agentId : string) (tweet : Tweet) (agent : Agent) :
  agents m !! agentId = Some agent ->
  isSelfMention agentId (usernameSeen w m agentId) tweet = false ->
  ~ In (tweet_id tweet) (processedTweetIds m) ->
  isMention agent agentId tweet = true ->
  tweet_id tweet <> EmptyString ->
  (forall t target avoid, exists text,
     generateContent w t agent target avoid = Ok text) ->
  (forall t postContent replyToTweetId, exists id,
     postTweet w t agentId postContent replyToTweetId = Ok id) ->
  exists postContent id,
    fst (processAgentReaction agentId tweet w m)
    = Returned (Some (Posted postContent agentId (Some id))) /\
    map call (reactionsOf (processAgentReaction agentId tweet) w m)
    = [CPostTweet agentId postContent (Some (tweet_id tweet))].
Proof.
  intros Hagent Hself Hnew Hmention Hid Hcontent Hpost.
  pose proof (processAgentReaction_cases w m agentId tweet) as Hrun.
  rewrite Hagent, Hself, Hmention in Hrun.
  destruct (existsb (String.eqb (tweet_id tweet)) (processedTweetIds m))
    eqn:Hdup; [apply existsb_eqb_In in Hdup; contradiction|].
  destruct (processAgentReaction_summary w m agentId tweet)
    as (new & Htrace & _ & _ & _ & _ & Hcase).
  cbv zeta in Htrace, Hcase.
  unfold reactionsOf. rewrite (callsOf_new _ w m new Htrace).
  rewrite Hrun in Htrace |- *.
  set (m2 := withProcessedTweetIds (fun ids => ids ++ [tweet_id tweet])
               (afterMe agentId m)) in *.
  destruct (mentionPath_run w m2 agentId tweet)
    as (tweet' & avoid & pre & Hpath & Hsame & _).
  rewrite Hpath in Htrace |- *.
  set (m3 := withTrace (fun t => t ++ pre) m2) in *.
  destruct (createAgentPost_summary w m3 agentId (replyOptions tweet' avoid)
              agent Hagent) as (new3 & Htrace3 & Hcase3).
  assert (Hreply : replyIdOf (replyOptions tweet' avoid)
                   = Some (tweet_id tweet)).
  { unfold replyIdOf. simpl. rewrite Hsame. now apply truthy_nonempty. }
  rewrite Hreply in Hcase3.
  destruct (fst (createAgentPost agentId (replyOptions tweet' avoid) w m3))
    as [[reaction|]|error].
  - destruct Hcase3 as (_ & _ & _ & postContent & tweetId & -> & _ & _ & Hsent).
    destruct tweetId as [id|].
    + destruct Hsent as (t & _ & Hin). exists postContent, id.
      split; [reflexivity|].
      assert (Hlen : (length (List.filter
                                (fun o => isReactionCall (call o)) new)
                      <= 1)%nat).
      { destruct Hcase as [(_ & Hnone)|(_ & _ & _ & Hlen)]; [|exact Hlen].
        rewrite (filter_none _ _ Hnone). simpl. lia. }
      assert (Hnew3 : In (CPostTweet agentId postContent
                            (Some (tweet_id tweet))) (map call new)).
      { rewrite Htrace3 in Htrace. subst m3 m2. simpl in Htrace.
        rewrite <- !app_assoc in Htrace. apply app_inv_head in Htrace.
        rewrite <- Htrace, !map_app. simpl.
        right. apply in_or_app. right. right. exact Hin. }
      apply in_map_iff in Hnew3. destruct Hnew3 as (o & Ho & Hino).
      rewrite (filter_single _ o new Hlen Hino); [simpl; now rewrite Ho|].
      now rewrite Ho.
    + destruct Hsent as (t & error & Herr).
      destruct (Hpost t postContent (Some (tweet_id tweet))) as [id Hok].
      congruence.
  - destruct Hcase3 as [Hsoon _].
    rewrite tooSoon_ignored in Hsoon by reflexivity. discriminate.
  - destruct Hcase3 as (_ & _ & _ & _ & [(Hnone & _)|
                                          (target & _ & t & a & Herr)]).
    + discriminate Hnone.
    + destruct (Hcontent t target a) as [text Hok]. congruence.
Qed.

Lemma mention_is_always_answered_witness :
  map call
    (reactionsOf (processAgentReaction "bot1" Scenario.mentionOfBot1)
       (Scenario.calmWorld ActIgnore 1) Scenario.oneAgent)
  = [CPostTweet "bot1" "hello there" (Some "t1"%string)].
Proof.
  destruct (mention_is_always_answered (Scenario.calmWorld ActIgnore 1)
              Scenario.oneAgent "bot1" Scenario.mentionOfBot1 Scenario.bot1
              eq_refl eq_refl (fun H => H) eq_refl
              ltac:(discriminate)
              (fun _ _ _ => ex_intro _ "hello there"%string eq_refl)
              (fun _ _ _ => ex_intro _ "p1"%string eq_refl))
    as (postContent & id & Hfst & Hcalls).
  rewrite Hcalls. f_equal. f_equal.
  vm_compute in Hfst. now injection Hfst as <- _.
Defined.

End MentionFacts.

(** ** Events handed to the agents *)

Section AgentEventFacts.
Import Types JsString AgentManager AgentEvents.
Local Open Scope Q_scope.

(** What one call of [processAgentEvent] can do. *)
Lemma processAgentEvent_scope (agents : gmap string Agent) (agentId : string)
    (event : Event) (data : EventData) (r : Q)
    (answer : Result (list Tweet)) (now created : Z) :
  let steps := fst (processAgentEvent agents agentId event data r answer
                      now created) in
  let tail := snd (processAgentEvent agents agentId event data r answer
                     now created) in
  Forall (fun s => stepAgent s = agentId /\ notTargeted agentId event = false)
    steps /\
  (forall id, handsOver tail = Some id ->
     id = agentId /\ notTargeted agentId event = false) /\
  (event_type event = "news"%string -> steps = [] /\ handsOver tail = None) /\
  (event_type event = "interaction_prompt"%string ->
   Forall (fun s => stepAgent s = initiatorId data) steps /\
   forall id, handsOver tail = Some id -> id = initiatorId data).
Proof.
  unfold processAgentEvent.
  destruct (agents !! agentId) as [agent|]; simpl.
  2:{ repeat split; auto; discriminate. }
  destruct (notTargeted agentId event) eqn:Htarget; simpl.
  { repeat split; auto; discriminate. }
  destruct (String.eqb_spec (event_type event) "news") as [Hnews|Hnews];
    simpl.
  { repeat split; auto; discriminate. }
  destruct (String.eqb_spec (event_type event) "mood_shift") as [Hmood|Hmood];
    simpl.
  { split; [repeat constructor|]. split.
    - intros id. destruct (Qlt_le_dec _ _); [|destruct (Qlt_le_dec _ _)];
        simpl; intros [= <-] || discriminate; auto.
    - split; intros H; congruence. }
  destruct (String.eqb_spec (event_type event) "interaction_prompt")
    as [Hprompt|Hprompt]; simpl.
  2:{ repeat split; auto; discriminate. }
  destruct (String.eqb_spec (initiatorId data) agentId) as [Hinit|Hinit];
    simpl.
  2:{ repeat split; auto; discriminate. }
  split; [repeat constructor|]. split; [|split; [congruence|]].
  - intros id. destruct answer as [[|first others]|e]; simpl;
      intros [= <-]; auto.
  - intros _. split; [repeat constructor; auto|].
    intros id. destruct answer as [[|first others]|e]; simpl;
      intros [= <-]; auto.
Qed.

(** X30: An event reaches only the agents it is meant for: whatever the
    listener for all events does, memory, mood, timeline, post or
    reaction, it does for an agent the event is targeted at, or for any
    agent when the event has no targets.  A news event reaches no
    agent at all: handling it throws before anything is done.  An
    interaction prompt makes only its initiator act. *)
Theorem event_reaches_only_its_targets (agents : gmap string Agent)
    (answers : Answers) (event : Event) (data : EventData)
    (agentIds : list string) :
  let steps :=
    fst (fst (notifyAgents agents answers event data agentIds)) in
  let tails :=
    snd (fst (notifyAgents agents answers event data agentIds)) in
  Forall (fun s => In (stepAgent s) agentIds /\
                   notTargeted (stepAgent s) event = false) steps /\
  Forall (fun t => forall id, handsOver t = Some id ->
                     In id agentIds /\ notTargeted id event = false) tails /\
  (event_type event = "news"%string ->
   steps = [] /\ Forall (fun t => handsOver t = None) tails) /\
  (event_type event = "interaction_prompt"%string ->
   Forall (fun s => stepAgent s = initiatorId data) steps /\
   Forall (fun t => forall id, handsOver t = Some id ->
                      id = initiatorId data) tails).
Proof.
  induction agentIds as [|agentId rest IH]; simpl.
  { repeat split; auto. }
  pose proof (processAgentEvent_scope agents agentId event data
                (draw answers agentId) (timeline answers agentId)
                (clock answers agentId) (clock answers agentId))
    as (P1 & P2 & P3 & P4).
  cbv zeta in P1, P2, P3, P4.
  destruct (processAgentEvent agents agentId event data
              (draw answers agentId) (timeline answers agentId)
              (clock answers agentId) (clock answers agentId))
    as [steps tail]; simpl in P1, P2, P3, P4.
  assert (Q1 : Forall (fun s => In (stepAgent s) (agentId :: rest) /\
                                notTargeted (stepAgent s) event = false)
                 steps).
  { eapply List.Forall_impl; [|exact P1]. intros s [-> H]. split; [now left|].
    exact H. }
  assert (Q2 : forall id, handsOver tail = Some id ->
                 In id (agentId :: rest) /\ notTargeted id event = false).
  { intros id H. destruct (P2 id H) as [-> H']. split; [now left|exact H']. }
  destruct IH as (I1 & I2 & I3 & I4).
  destruct (notifyAgents agents answers event data rest)
    as [[steps' tails] completed]; simpl in I1, I2, I3, I4.
  assert (R1 : Forall (fun s => In (stepAgent s) (agentId :: rest) /\
                                notTargeted (stepAgent s) event = false)
                 steps').
  { eapply List.Forall_impl; [|exact I1]. intros s [H H']. split; [now right|].
    exact H'. }
  assert (R2 : Forall (fun t => forall id, handsOver t = Some id ->
                          In id (agentId :: rest) /\
                          notTargeted id event = false) tails).
  { eapply List.Forall_impl; [|exact I2]. intros t H id Hid.
    destruct (H id Hid). split; [now right|assumption]. }
  match goal with
  | |- context [if ?c then _ else _] => destruct c
  end; simpl.
  - split; [apply Forall_app; split; assumption|].
    split; [constructor; assumption|]. split.
    + intros Hnews. destruct (P3 Hnews) as [-> Hnone].
      destruct (I3 Hnews) as [-> Hall]. split; [reflexivity|].
      constructor; assumption.
    + intros Hprompt. destruct (P4 Hprompt) as [H1 H2].
      destruct (I4 Hprompt) as [H3 H4].
      split; [apply Forall_app; split; assumption|constructor; assumption].
  - split; [exact Q1|]. split; [constructor; [exact Q2|constructor]|]. split.
    + intros Hnews. destruct (P3 Hnews) as [-> Hnone].
      split; [reflexivity|]. constructor; [exact Hnone|constructor].
    + intros Hprompt. destruct (P4 Hprompt) as [H1 H2].
      split; [exact H1|]. constructor; [exact H2|constructor].
Qed.

(** Two agents and a news event for all of them. *)
Lemma event_reaches_only_its_targets_witness :
  let agents : gmap string Agent :=
    <["bot2" := Scenario.bot1]> (<["bot1" := Scenario.bot1]> ∅) in
  let answers :=
    mkAnswers (fun _ => 0) (fun _ => Ok []) (fun _ => 1000000%Z)
      (fun _ => true) in
  let event := mkEvent "e1" "news" [] normal in
  let data := mkEventData "storm" 0 0 0 "bot1" "bot2" "weather" in
  fst (fst (notifyAgents agents answers event data ["bot1"; "bot2"]%string))
  = [] /\
  snd (notifyAgents agents answers event data ["bot1"; "bot2"]%string)
  = false.
Proof.
  intros agents answers event data. split; [|reflexivity].
  exact (proj1 (proj1 (proj2 (proj2 (event_reaches_only_its_targets agents
                                       answers event data
                                       ["bot1"; "bot2"]%string)))
                  eq_refl)).
Defined.

End AgentEventFacts.
